(** * Double-pendulum physics engine (app/physics/pendulum_physics.py)

    A shallow embedding of the classes [PendulumParams], [PathTracer],
    [Pendulum] and [PendulumSystem], and the verification of the properties
    the specification states about them.

    Modelling conventions.
    - Python floats (and the ints mixed with them) are idealised as real
      numbers [R]; [math.sin], [math.cos], [math.sqrt], [math.pi] are the
      real functions.  Rounding, overflow, infinities and NaN are outside
      the model.
    - Every method is a computation in a state-and-exception monad
      [M S A = S -> outcome A * S]: an exception raised half way through a
      method leaves the mutations made so far in place, as in Python.
    - [/] and [%] raise [ZeroDivisionError] on a zero divisor and
      [deque(maxlen=n)] raises [ValueError] on a negative [n].
    - Objects shared by reference ([Pendulum] instances held both by the
      dict of a [PendulumSystem] and by its [selected_pendulum]) live in an
      explicit store; the dict is an insertion-ordered association list.
    - [print] and the pygame drawing calls have no effect on the modelled
      state and are left out. *)

From Stdlib Require Import Reals Lra Lia ZArith List Bool.
From stdpp Require Import base list.
Import ListNotations.

Open Scope R_scope.

(** ** Exceptions and the method monad *)

Inductive exn : Set :=
| ZeroDivisionError
| ValueError
| KeyError
| DanglingReference (* model only: a reference outside the object store *).

Inductive outcome (A : Type) : Type :=
| Return (a : A)
| Raise (e : exn).
Arguments Return {A} a.
Arguments Raise {A} e.

Definition M (S A : Type) : Type := S -> outcome A * S.

Definition ret {S A} (a : A) : M S A := fun s => (Return a, s).
Definition raise {S A} (e : exn) : M S A := fun s => (Raise e, s).
Definition lift {S A} (o : outcome A) : M S A := fun s => (o, s).
Definition bind {S A B} (m : M S A) (k : A -> M S B) : M S B :=
  fun s =>
    match m s with
    | (Return a, s') => k a s'
    | (Raise e, s') => (Raise e, s')
    end.
Definition gets {S A} (f : S -> A) : M S A := fun s => (Return (f s), s).
Definition modify {S} (f : S -> S) : M S unit := fun s => (Return tt, f s).

Declare Scope py_scope.
Delimit Scope py_scope with py.
Notation "x <- m ;; k" := (bind m (fun x => k))
  (at level 100, m at next level, right associativity) : py_scope.
Notation "m ;; k" := (bind m (fun _ => k))
  (at level 100, right associativity) : py_scope.
Open Scope py_scope.

(** A call whose result is not used. *)
Definition discard {S A} (m : M S A) : M S unit := m ;; ret tt.

(** Running a computation of a component inside the object that owns it. *)
Definition zoom {S T A} (proj : S -> T) (upd : T -> S -> S) (m : M T A) : M S A :=
  fun s => let (r, t') := m (proj s) in (r, upd t' s).

(** [m] never changes the attribute [f], whether it returns or raises. *)
Definition preserves {S X A} (f : S -> X) (m : M S A) : Prop :=
  forall s, f (snd (m s)) = f s.

(** ** Python arithmetic on (idealised) floats *)

Definition py_div (x y : R) : outcome R :=
  if Req_dec_T y 0 then Raise ZeroDivisionError else Return (x / y).

(** [x % y]: the result has the sign of the divisor. *)
Definition py_mod (x y : R) : outcome R :=
  if Req_dec_T y 0 then Raise ZeroDivisionError
  else Return (x - y * IZR (Int_part (x / y))).

(** [int(x)] truncates towards zero. *)
Definition py_int (x : R) : Z :=
  if Rle_dec 0 x then Int_part x else (- Int_part (- x))%Z.

(** [max(a, b)] returns its first argument unless the second is larger. *)
Definition py_max (a b : R) : R := if Rlt_dec a b then b else a.

Definition py_le (a b : R) : bool := if Rle_dec a b then true else false.
Definition py_gt (a b : R) : bool := if Rgt_dec a b then true else false.

(** [math.sqrt] raises [ValueError] outside its domain. *)
Definition py_sqrt (x : R) : outcome R :=
  if Rlt_dec x 0 then Raise ValueError else Return (sqrt x).

(** [math.atan2(y, x)] (signed zeros aside). *)
Definition atan2 (y x : R) : R :=
  if Rlt_dec 0 x then atan (y / x)
  else if Rlt_dec x 0 then
         (if Rle_dec 0 y then atan (y / x) + PI else atan (y / x) - PI)
  else if Rlt_dec 0 y then PI / 2
  else if Rlt_dec y 0 then - (PI / 2)
  else 0.

(** ** [collections.deque] with a [maxlen] *)

Module deque.

Record t (A : Type) : Type := mk { items : list A; maxlen : Z }.
Arguments mk {A} items maxlen.
Arguments items {A} _.
Arguments maxlen {A} _.

(** [deque(maxlen=n)] *)
Definition new {A} (n : Z) : outcome (t A) :=
  if (n <? 0)%Z then Raise ValueError else Return (mk [] n).

(** [d.append(x)]: push on the right, then drop the leftmost item when
    the bound is exceeded. *)
Definition append {A} (x : A) (d : t A) : t A :=
  let l := items d ++ [x] in
  if (maxlen d <? Z.of_nat (length l))%Z then mk (tl l) (maxlen d)
  else mk l (maxlen d).

(** [d.clear()] *)
Definition clear {A} (d : t A) : t A := mk [] (maxlen d).

End deque.

(** ** class PendulumParams *)

Module PendulumParams.

Record t : Type := mk {
  offset_x : R;
  offset_y : R;
  length1 : R;
  length2 : R;
  mass1 : R;
  mass2 : R;
  angle1 : R;
  angle2 : R;
  velocity1 : R;
  velocity2 : R;
  path_color : Z * Z * Z;
  path_duration : R;
  show_wire : bool
}.

(** The constructor called with no argument. *)
Definition default : t :=
  mk 0 0 120 120 10 10 (PI / 4) (PI / 4) 0 0 (0, 128, 255)%Z 2 true.

Definition clone (self : t) : t :=
  mk (offset_x self) (offset_y self)
     (length1 self) (length2 self)
     (mass1 self) (mass2 self)
     (angle1 self) (angle2 self)
     (velocity1 self) (velocity2 self)
     (path_color self) (path_duration self)
     (show_wire self).

End PendulumParams.

(** ** class PathTracer *)

Module PathTracer.

Record t : Type := mk {
  points : deque.t (R * R);
  max_points : Z;
  color : Z * Z * Z;
  visible : bool
}.

Definition set_points (v : deque.t (R * R)) (s : t) : t :=
  mk v (max_points s) (color s) (visible s).
Definition set_max_points (v : Z) (s : t) : t :=
  mk (points s) v (color s) (visible s).
Definition set_color_field (v : Z * Z * Z) (s : t) : t :=
  mk (points s) (max_points s) v (visible s).

Definition __init__ (max_points : Z) (color : Z * Z * Z) : outcome t :=
  match deque.new max_points with
  | Return d => Return (mk d max_points color true)
  | Raise e => Raise e
  end.

Definition initialize (max_points : Z) (color : Z * Z * Z) : M t unit :=
  modify (set_max_points max_points) ;;
  d <- lift (deque.new max_points) ;;
  modify (set_points d) ;;
  modify (set_color_field color).

Definition add_point (x y : R) : M t unit :=
  vis <- gets visible ;;
  if vis then
    pts <- gets points ;;
    modify (set_points (deque.append (x, y) pts))
  else ret tt.

Definition clear : M t unit :=
  pts <- gets points ;;
  modify (set_points (deque.clear pts)).

Definition set_color (r g b : Z) : M t unit :=
  modify (set_color_field (r, g, b)).

(** The body of [for i, point in enumerate(self.points)]. *)
Fixpoint set_duration_loop (i : Z) (pts : list (R * R)) (max_points : Z)
         (new_points : deque.t (R * R)) : deque.t (R * R) :=
  match pts with
  | [] => new_points
  | point :: rest =>
      set_duration_loop (i + 1)%Z rest max_points
        (if (i <? max_points)%Z then deque.append point new_points
         else new_points)
  end.

Definition set_duration (seconds fps : R) : M t unit :=
  modify (set_max_points (py_int (seconds * fps))) ;;
  mp <- gets max_points ;;
  new_points <- lift (deque.new mp) ;;
  pts <- gets points ;;
  modify (set_points
            (set_duration_loop 0 (deque.items pts) mp new_points)).

End PathTracer.

(** ** class Pendulum *)

Module Pendulum.

Record t : Type := mk {
  id : Z;
  path_tracer : PathTracer.t;
  initial_state : option PendulumParams.t;
  offset_x : R;
  offset_y : R;
  length1 : R;
  length2 : R;
  mass1 : R;
  mass2 : R;
  angle1 : R;
  angle2 : R;
  velocity1 : R;
  velocity2 : R;
  acceleration1 : R;
  acceleration2 : R;
  x1 : R;
  y1 : R;
  x2 : R;
  y2 : R;
  show_wire : bool;
  dragging : bool;
  drag_joint : Z
}.

(** Attribute assignment, one function per attribute the methods write. *)
Definition with_path_tracer (v : PathTracer.t) (s : t) : t :=
  mk (id s) v (initial_state s) (offset_x s) (offset_y s) (length1 s)
     (length2 s) (mass1 s) (mass2 s) (angle1 s) (angle2 s) (velocity1 s)
     (velocity2 s) (acceleration1 s) (acceleration2 s) (x1 s) (y1 s)
     (x2 s) (y2 s) (show_wire s) (dragging s) (drag_joint s).
Definition with_initial_state (v : option PendulumParams.t) (s : t) : t :=
  mk (id s) (path_tracer s) v (offset_x s) (offset_y s) (length1 s)
     (length2 s) (mass1 s) (mass2 s) (angle1 s) (angle2 s) (velocity1 s)
     (velocity2 s) (acceleration1 s) (acceleration2 s) (x1 s) (y1 s)
     (x2 s) (y2 s) (show_wire s) (dragging s) (drag_joint s).
Definition with_offset_x (v : R) (s : t) : t :=
  mk (id s) (path_tracer s) (initial_state s) v (offset_y s) (length1 s)
     (length2 s) (mass1 s) (mass2 s) (angle1 s) (angle2 s) (velocity1 s)
     (velocity2 s) (acceleration1 s) (acceleration2 s) (x1 s) (y1 s)
     (x2 s) (y2 s) (show_wire s) (dragging s) (drag_joint s).
Definition with_offset_y (v : R) (s : t) : t :=
  mk (id s) (path_tracer s) (initial_state s) (offset_x s) v (length1 s)
     (length2 s) (mass1 s) (mass2 s) (angle1 s) (angle2 s) (velocity1 s)
     (velocity2 s) (acceleration1 s) (acceleration2 s) (x1 s) (y1 s)
     (x2 s) (y2 s) (show_wire s) (dragging s) (drag_joint s).
Definition with_length1 (v : R) (s : t) : t :=
  mk (id s) (path_tracer s) (initial_state s) (offset_x s) (offset_y s) v
     (length2 s) (mass1 s) (mass2 s) (angle1 s) (angle2 s) (velocity1 s)
     (velocity2 s) (acceleration1 s) (acceleration2 s) (x1 s) (y1 s)
     (x2 s) (y2 s) (show_wire s) (dragging s) (drag_joint s).
Definition with_length2 (v : R) (s : t) : t :=
  mk (id s) (path_tracer s) (initial_state s) (offset_x s) (offset_y s)
     (length1 s) v (mass1 s) (mass2 s) (angle1 s) (angle2 s) (velocity1 s)
     (velocity2 s) (acceleration1 s) (acceleration2 s) (x1 s) (y1 s)
     (x2 s) (y2 s) (show_wire s) (dragging s) (drag_joint s).
Definition with_mass1 (v : R) (s : t) : t :=
  mk (id s) (path_tracer s) (initial_state s) (offset_x s) (offset_y s)
     (length1 s) (length2 s) v (mass2 s) (angle1 s) (angle2 s)
     (velocity1 s) (velocity2 s) (acceleration1 s) (acceleration2 s)
     (x1 s) (y1 s) (x2 s) (y2 s) (show_wire s) (dragging s) (drag_joint s).
Definition with_mass2 (v : R) (s : t) : t :=
  mk (id s) (path_tracer s) (initial_state s) (offset_x s) (offset_y s)
     (length1 s) (length2 s) (mass1 s) v (angle1 s) (angle2 s)
     (velocity1 s) (velocity2 s) (acceleration1 s) (acceleration2 s)
     (x1 s) (y1 s) (x2 s) (y2 s) (show_wire s) (dragging s) (drag_joint s).
Definition with_angle1 (v : R) (s : t) : t :=
  mk (id s) (path_tracer s) (initial_state s) (offset_x s) (offset_y s)
     (length1 s) (length2 s) (mass1 s) (mass2 s) v (angle2 s)
     (velocity1 s) (velocity2 s) (acceleration1 s) (acceleration2 s)
     (x1 s) (y1 s) (x2 s) (y2 s) (show_wire s) (dragging s) (drag_joint s).
Definition with_angle2 (v : R) (s : t) : t :=
  mk (id s) (path_tracer s) (initial_state s) (offset_x s) (offset_y s)
     (length1 s) (length2 s) (mass1 s) (mass2 s) (angle1 s) v
     (velocity1 s) (velocity2 s) (acceleration1 s) (acceleration2 s)
     (x1 s) (y1 s) (x2 s) (y2 s) (show_wire s) (dragging s) (drag_joint s).
Definition with_velocity1 (v : R) (s : t) : t :=
  mk (id s) (path_tracer s) (initial_state s) (offset_x s) (offset_y s)
     (length1 s) (length2 s) (mass1 s) (mass2 s) (angle1 s) (angle2 s) v
     (velocity2 s) (acceleration1 s) (acceleration2 s) (x1 s) (y1 s)
     (x2 s) (y2 s) (show_wire s) (dragging s) (drag_joint s).
Definition with_velocity2 (v : R) (s : t) : t :=
  mk (id s) (path_tracer s) (initial_state s) (offset_x s) (offset_y s)
     (length1 s) (length2 s) (mass1 s) (mass2 s) (angle1 s) (angle2 s)
     (velocity1 s) v (acceleration1 s) (acceleration2 s) (x1 s) (y1 s)
     (x2 s) (y2 s) (show_wire s) (dragging s) (drag_joint s).
Definition with_x1 (v : R) (s : t) : t :=
  mk (id s) (path_tracer s) (initial_state s) (offset_x s) (offset_y s)
     (length1 s) (length2 s) (mass1 s) (mass2 s) (angle1 s) (angle2 s)
     (velocity1 s) (velocity2 s) (acceleration1 s) (acceleration2 s) v
     (y1 s) (x2 s) (y2 s) (show_wire s) (dragging s) (drag_joint s).
Definition with_y1 (v : R) (s : t) : t :=
  mk (id s) (path_tracer s) (initial_state s) (offset_x s) (offset_y s)
     (length1 s) (length2 s) (mass1 s) (mass2 s) (angle1 s) (angle2 s)
     (velocity1 s) (velocity2 s) (acceleration1 s) (acceleration2 s)
     (x1 s) v (x2 s) (y2 s) (show_wire s) (dragging s) (drag_joint s).
Definition with_x2 (v : R) (s : t) : t :=
  mk (id s) (path_tracer s) (initial_state s) (offset_x s) (offset_y s)
     (length1 s) (length2 s) (mass1 s) (mass2 s) (angle1 s) (angle2 s)
     (velocity1 s) (velocity2 s) (acceleration1 s) (acceleration2 s)
     (x1 s) (y1 s) v (y2 s) (show_wire s) (dragging s) (drag_joint s).
Definition with_y2 (v : R) (s : t) : t :=
  mk (id s) (path_tracer s) (initial_state s) (offset_x s) (offset_y s)
     (length1 s) (length2 s) (mass1 s) (mass2 s) (angle1 s) (angle2 s)
     (velocity1 s) (velocity2 s) (acceleration1 s) (acceleration2 s)
     (x1 s) (y1 s) (x2 s) v (show_wire s) (dragging s) (drag_joint s).
Definition with_show_wire (v : bool) (s : t) : t :=
  mk (id s) (path_tracer s) (initial_state s) (offset_x s) (offset_y s)
     (length1 s) (length2 s) (mass1 s) (mass2 s) (angle1 s) (angle2 s)
     (velocity1 s) (velocity2 s) (acceleration1 s) (acceleration2 s)
     (x1 s) (y1 s) (x2 s) (y2 s) v (dragging s) (drag_joint s).
Definition with_dragging (v : bool) (s : t) : t :=
  mk (id s) (path_tracer s) (initial_state s) (offset_x s) (offset_y s)
     (length1 s) (length2 s) (mass1 s) (mass2 s) (angle1 s) (angle2 s)
     (velocity1 s) (velocity2 s) (acceleration1 s) (acceleration2 s)
     (x1 s) (y1 s) (x2 s) (y2 s) (show_wire s) v (drag_joint s).
Definition with_drag_joint (v : Z) (s : t) : t :=
  mk (id s) (path_tracer s) (initial_state s) (offset_x s) (offset_y s)
     (length1 s) (length2 s) (mass1 s) (mass2 s) (angle1 s) (angle2 s)
     (velocity1 s) (velocity2 s) (acceleration1 s) (acceleration2 s)
     (x1 s) (y1 s) (x2 s) (y2 s) (show_wire s) (dragging s) v.

Definition __init__ (pendulum_id : Z) : outcome t :=
  match PathTracer.__init__ 500 (0, 128, 255)%Z with
  | Return tracer =>
      Return (mk pendulum_id tracer None
                 0 0 120 120 10 10 (PI / 4) (PI / 4) 0 0 0 0
                 0 0 0 0 true false 0)
  | Raise e => Raise e
  end.

Definition _calculate_cartesian_positions : M t unit :=
  (* First pendulum bob position *)
  l1 <- gets length1 ;; a1 <- gets angle1 ;;
  modify (with_x1 (l1 * sin a1)) ;;
  l1 <- gets length1 ;; a1 <- gets angle1 ;;
  modify (with_y1 (l1 * cos a1)) ;;
  (* Second pendulum bob position (relative to first) *)
  x1 <- gets x1 ;; l2 <- gets length2 ;; a2 <- gets angle2 ;;
  modify (with_x2 (x1 + l2 * sin a2)) ;;
  y1 <- gets y1 ;; l2 <- gets length2 ;; a2 <- gets angle2 ;;
  modify (with_y2 (y1 + l2 * cos a2)).

Definition initialize (params : PendulumParams.t) : M t unit :=
  (* Store initial parameters for reset *)
  modify (with_initial_state (Some (PendulumParams.clone params))) ;;
  (* Set physical properties *)
  modify (with_offset_x (PendulumParams.offset_x params)) ;;
  modify (with_offset_y (PendulumParams.offset_y params)) ;;
  modify (with_length1 (PendulumParams.length1 params)) ;;
  modify (with_length2 (PendulumParams.length2 params)) ;;
  modify (with_mass1 (PendulumParams.mass1 params)) ;;
  modify (with_mass2 (PendulumParams.mass2 params)) ;;
  modify (with_angle1 (PendulumParams.angle1 params)) ;;
  modify (with_angle2 (PendulumParams.angle2 params)) ;;
  modify (with_velocity1 (PendulumParams.velocity1 params)) ;;
  modify (with_velocity2 (PendulumParams.velocity2 params)) ;;
  modify (with_show_wire (PendulumParams.show_wire params)) ;;
  (* Initialize path tracer *)
  let fps := 60 in
  let max_points := py_int (PendulumParams.path_duration params * fps) in
  zoom path_tracer with_path_tracer
       (PathTracer.initialize max_points (PendulumParams.path_color params)) ;;
  (* Calculate initial positions *)
  _calculate_cartesian_positions.

Definition _calculate_acceleration1 (gravity : R) : M t R :=
  let g := gravity in
  m1 <- gets mass1 ;; m2 <- gets mass2 ;;
  l1 <- gets length1 ;; l2 <- gets length2 ;;
  a1 <- gets angle1 ;; a2 <- gets angle2 ;;
  v1 <- gets velocity1 ;; v2 <- gets velocity2 ;;
  let num1 := - g * (2 * m1 + m2) * sin a1 in
  let num2 := - m2 * g * sin (a1 - 2 * a2) in
  let num3 := -2 * sin (a1 - a2) * m2
              * (v2 ^ 2 * l2 + v1 ^ 2 * l1 * cos (a1 - a2)) in
  let den := l1 * (2 * m1 + m2 - m2 * cos (2 * a1 - 2 * a2)) in
  lift (py_div (num1 + num2 + num3) den).

Definition _calculate_acceleration2 (gravity : R) : M t R :=
  let g := gravity in
  m1 <- gets mass1 ;; m2 <- gets mass2 ;;
  l1 <- gets length1 ;; l2 <- gets length2 ;;
  a1 <- gets angle1 ;; a2 <- gets angle2 ;;
  v1 <- gets velocity1 ;; v2 <- gets velocity2 ;;
  let num1 := 2 * sin (a1 - a2) in
  let num2 := v1 ^ 2 * l1 * (m1 + m2) + g * (m1 + m2) * cos a1 in
  let num3 := v2 ^ 2 * l2 * m2 * cos (a1 - a2) in
  let den := l2 * (2 * m1 + m2 - m2 * cos (2 * a1 - 2 * a2)) in
  lift (py_div (num1 * (num2 + num3)) den).

Definition _velocity_verlet_step (dt gravity : R) : M t unit :=
  (* Save current accelerations *)
  accel1_old <- _calculate_acceleration1 gravity ;;
  accel2_old <- _calculate_acceleration2 gravity ;;
  (* Half-step velocity update *)
  v1 <- gets velocity1 ;; modify (with_velocity1 (v1 + 0.5 * accel1_old * dt)) ;;
  v2 <- gets velocity2 ;; modify (with_velocity2 (v2 + 0.5 * accel2_old * dt)) ;;
  (* Full-step position update *)
  a1 <- gets angle1 ;; v1 <- gets velocity1 ;; modify (with_angle1 (a1 + v1 * dt)) ;;
  a2 <- gets angle2 ;; v2 <- gets velocity2 ;; modify (with_angle2 (a2 + v2 * dt)) ;;
  (* Normalize angles *)
  a1 <- gets angle1 ;; r1 <- lift (py_mod (a1 + PI) (2 * PI)) ;;
  modify (with_angle1 (r1 - PI)) ;;
  a2 <- gets angle2 ;; r2 <- lift (py_mod (a2 + PI) (2 * PI)) ;;
  modify (with_angle2 (r2 - PI)) ;;
  (* Calculate new accelerations after position update *)
  accel1_new <- _calculate_acceleration1 gravity ;;
  accel2_new <- _calculate_acceleration2 gravity ;;
  (* Complete velocity update *)
  v1 <- gets velocity1 ;; modify (with_velocity1 (v1 + 0.5 * accel1_new * dt)) ;;
  v2 <- gets velocity2 ;; modify (with_velocity2 (v2 + 0.5 * accel2_new * dt)).

Definition update (dt gravity : R) : M t unit :=
  d <- gets dragging ;;
  if d then
    (* Skip physics update when being dragged *)
    ret tt
  else
    (* Perform Velocity Verlet integration *)
    _velocity_verlet_step dt gravity ;;
    (* Calculate Cartesian positions from angles *)
    _calculate_cartesian_positions.

(** [render(surface)]: [width] and [height] are what [surface.get_width()]
    and [surface.get_height()] return; only the effect on the pendulum is
    modelled (the sample pushed on the trail), the drawing is not. *)
Definition render (width height : Z) : M t unit :=
  ox <- gets offset_x ;; oy <- gets offset_y ;;
  let anchor_x := IZR (width / 2) + ox in
  let anchor_y := IZR (height / 2) + oy in
  x2 <- gets x2 ;; y2 <- gets y2 ;;
  let screen_x2 := anchor_x + x2 in
  let screen_y2 := anchor_y + y2 in
  d <- gets dragging ;;
  if negb d then
    zoom path_tracer with_path_tracer (PathTracer.add_point screen_x2 screen_y2)
  else ret tt.

Definition reset : M t unit :=
  st <- gets initial_state ;;
  match st with
  | Some params => initialize params
  | None => ret tt
  end.

Definition set_length (rod : Z) (value : R) : M t unit :=
  (if (rod =? 1)%Z then modify (with_length1 value)
   else modify (with_length2 value)) ;;
  _calculate_cartesian_positions.

Definition set_mass (bob : Z) (value : R) : M t unit :=
  if (bob =? 1)%Z then modify (with_mass1 value)
  else modify (with_mass2 value).

Definition set_angle (joint : Z) (value : R) : M t unit :=
  (if (joint =? 1)%Z then modify (with_angle1 value)
   else modify (with_angle2 value)) ;;
  _calculate_cartesian_positions.

Definition set_velocity (joint : Z) (value : R) : M t unit :=
  if (joint =? 1)%Z then modify (with_velocity1 value)
  else modify (with_velocity2 value).

Definition toggle_wire_visibility : M t unit :=
  w <- gets show_wire ;; modify (with_show_wire (negb w)).

Definition start_drag (position screen_center : R * R) : M t bool :=
  (* Adjust position to be relative to anchor point *)
  ox <- gets offset_x ;; oy <- gets offset_y ;;
  let anchor_x := fst screen_center + ox in
  let anchor_y := snd screen_center + oy in
  (* Calculate screen positions of bobs *)
  x1 <- gets x1 ;; y1 <- gets y1 ;; x2 <- gets x2 ;; y2 <- gets y2 ;;
  let screen_x1 := anchor_x + x1 in
  let screen_y1 := anchor_y + y1 in
  let screen_x2 := anchor_x + x2 in
  let screen_y2 := anchor_y + y2 in
  (* Check if mouse is near second bob (first, as it is usually on top) *)
  let dx2 := fst position - screen_x2 in
  let dy2 := snd position - screen_y2 in
  dist2 <- lift (py_sqrt (dx2 * dx2 + dy2 * dy2)) ;;
  m2 <- gets mass2 ;;
  if py_le dist2 (py_max 10 m2) then
    modify (with_dragging true) ;;
    modify (with_drag_joint 2) ;;
    ret true
  else
    (* Check if mouse is near first bob *)
    let dx1 := fst position - screen_x1 in
    let dy1 := snd position - screen_y1 in
    dist1 <- lift (py_sqrt (dx1 * dx1 + dy1 * dy1)) ;;
    m1 <- gets mass1 ;;
    if py_le dist1 (py_max 10 m1) then
      modify (with_dragging true) ;;
      modify (with_drag_joint 1) ;;
      ret true
    else ret false.

Definition update_drag (position screen_center : R * R) : M t unit :=
  d <- gets dragging ;;
  if negb d then ret tt
  else
    (* Adjust position to be relative to anchor point *)
    ox <- gets offset_x ;; oy <- gets offset_y ;;
    let anchor_x := fst screen_center + ox in
    let anchor_y := snd screen_center + oy in
    let rel_x := fst position - anchor_x in
    let rel_y := snd position - anchor_y in
    j <- gets drag_joint ;;
    (if (j =? 1)%Z then
       (* Dragging first bob *)
       modify (with_angle1 (atan2 rel_y rel_x)) ;;
       new_length <- lift (py_sqrt (rel_x * rel_x + rel_y * rel_y)) ;;
       (if py_gt new_length 10 then modify (with_length1 new_length)
        else ret tt) ;;
       modify (with_velocity1 0) ;;
       modify (with_velocity2 0)
     else if (j =? 2)%Z then
       (* Dragging second bob: first, calculate position of first bob *)
       _calculate_cartesian_positions ;;
       first_bob_x <- gets x1 ;;
       first_bob_y <- gets y1 ;;
       let rel_to_first_x := rel_x - first_bob_x in
       let rel_to_first_y := rel_y - first_bob_y in
       modify (with_angle2 (atan2 rel_to_first_y rel_to_first_x)) ;;
       new_length <- lift (py_sqrt (rel_to_first_x * rel_to_first_x
                                    + rel_to_first_y * rel_to_first_y)) ;;
       (if py_gt new_length 10 then modify (with_length2 new_length)
        else ret tt) ;;
       modify (with_velocity1 0) ;;
       modify (with_velocity2 0)
     else ret tt) ;;
    (* Update cartesian positions *)
    _calculate_cartesian_positions.

Definition end_drag : M t unit :=
  modify (with_dragging false) ;;
  modify (with_drag_joint 0) ;;
  (* Clear path when drag ends *)
  zoom path_tracer with_path_tracer PathTracer.clear.

Definition calculate_energy (gravity : R) : M t (R * R * R) :=
  let g := gravity in
  m1 <- gets mass1 ;; m2 <- gets mass2 ;;
  l1 <- gets length1 ;; l2 <- gets length2 ;;
  a1 <- gets angle1 ;; a2 <- gets angle2 ;;
  v1 <- gets velocity1 ;; v2 <- gets velocity2 ;;
  (* Calculate positions *)
  let x1 := l1 * sin a1 in
  let y1 := - l1 * cos a1 in
  let x2 := x1 + l2 * sin a2 in
  let y2 := y1 - l2 * cos a2 in
  (* Calculate velocities in Cartesian coordinates *)
  let vx1 := l1 * v1 * cos a1 in
  let vy1 := l1 * v1 * sin a1 in
  let vx2 := vx1 + l2 * v2 * cos a2 in
  let vy2 := vy1 + l2 * v2 * sin a2 in
  (* Kinetic energy *)
  let ke1 := 0.5 * m1 * (vx1 ^ 2 + vy1 ^ 2) in
  let ke2 := 0.5 * m2 * (vx2 ^ 2 + vy2 ^ 2) in
  let kinetic_energy := ke1 + ke2 in
  (* Potential energy *)
  let pe1 := m1 * g * (y1 + l1) in
  let pe2 := m2 * g * (y2 + l1 + l2) in
  let potential_energy := pe1 + pe2 in
  (* Total energy *)
  let total_energy := kinetic_energy + potential_energy in
  ret (kinetic_energy, potential_energy, total_energy).

(** The calls a client can make on a pendulum once it is initialised. *)
Inductive op : Type :=
| Update (dt gravity : R)
| Render (width height : Z)
| Reset
| SetLength (rod : Z) (value : R)
| SetMass (bob : Z) (value : R)
| SetAngle (joint : Z) (value : R)
| SetVelocity (joint : Z) (value : R)
| ToggleWireVisibility
| StartDrag (position screen_center : R * R)
| UpdateDrag (position screen_center : R * R)
| EndDrag
| CalculateEnergy (gravity : R)
| SetPathColor (r g b : Z)
| SetPathDuration (seconds fps : R).

Definition call (o : op) : M t unit :=
  match o with
  | Update dt gravity => update dt gravity
  | Render width height => render width height
  | Reset => reset
  | SetLength rod value => set_length rod value
  | SetMass bob value => set_mass bob value
  | SetAngle joint value => set_angle joint value
  | SetVelocity joint value => set_velocity joint value
  | ToggleWireVisibility => toggle_wire_visibility
  | StartDrag position screen_center =>
      discard (start_drag position screen_center)
  | UpdateDrag position screen_center => update_drag position screen_center
  | EndDrag => end_drag
  | CalculateEnergy gravity => discard (calculate_energy gravity)
  | SetPathColor r g b =>
      zoom path_tracer with_path_tracer (PathTracer.set_color r g b)
  | SetPathDuration seconds fps =>
      zoom path_tracer with_path_tracer (PathTracer.set_duration seconds fps)
  end.

Definition op_eq_Reset_dec (o : op) : {o = Reset} + {o <> Reset}.
Proof. destruct o; first [left; reflexivity | right; discriminate]. Defined.

(** The state after a sequence of calls; a call that raises leaves the
    pendulum as it was when the exception left the method. *)
Fixpoint exec (os : list op) (s : t) : t :=
  match os with
  | [] => s
  | o :: rest => exec rest (snd (call o s))
  end.

End Pendulum.

(** ** Python [dict], insertion ordered *)

Module dict.

Definition t (V : Type) : Type := list (Z * V).

(** [d.get(k)] *)
Fixpoint get {V} (k : Z) (d : t V) : option V :=
  match d with
  | [] => None
  | (k', v) :: rest => if (k' =? k)%Z then Some v else get k rest
  end.

(** [k in d] *)
Definition contains {V} (k : Z) (d : t V) : bool :=
  match get k d with Some _ => true | None => false end.

(** [d[k]] *)
Definition getitem {V} (k : Z) (d : t V) : outcome V :=
  match get k d with Some v => Return v | None => Raise KeyError end.

(** [d[k] = v]: an existing key keeps its place, a new one goes last. *)
Fixpoint set {V} (k : Z) (v : V) (d : t V) : t V :=
  match d with
  | [] => [(k, v)]
  | (k', v') :: rest =>
      if (k' =? k)%Z then (k, v) :: rest else (k', v') :: set k v rest
  end.

Fixpoint remove {V} (k : Z) (d : t V) : t V :=
  match d with
  | [] => []
  | (k', v') :: rest =>
      if (k' =? k)%Z then rest else (k', v') :: remove k rest
  end.

(** [del d[k]] *)
Definition del {V} (k : Z) (d : t V) : outcome (t V) :=
  if contains k d then Return (remove k d) else Raise KeyError.

(** [d.values()] *)
Definition values {V} (d : t V) : list V := map snd d.

End dict.

(** [for x in xs: body(x)] *)
Fixpoint for_each {S A} (xs : list A) (body : A -> M S unit) : M S unit :=
  match xs with
  | [] => ret tt
  | x :: rest => body x ;; for_each rest body
  end.

(** ** class PendulumSystem *)

Module PendulumSystem.

(** A reference to a [Pendulum] instance: its index in the object store. *)
Abbreviation ref := nat.

Record t : Type := mk {
  objects : list Pendulum.t;      (* the Pendulum instances allocated so far *)
  pendulums : dict.t ref;         (* pendulum_id -> Pendulum *)
  selected_pendulum : option ref;
  next_pendulum_id : Z
}.

Definition with_objects (v : list Pendulum.t) (s : t) : t :=
  mk v (pendulums s) (selected_pendulum s) (next_pendulum_id s).
Definition with_pendulums (v : dict.t ref) (s : t) : t :=
  mk (objects s) v (selected_pendulum s) (next_pendulum_id s).
Definition with_selected_pendulum (v : option ref) (s : t) : t :=
  mk (objects s) (pendulums s) v (next_pendulum_id s).
Definition with_next_pendulum_id (v : Z) (s : t) : t :=
  mk (objects s) (pendulums s) (selected_pendulum s) v.

(** Calling a method on the instance a reference points to. *)
Definition on_object {A} (r : ref) (m : M Pendulum.t A) : M t A :=
  fun s =>
    match objects s !! r with
    | Some p => let (res, p') := m p in
                (res, with_objects (<[r := p']> (objects s)) s)
    | None => (Raise DanglingReference, s)
    end.

(** Instantiating a new object. *)
Definition alloc (p : Pendulum.t) : M t ref :=
  fun s => (Return (length (objects s)), with_objects (objects s ++ [p]) s).

Definition __init__ : t := mk [] [] None 0.

Definition initialize : M t unit :=
  (* Clear any existing pendulums *)
  modify (with_pendulums []) ;;
  modify (with_selected_pendulum None) ;;
  modify (with_next_pendulum_id 0).

Definition update (dt gravity : R) : M t unit :=
  vals <- gets (fun s => dict.values (pendulums s)) ;;
  for_each vals (fun pendulum => on_object pendulum (Pendulum.update dt gravity)).

Definition render (width height : Z) : M t unit :=
  vals <- gets (fun s => dict.values (pendulums s)) ;;
  for_each vals (fun pendulum => on_object pendulum (Pendulum.render width height)).

Definition create_pendulum (params : PendulumParams.t) : M t ref :=
  pendulum_id <- gets next_pendulum_id ;;
  modify (with_next_pendulum_id (pendulum_id + 1)%Z) ;;
  fresh <- lift (Pendulum.__init__ pendulum_id) ;;
  pendulum <- alloc fresh ;;
  on_object pendulum (Pendulum.initialize params) ;;
  d <- gets pendulums ;;
  modify (with_pendulums (dict.set pendulum_id pendulum d)) ;;
  (* Select the newly created pendulum *)
  modify (with_selected_pendulum (Some pendulum)) ;;
  ret pendulum.

Definition remove_pendulum (pendulum_id : Z) : M t bool :=
  d <- gets pendulums ;;
  if dict.contains pendulum_id d then
    (* If removing the selected pendulum, clear selection *)
    sel <- gets selected_pendulum ;;
    match sel with
    | Some r =>
        sel_id <- on_object r (gets Pendulum.id) ;;
        if (sel_id =? pendulum_id)%Z
        then modify (with_selected_pendulum None)
        else ret tt
    | None => ret tt
    end ;;
    (* Remove the pendulum *)
    d <- gets pendulums ;;
    d' <- lift (dict.del pendulum_id d) ;;
    modify (with_pendulums d') ;;
    ret true
  else
    ret false.

Definition select_pendulum (pendulum_id : Z) : M t (option ref) :=
  d <- gets pendulums ;;
  if dict.contains pendulum_id d then
    d <- gets pendulums ;;
    r <- lift (dict.getitem pendulum_id d) ;;
    modify (with_selected_pendulum (Some r)) ;;
    gets selected_pendulum
  else
    ret None.

Definition get_pendulum_by_id (pendulum_id : Z) : M t (option ref) :=
  d <- gets pendulums ;;
  ret (dict.get pendulum_id d).

Definition get_selected_pendulum : M t (option ref) :=
  gets selected_pendulum.

Definition get_pendulum_count : M t Z :=
  d <- gets pendulums ;;
  ret (Z.of_nat (length d)).

Definition clear : M t unit :=
  modify (with_pendulums []) ;;
  modify (with_selected_pendulum None).

(** The loop of [try_select_pendulum_at_position], with its early returns. *)
Fixpoint try_select_loop (vals : list ref) (position screen_center : R * R)
  : M t (option ref) :=
  match vals with
  | [] => ret None (* No pendulum found at position *)
  | pendulum :: rest =>
      ox <- on_object pendulum (gets Pendulum.offset_x) ;;
      oy <- on_object pendulum (gets Pendulum.offset_y) ;;
      let anchor_x := fst screen_center + ox in
      let anchor_y := snd screen_center + oy in
      x1 <- on_object pendulum (gets Pendulum.x1) ;;
      y1 <- on_object pendulum (gets Pendulum.y1) ;;
      x2 <- on_object pendulum (gets Pendulum.x2) ;;
      y2 <- on_object pendulum (gets Pendulum.y2) ;;
      let screen_x1 := anchor_x + x1 in
      let screen_y1 := anchor_y + y1 in
      let screen_x2 := anchor_x + x2 in
      let screen_y2 := anchor_y + y2 in
      (* Check if position is near second bob *)
      let dx2 := fst position - screen_x2 in
      let dy2 := snd position - screen_y2 in
      dist2 <- lift (py_sqrt (dx2 * dx2 + dy2 * dy2)) ;;
      m2 <- on_object pendulum (gets Pendulum.mass2) ;;
      if py_le dist2 (py_max 10 m2) then
        modify (with_selected_pendulum (Some pendulum)) ;;
        ret (Some pendulum)
      else
        (* Check if position is near first bob *)
        let dx1 := fst position - screen_x1 in
        let dy1 := snd position - screen_y1 in
        dist1 <- lift (py_sqrt (dx1 * dx1 + dy1 * dy1)) ;;
        m1 <- on_object pendulum (gets Pendulum.mass1) ;;
        if py_le dist1 (py_max 10 m1) then
          modify (with_selected_pendulum (Some pendulum)) ;;
          ret (Some pendulum)
        else
          try_select_loop rest position screen_center
  end.

Definition try_select_pendulum_at_position (position screen_center : R * R)
  : M t (option ref) :=
  vals <- gets (fun s => dict.values (pendulums s)) ;;
  try_select_loop vals position screen_center.

(** The calls a client can make on the system, and on the pendulums it
    obtained from it. *)
Inductive op : Type :=
| Initialize
| Update (dt gravity : R)
| Render (width height : Z)
| CreatePendulum (params : PendulumParams.t)
| RemovePendulum (pendulum_id : Z)
| SelectPendulum (pendulum_id : Z)
| GetPendulumById (pendulum_id : Z)
| GetSelectedPendulum
| GetPendulumCount
| Clear
| TrySelectPendulumAtPosition (position screen_center : R * R)
| OnPendulum (r : ref) (o : Pendulum.op).

Definition call (o : op) : M t unit :=
  match o with
  | Initialize => initialize
  | Update dt gravity => update dt gravity
  | Render width height => render width height
  | CreatePendulum params => discard (create_pendulum params)
  | RemovePendulum pendulum_id => discard (remove_pendulum pendulum_id)
  | SelectPendulum pendulum_id => discard (select_pendulum pendulum_id)
  | GetPendulumById pendulum_id =>
      discard (get_pendulum_by_id pendulum_id)
  | GetSelectedPendulum => discard get_selected_pendulum
  | GetPendulumCount => discard get_pendulum_count
  | Clear => clear
  | TrySelectPendulumAtPosition position screen_center =>
      discard (try_select_pendulum_at_position position screen_center)
  | OnPendulum r o => on_object r (Pendulum.call o)
  end.

Fixpoint exec (os : list op) (s : t) : t :=
  match os with
  | [] => s
  | o :: rest => exec rest (snd (call o s))
  end.

(** The selected pendulum, when there is one, is a value of the dict. *)
Definition selection_live (s : t) : Prop :=
  forall r, selected_pendulum s = Some r ->
            exists k, dict.get k (pendulums s) = Some r.

(** Every key of the dict maps to an allocated instance whose [id] is that
    key. *)
Definition keys_are_ids (s : t) : Prop :=
  forall k r, dict.get k (pendulums s) = Some r ->
              exists p, objects s !! r = Some p /\ Pendulum.id p = k.

(** The keys of a dict are pairwise distinct. *)
Definition keys_unique (s : t) : Prop := List.NoDup (map fst (pendulums s)).

Definition wf (s : t) : Prop :=
  keys_unique s /\ keys_are_ids s /\ selection_live s.

(** The selection after removing the pendulum [r]. *)
Definition selection_without (r : nat) (sel : option nat) : option nat :=
  match sel with
  | Some r0 => if Nat.eqb r0 r then None else Some r0
  | None => None
  end.

(** What a call on the pendulums themselves can do to the system: the
    dict and the selection stay, every instance keeps its [id]. *)
Definition ids_kept (o o' : list Pendulum.t) : Prop :=
  forall r p, o !! r = Some p ->
              exists p', o' !! r = Some p' /\ Pendulum.id p' = Pendulum.id p.

Definition object_step (s s' : t) : Prop :=
  pendulums s' = pendulums s
  /\ selected_pendulum s' = selected_pendulum s
  /\ ids_kept (objects s) (objects s').

Definition objects_only {A} (m : M t A) : Prop :=
  forall s, object_step s (snd (m s)).

(** What selecting by position can do: the dict stays, every instance
    keeps its [id], and the selection either stays or becomes one of the
    references the loop went through. *)
Definition selection_step (vals : list nat) (s s' : t) : Prop :=
  pendulums s' = pendulums s
  /\ ids_kept (objects s) (objects s')
  /\ (selected_pendulum s' = selected_pendulum s
      \/ exists r, In r vals /\ selected_pendulum s' = Some r).

Definition selects_among {A} (vals : list nat) (m : M t A) : Prop :=
  forall s, selection_step vals s (snd (m s)).

End PendulumSystem.

(** ** The specification's formulas, written from its text *)

Module Spec.

(** Angular accelerations of the double pendulum (section 4.1). *)
Definition accel1 (g m1 m2 l1 l2 a1 a2 v1 v2 : R) : R :=
  (- g * (2 * m1 + m2) * sin a1 - m2 * g * sin (a1 - 2 * a2)
   - 2 * sin (a1 - a2) * m2 * (v2 ^ 2 * l2 + v1 ^ 2 * l1 * cos (a1 - a2)))
  / (l1 * (2 * m1 + m2 - m2 * cos (2 * a1 - 2 * a2))).

Definition accel2 (g m1 m2 l1 l2 a1 a2 v1 v2 : R) : R :=
  2 * sin (a1 - a2)
  * (v1 ^ 2 * l1 * (m1 + m2) + g * (m1 + m2) * cos a1
     + v2 ^ 2 * l2 * m2 * cos (a1 - a2))
  / (l2 * (2 * m1 + m2 - m2 * cos (2 * a1 - 2 * a2))).

(** The remainder of [x] modulo [y], with the sign of [y]. *)
Definition Rmod (x y : R) : R := x - y * IZR (Int_part (x / y)).

(** Modulo normalisation of an angle. *)
Definition normalize (a : R) : R := Rmod (a + PI) (2 * PI) - PI.

Record angular : Type := mk_angular { a1 : R; a2 : R; v1 : R; v2 : R }.

(** The five steps of the integration scheme. *)
Definition step (dt g m1 m2 l1 l2 : R) (old : angular) : angular :=
  (* 1. *)
  let acc1_old := accel1 g m1 m2 l1 l2 (a1 old) (a2 old) (v1 old) (v2 old) in
  let acc2_old := accel2 g m1 m2 l1 l2 (a1 old) (a2 old) (v1 old) (v2 old) in
  (* 2. *)
  let v1_half := v1 old + 0.5 * acc1_old * dt in
  let v2_half := v2 old + 0.5 * acc2_old * dt in
  (* 3. *)
  let a1_new := normalize (a1 old + v1_half * dt) in
  let a2_new := normalize (a2 old + v2_half * dt) in
  (* 4. *)
  let acc1_new := accel1 g m1 m2 l1 l2 a1_new a2_new v1_half v2_half in
  let acc2_new := accel2 g m1 m2 l1 l2 a1_new a2_new v1_half v2_half in
  (* 5. *)
  mk_angular a1_new a2_new
             (v1_half + 0.5 * acc1_new * dt) (v2_half + 0.5 * acc2_new * dt).

Definition angular_of (p : Pendulum.t) : angular :=
  mk_angular (Pendulum.angle1 p) (Pendulum.angle2 p)
             (Pendulum.velocity1 p) (Pendulum.velocity2 p).

(** The pendulum after one step: the angular state replaced by [step], the
    Cartesian offsets recomputed, every other attribute as it was. *)
Definition stepped (dt g : R) (p : Pendulum.t) : Pendulum.t :=
  let s := step dt g (Pendulum.mass1 p) (Pendulum.mass2 p)
                (Pendulum.length1 p) (Pendulum.length2 p) (angular_of p) in
  let x1 := Pendulum.length1 p * sin (a1 s) in
  let y1 := Pendulum.length1 p * cos (a1 s) in
  Pendulum.mk (Pendulum.id p) (Pendulum.path_tracer p)
    (Pendulum.initial_state p) (Pendulum.offset_x p) (Pendulum.offset_y p)
    (Pendulum.length1 p) (Pendulum.length2 p)
    (Pendulum.mass1 p) (Pendulum.mass2 p)
    (a1 s) (a2 s) (v1 s) (v2 s)
    (Pendulum.acceleration1 p) (Pendulum.acceleration2 p)
    x1 y1
    (x1 + Pendulum.length2 p * sin (a2 s))
    (y1 + Pendulum.length2 p * cos (a2 s))
    (Pendulum.show_wire p) (Pendulum.dragging p) (Pendulum.drag_joint p).

(** Energy accounting (section 4.4), with the up-positive heights. *)
Definition kinetic (m1 m2 l1 l2 a1 a2 v1 v2 : R) : R :=
  let vx1 := l1 * v1 * cos a1 in
  let vy1 := l1 * v1 * sin a1 in
  let vx2 := vx1 + l2 * v2 * cos a2 in
  let vy2 := vy1 + l2 * v2 * sin a2 in
  0.5 * m1 * (vx1 ^ 2 + vy1 ^ 2) + 0.5 * m2 * (vx2 ^ 2 + vy2 ^ 2).

Definition potential (g m1 m2 l1 l2 a1 a2 : R) : R :=
  let y1 := - l1 * cos a1 in
  let y2 := y1 - l2 * cos a2 in
  m1 * g * (y1 + l1) + m2 * g * (y2 + l1 + l2).

(** The anchor of a pendulum on the screen (the screen centre moved by the
    pendulum's anchor offset), the screen positions of the bobs (anchor +
    Cartesian offset) and the distance of the pointer to them
    (section 4.2). *)
Definition anchor (screen_center : R * R) (p : Pendulum.t) : R * R :=
  (fst screen_center + Pendulum.offset_x p,
   snd screen_center + Pendulum.offset_y p).

Definition bob1_screen (screen_center : R * R) (p : Pendulum.t) : R * R :=
  (fst (anchor screen_center p) + Pendulum.x1 p,
   snd (anchor screen_center p) + Pendulum.y1 p).

Definition bob2_screen (screen_center : R * R) (p : Pendulum.t) : R * R :=
  (fst (anchor screen_center p) + Pendulum.x2 p,
   snd (anchor screen_center p) + Pendulum.y2 p).

Definition distance (a b : R * R) : R :=
  sqrt ((fst a - fst b) ^ 2 + (snd a - snd b) ^ 2).

(** The attributes a reset is meant to restore: angles, angular
    velocities, rod lengths, masses and Cartesian offsets. *)
Definition physical_state (p : Pendulum.t) : list R :=
  [Pendulum.angle1 p; Pendulum.angle2 p;
   Pendulum.velocity1 p; Pendulum.velocity2 p;
   Pendulum.length1 p; Pendulum.length2 p;
   Pendulum.mass1 p; Pendulum.mass2 p;
   Pendulum.x1 p; Pendulum.y1 p; Pendulum.x2 p; Pendulum.y2 p].

(** The same attributes as a parameter bundle determines them, the
    offsets being those of section 4.1's [cartesian_positions]. *)
Definition physical_state_of (q : PendulumParams.t) : list R :=
  let l1 := PendulumParams.length1 q in
  let l2 := PendulumParams.length2 q in
  let a1 := PendulumParams.angle1 q in
  let a2 := PendulumParams.angle2 q in
  [a1; a2; PendulumParams.velocity1 q; PendulumParams.velocity2 q;
   l1; l2; PendulumParams.mass1 q; PendulumParams.mass2 q;
   l1 * sin a1; l1 * cos a1;
   l1 * sin a1 + l2 * sin a2; l1 * cos a1 + l2 * cos a2].

(** The largest integer not above [x]. *)
Definition floor (x : R) : Z := Int_part x.

(** The attribute a rod or bob index selects. *)
Definition selected_length (rod : Z) (p : Pendulum.t) : R :=
  if (rod =? 1)%Z then Pendulum.length1 p else Pendulum.length2 p.

Definition selected_mass (bob : Z) (p : Pendulum.t) : R :=
  if (bob =? 1)%Z then Pendulum.mass1 p else Pendulum.mass2 p.

End Spec.

(** ** Concrete states used to exercise the theorems *)

Module Scenario.

(** The parameters of the specification's worked scenario. *)
Definition params : PendulumParams.t :=
  PendulumParams.mk 0 0 120 120 10 10 0.8 0.5 0 0 (0, 128, 255)%Z 2 true.

Definition tracer : PathTracer.t :=
  PathTracer.mk (deque.mk [] 120) 120 (0, 128, 255)%Z true.

(** The body these parameters initialise. *)
Definition body : Pendulum.t :=
  Pendulum.mk 0 tracer (Some params) 0 0 120 120 10 10 0.8 0.5 0 0 0 0
    (120 * sin 0.8) (120 * cos 0.8)
    (120 * sin 0.8 + 120 * sin 0.5) (120 * cos 0.8 + 120 * cos 0.5)
    true false 0.

(** The same body after [set_angle(1, math.pi)]. *)
Definition upright : Pendulum.t := snd (Pendulum.set_angle 1 PI body).

(** The same body while its second bob is being dragged. *)
Definition dragged : Pendulum.t :=
  Pendulum.with_drag_joint 2 (Pendulum.with_dragging true body).

(** A pendulum as its constructor leaves it, before [initialize]: both bobs
    sit on the anchor. *)
Definition fresh : Pendulum.t :=
  Pendulum.mk 0 (PathTracer.mk (deque.mk [] 500) 500 (0, 128, 255)%Z true)
    None 0 0 120 120 10 10 (PI / 4) (PI / 4) 0 0 0 0 0 0 0 0 true false 0.

(** A trail of ten samples. *)
Definition ten_samples : list (R * R) :=
  [(0, 0); (1, 1); (2, 4); (3, 9); (4, 16);
   (5, 25); (6, 36); (7, 49); (8, 64); (9, 81)].

Definition trail : PathTracer.t :=
  PathTracer.mk (deque.mk ten_samples 120) 120 (0, 128, 255)%Z true.

End Scenario.

(** ** Invariants and predicates of the wider development *)

Module Invariants.

(** A computation keeps the property [P] of the state, whether it returns
    or raises. *)
Definition keeps {S A} (P : S -> Prop) (m : M S A) : Prop :=
  forall s, P s -> P (snd (m s)).

(** A computation leaves the state in [P] whenever it returns. *)
Definition establishes {S A} (P : S -> Prop) (m : M S A) : Prop :=
  forall s a, fst (m s) = Return a -> P (snd (m s)).

(** The trail holds at most [maxlen] samples. *)
Definition deque_bounded {A} (d : deque.t A) : Prop :=
  (Z.of_nat (length (deque.items d)) <= deque.maxlen d)%Z.

Definition trail_bounded (p : Pendulum.t) : Prop :=
  deque_bounded (PathTracer.points (Pendulum.path_tracer p)).

(** The Cartesian offsets are those of the current angles and lengths. *)
Definition cartesian_consistent (p : Pendulum.t) : Prop :=
  Pendulum.x1 p = Pendulum.length1 p * sin (Pendulum.angle1 p)
  /\ Pendulum.y1 p = Pendulum.length1 p * cos (Pendulum.angle1 p)
  /\ Pendulum.x2 p
     = Pendulum.x1 p + Pendulum.length2 p * sin (Pendulum.angle2 p)
  /\ Pendulum.y2 p
     = Pendulum.y1 p + Pendulum.length2 p * cos (Pendulum.angle2 p).

(** The attributes [cartesian_consistent] relates. *)
Definition geometry (p : Pendulum.t) : list R :=
  [Pendulum.x1 p; Pendulum.y1 p; Pendulum.x2 p; Pendulum.y2 p;
   Pendulum.length1 p; Pendulum.length2 p;
   Pendulum.angle1 p; Pendulum.angle2 p].

End Invariants.

Module Trail.

(** The last [c] elements of a list. *)
Definition lastn {A} (c : nat) (l : list A) : list A :=
  skipn (length l - c) l.

(** A run of [add_point] calls, one per sample, as successive frames make
    them. *)
Definition add_points (pts : list (R * R)) : M PathTracer.t unit :=
  for_each pts (fun pt => PathTracer.add_point (fst pt) (snd pt)).

End Trail.

Module Drag.

(** The pointer relative to the anchor of the pendulum ([rel_x], [rel_y]
    of [update_drag]). *)
Definition rel_x (position screen_center : R * R) (p : Pendulum.t) : R :=
  fst position - (fst screen_center + Pendulum.offset_x p).

Definition rel_y (position screen_center : R * R) (p : Pendulum.t) : R :=
  snd position - (snd screen_center + Pendulum.offset_y p).

(** Its distance from the anchor. *)
Definition radius1 (position screen_center : R * R) (p : Pendulum.t) : R :=
  sqrt (rel_x position screen_center p * rel_x position screen_center p
        + rel_y position screen_center p * rel_y position screen_center p).

(** The first bob as the current angle and length place it. *)
Definition first_bob_x (p : Pendulum.t) : R :=
  Pendulum.length1 p * sin (Pendulum.angle1 p).

Definition first_bob_y (p : Pendulum.t) : R :=
  Pendulum.length1 p * cos (Pendulum.angle1 p).

(** The pointer relative to the first bob. *)
Definition rel_to_first_x (position screen_center : R * R) (p : Pendulum.t)
  : R := rel_x position screen_center p - first_bob_x p.

Definition rel_to_first_y (position screen_center : R * R) (p : Pendulum.t)
  : R := rel_y position screen_center p - first_bob_y p.

Definition radius2 (position screen_center : R * R) (p : Pendulum.t) : R :=
  sqrt (rel_to_first_x position screen_center p
        * rel_to_first_x position screen_center p
        + rel_to_first_y position screen_center p
          * rel_to_first_y position screen_center p).

End Drag.

Module DragScenario.

(** The scenario body while its first, respectively second, bob is held. *)
Definition held1 : Pendulum.t :=
  Pendulum.with_drag_joint 1 (Pendulum.with_dragging true Scenario.body).



End DragScenario.

Module Energy.



End Energy.

Module MoreScenarios.

(** The scenario body hanging straight down at rest. *)
Definition hanging : Pendulum.t :=
  Pendulum.mk 0 Scenario.tracer (Some Scenario.params) 0 0 120 120 10 10
    0 0 0 0 0 0 0 120 0 240 true false 0.

(** Parameters with a negative trail duration. *)
Definition negative_duration : PendulumParams.t :=
  PendulumParams.mk 0 0 120 120 10 10 0.8 0.5 0 0 (0, 128, 255)%Z (-1) true.

End MoreScenarios.

Module SystemInvariants.

Import PendulumSystem.

(** Every id in use is below the next id to be given out. *)
Definition ids_below_next (s : t) : Prop :=
  forall k r, dict.get k (pendulums s) = Some r ->
              (k < next_pendulum_id s)%Z.

(** No two ids share a pendulum. *)
Definition refs_distinct (s : t) : Prop :=
  List.NoDup (dict.values (pendulums s)).

Definition sound (s : t) : Prop :=
  wf s /\ ids_below_next s /\ refs_distinct s.

(** The hit test of [try_select_pendulum_at_position] and [start_drag]:
    the pointer is within max(10, mass2) of the second bob or within
    max(10, mass1) of the first. *)
Definition hit (position screen_center : R * R) (p : Pendulum.t) : bool :=
  py_le (Spec.distance position (Spec.bob2_screen screen_center p))
        (py_max 10 (Pendulum.mass2 p))
  || py_le (Spec.distance position (Spec.bob1_screen screen_center p))
           (py_max 10 (Pendulum.mass1 p)).

(** The first reference, in the order given, whose pendulum is hit. *)
Definition first_hit (position screen_center : R * R)
           (objs : list Pendulum.t) (vals : list nat) : option nat :=
  find (fun r => match objs !! r with
                 | Some p => hit position screen_center p
                 | None => false
                 end) vals.

(** What [Pendulum.update] makes of a pendulum it can step. *)
Definition advanced (dt gravity : R) (p : Pendulum.t) : Pendulum.t :=
  if Pendulum.dragging p then p else Spec.stepped dt gravity p.

(** A pendulum [Pendulum.update] can step: dragged, or with positive
    lengths and masses. *)
Definition steppable (p : Pendulum.t) : Prop :=
  Pendulum.dragging p = true
  \/ (0 < Pendulum.length1 p /\ 0 < Pendulum.length2 p
      /\ 0 < Pendulum.mass1 p /\ 0 < Pendulum.mass2 p).

End SystemInvariants.

Module SystemScenario.

(** The system after one [create_pendulum] with the scenario parameters. *)
Definition one : PendulumSystem.t :=
  PendulumSystem.mk [Scenario.body] [(0%Z, 0%nat)] (Some 0%nat) 1.

(** The screen position of the second bob of its pendulum, for a screen
    centred on (0, 0). *)
Definition on_second_bob : R * R :=
  (120 * sin 0.8 + 120 * sin 0.5, 120 * cos 0.8 + 120 * cos 0.5).

End SystemScenario.

Module Order.

(** A strictly increasing list of ids. *)
Fixpoint increasing (l : list Z) : Prop :=
  match l with
  | [] => True
  | x :: rest => Forall (Z.lt x) rest /\ increasing rest
  end.

(** The ids of the dict, in its order. *)
Definition keys (s : PendulumSystem.t) : list Z :=
  map fst (PendulumSystem.pendulums s).

Definition ordered (s : PendulumSystem.t) : Prop :=
  increasing (keys s)
  /\ Forall (fun k => (0 <= k < PendulumSystem.next_pendulum_id s)%Z) (keys s)
  /\ (0 <= PendulumSystem.next_pendulum_id s)%Z.

End Order.

(** ** class PhysicsEngine *)

Module PhysicsEngine.

Record t : Type := mk { gravity : R; time_step : R }.

Definition __init__ : t := mk 9.81 0.01.

Definition initialize (default_gravity : R) : M t unit :=
  modify (fun s => mk default_gravity (time_step s)).

(** [update(dt)] is [pass]. *)
Definition update (dt : R) : M t unit := ret tt.

Definition set_gravity (gravity : R) : M t unit :=
  modify (fun s => mk gravity (time_step s)).

Definition set_time_step (step : R) : M t unit :=
  modify (fun s => mk (PhysicsEngine.gravity s) step).

Definition get_gravity : M t R := gets gravity.

Definition get_time_step : M t R := gets time_step.

End PhysicsEngine.

(** ** class SimulationScene (app/scenes/simulation_scene.py): the methods
    that drive the physics

    Only the attributes these methods read or write through the physics
    API are modelled: the pendulum system, the physics engine, the run
    flag, the speed, the drag flag and the size of the surface.  The calls
    on pygame_gui widgets (slider values, button texts) touch none of
    these attributes and are left out. *)

Module SimulationScene.

Record t : Type := mk {
  pendulum_system : PendulumSystem.t;
  physics_engine : PhysicsEngine.t;
  is_running : bool;
  simulation_speed : R;
  dragging : bool;
  surface_width : Z;   (* self.surface.get_width() *)
  surface_height : Z   (* self.surface.get_height() *)
}.

Definition with_pendulum_system (v : PendulumSystem.t) (s : t) : t :=
  mk v (physics_engine s) (is_running s) (simulation_speed s) (dragging s)
     (surface_width s) (surface_height s).
Definition with_physics_engine (v : PhysicsEngine.t) (s : t) : t :=
  mk (pendulum_system s) v (is_running s) (simulation_speed s) (dragging s)
     (surface_width s) (surface_height s).
Definition with_is_running (v : bool) (s : t) : t :=
  mk (pendulum_system s) (physics_engine s) v (simulation_speed s)
     (dragging s) (surface_width s) (surface_height s).
Definition with_dragging (v : bool) (s : t) : t :=
  mk (pendulum_system s) (physics_engine s) (is_running s)
     (simulation_speed s) v (surface_width s) (surface_height s).

(** A call on [self.pendulum_system], on [self.physics_engine]. *)
Definition on_system {A} (m : M PendulumSystem.t A) : M t A :=
  zoom pendulum_system with_pendulum_system m.
Definition on_engine {A} (m : M PhysicsEngine.t A) : M t A :=
  zoom physics_engine with_physics_engine m.

(** [(self.surface.get_width() // 2, self.surface.get_height() // 2)] *)
Definition screen_center (s : t) : R * R :=
  (IZR (surface_width s / 2), IZR (surface_height s / 2)).

Definition update (dt : R) : M t unit :=
  running <- gets is_running ;;
  (* Skip physics update if paused *)
  if running then
    (* Scale dt by simulation speed *)
    speed <- gets simulation_speed ;;
    let scaled_dt := dt * speed in
    (* Update physics engine *)
    on_engine (PhysicsEngine.update scaled_dt) ;;
    (* Update pendulum system *)
    g <- on_engine PhysicsEngine.get_gravity ;;
    on_system (PendulumSystem.update scaled_dt g)
  else ret tt.

Definition toggle_simulation : M t unit :=
  running <- gets is_running ;;
  modify (with_is_running (negb running)).

Definition reset_simulation : M t unit :=
  selected_pendulum <- on_system PendulumSystem.get_selected_pendulum ;;
  match selected_pendulum with
  | Some r => on_system (PendulumSystem.on_object r Pendulum.reset)
  | None => ret tt
  end.

Definition remove_selected_pendulum : M t unit :=
  selected_pendulum <- on_system PendulumSystem.get_selected_pendulum ;;
  match selected_pendulum with
  | Some r =>
      count <- on_system PendulumSystem.get_pendulum_count ;;
      if (1 <? count)%Z then
        sel_id <- on_system (PendulumSystem.on_object r (gets Pendulum.id)) ;;
        discard (on_system (PendulumSystem.remove_pendulum sel_id)) ;;
        (* Select the first available pendulum:
           [if count > 0: first_id = next(iter(keys)); select(first_id)] *)
        d <- on_system (gets PendulumSystem.pendulums) ;;
        match d with
        | (first_id, _) :: _ =>
            discard (on_system (PendulumSystem.select_pendulum first_id))
        | [] => ret tt
        end
      else ret tt
  | None => ret tt
  end.

Definition _handle_simulation_click (pos : R * R) : M t unit :=
  (* Try to select a pendulum at the clicked position *)
  center <- gets screen_center ;;
  pendulum <- on_system
                (PendulumSystem.try_select_pendulum_at_position pos center) ;;
  match pendulum with
  | Some r =>
      (* Start dragging if a pendulum was selected *)
      center <- gets screen_center ;;
      started <- on_system
                   (PendulumSystem.on_object r
                      (Pendulum.start_drag pos center)) ;;
      modify (with_dragging started)
  | None => ret tt
  end.

Definition _handle_simulation_drag (pos : R * R) : M t unit :=
  selected_pendulum <- on_system PendulumSystem.get_selected_pendulum ;;
  match selected_pendulum with
  | Some r =>
      d <- gets dragging ;;
      if d then
        center <- gets screen_center ;;
        on_system (PendulumSystem.on_object r (Pendulum.update_drag pos center))
      else ret tt
  | None => ret tt
  end.

Definition _handle_simulation_release : M t unit :=
  selected_pendulum <- on_system PendulumSystem.get_selected_pendulum ;;
  match selected_pendulum with
  | Some r => on_system (PendulumSystem.on_object r Pendulum.end_drag)
  | None => ret tt
  end ;;
  (* End dragging state *)
  modify (with_dragging false).

End SimulationScene.

Module SceneScenario.

(** A scene on a 1000 x 700 surface, running at speed 1, over a given
    pendulum system. *)
Definition over (s : PendulumSystem.t) : SimulationScene.t :=
  SimulationScene.mk s PhysicsEngine.__init__ true 1 false 1000 700.

(** The system after two [create_pendulum] calls. *)
Definition two_created : list PendulumSystem.op :=
  [PendulumSystem.CreatePendulum Scenario.params;
   PendulumSystem.CreatePendulum Scenario.params].

End SceneScenario.

(** * Verification *)

(** ** Arithmetic primitives *)

Lemma py_div_ok (x y : R) : y <> 0 -> py_div x y = Return (x / y).
Proof.
  intros Hy. unfold py_div. destruct (Req_dec_T y 0); [contradiction | reflexivity].
Qed.

Lemma py_mod_ok (x y : R) : y <> 0 -> py_mod x y = Return (Spec.Rmod x y).
Proof.
  intros Hy. unfold py_mod. destruct (Req_dec_T y 0); [contradiction | reflexivity].
Qed.

Lemma py_sqrt_ok (x : R) : 0 <= x -> py_sqrt x = Return (sqrt x).
Proof.
  intros Hx. unfold py_sqrt. destruct (Rlt_dec x 0); [lra | reflexivity].
Qed.

Lemma py_max_Rmax (a b : R) : py_max a b = Rmax a b.
Proof.
  unfold py_max, Rmax.
  destruct (Rlt_dec a b), (Rle_dec a b); try reflexivity; lra.
Qed.

Lemma py_le_true (a b : R) : py_le a b = true <-> a <= b.
Proof.
  unfold py_le. destruct (Rle_dec a b); split; intros; try easy.
Qed.

Lemma py_le_false (a b : R) : py_le a b = false <-> b < a.
Proof.
  unfold py_le. destruct (Rle_dec a b); split; intros; try easy; lra.
Qed.

Lemma two_PI_neq_0 : 2 * PI <> 0.
Proof. pose proof PI_RGT_0. lra. Qed.

(** The remainder by a positive divisor lies in [[0, y)]. *)
Lemma Rmod_range (x y : R) : 0 < y -> 0 <= Spec.Rmod x y < y.
Proof.
  intros Hy. unfold Spec.Rmod.
  destruct (base_Int_part (x / y)) as [Hlo Hhi].
  assert (Hx : x = y * (x / y)) by (field; lra).
  set (q := x / y) in *. set (n := IZR (Int_part q)) in *.
  split; nra.
Qed.

Lemma Rmod_self (y : R) : 0 < y -> Spec.Rmod y y = 0.
Proof.
  intros Hy. unfold Spec.Rmod.
  replace (y / y) with 1 by (field; lra).
  replace (Int_part 1) with 1%Z; [lra |].
  apply Int_part_spec. lra.
Qed.

Lemma normalize_range (a : R) : - PI <= Spec.normalize a < PI.
Proof.
  unfold Spec.normalize.
  pose proof PI_RGT_0.
  pose proof (Rmod_range (a + PI) (2 * PI) ltac:(lra)). lra.
Qed.

Lemma normalize_PI : Spec.normalize PI = - PI.
Proof.
  unfold Spec.normalize. pose proof PI_RGT_0.
  replace (PI + PI) with (2 * PI) by lra.
  rewrite Rmod_self by lra. lra.
Qed.

(** The bracket of the two denominators is positive for positive masses. *)
Lemma denominator_bracket_pos (m1 m2 x : R) :
  0 < m1 -> 0 < m2 -> 0 < 2 * m1 + m2 - m2 * cos x.
Proof.
  intros H1 H2. pose proof (COS_bound x) as [_ Hc]. nra.
Qed.

Lemma denominator_neq_0 (l m1 m2 x : R) :
  0 < l -> 0 < m1 -> 0 < m2 -> l * (2 * m1 + m2 - m2 * cos x) <> 0.
Proof.
  intros Hl H1 H2. pose proof (denominator_bracket_pos m1 m2 x H1 H2). nra.
Qed.

(** ** Running monadic code *)

Lemma bind_Return {S A B} (m : M S A) (k : A -> M S B) (s s' : S) (a : A) :
  m s = (Return a, s') -> bind m k s = k a s'.
Proof. intros H. unfold bind. rewrite H. reflexivity. Qed.

Lemma bind_Raise {S A B} (m : M S A) (k : A -> M S B) (s s' : S) (e : exn) :
  m s = (Raise e, s') -> bind m k s = (Raise e, s').
Proof. intros H. unfold bind. rewrite H. reflexivity. Qed.

(** Reading and writing attributes of a pendulum. *)
Ltac attrs :=
  cbn [Pendulum.id Pendulum.path_tracer Pendulum.initial_state
       Pendulum.offset_x Pendulum.offset_y Pendulum.length1 Pendulum.length2
       Pendulum.mass1 Pendulum.mass2 Pendulum.angle1 Pendulum.angle2
       Pendulum.velocity1 Pendulum.velocity2 Pendulum.acceleration1
       Pendulum.acceleration2 Pendulum.x1 Pendulum.y1 Pendulum.x2 Pendulum.y2
       Pendulum.show_wire Pendulum.dragging Pendulum.drag_joint
       Pendulum.with_path_tracer Pendulum.with_initial_state
       Pendulum.with_offset_x Pendulum.with_offset_y
       Pendulum.with_length1 Pendulum.with_length2
       Pendulum.with_mass1 Pendulum.with_mass2
       Pendulum.with_angle1 Pendulum.with_angle2
       Pendulum.with_velocity1 Pendulum.with_velocity2
       Pendulum.with_x1 Pendulum.with_y1 Pendulum.with_x2 Pendulum.with_y2
       Pendulum.with_show_wire Pendulum.with_dragging Pendulum.with_drag_joint
       PathTracer.points PathTracer.max_points PathTracer.color
       PathTracer.visible PathTracer.set_points PathTracer.set_max_points
       PathTracer.set_color_field
       Spec.a1 Spec.a2 Spec.v1 Spec.v2 Spec.angular_of fst snd] in *.

(** Unfolding the monad's plumbing. *)
Ltac plumbing := cbv [bind ret gets modify lift raise zoom discard] in *.

(** ** Pendulum: accelerations and the integration step *)

Lemma _calculate_acceleration1_Return (g : R) (p : Pendulum.t) :
  Pendulum.length1 p
  * (2 * Pendulum.mass1 p + Pendulum.mass2 p
     - Pendulum.mass2 p * cos (2 * Pendulum.angle1 p - 2 * Pendulum.angle2 p))
  <> 0 ->
  Pendulum._calculate_acceleration1 g p
  = (Return (Spec.accel1 g (Pendulum.mass1 p) (Pendulum.mass2 p)
                         (Pendulum.length1 p) (Pendulum.length2 p)
                         (Pendulum.angle1 p) (Pendulum.angle2 p)
                         (Pendulum.velocity1 p) (Pendulum.velocity2 p)), p).
Proof.
  intros Hden. unfold Pendulum._calculate_acceleration1. plumbing.
  rewrite py_div_ok by exact Hden.
  unfold Spec.accel1. do 2 f_equal. f_equal. ring.
Qed.

Lemma _calculate_acceleration2_Return (g : R) (p : Pendulum.t) :
  Pendulum.length2 p
  * (2 * Pendulum.mass1 p + Pendulum.mass2 p
     - Pendulum.mass2 p * cos (2 * Pendulum.angle1 p - 2 * Pendulum.angle2 p))
  <> 0 ->
  Pendulum._calculate_acceleration2 g p
  = (Return (Spec.accel2 g (Pendulum.mass1 p) (Pendulum.mass2 p)
                         (Pendulum.length1 p) (Pendulum.length2 p)
                         (Pendulum.angle1 p) (Pendulum.angle2 p)
                         (Pendulum.velocity1 p) (Pendulum.velocity2 p)), p).
Proof.
  intros Hden. unfold Pendulum._calculate_acceleration2. plumbing.
  rewrite py_div_ok by exact Hden.
  unfold Spec.accel2. reflexivity.
Qed.

Lemma _calculate_acceleration1_Raise (g : R) (p : Pendulum.t) :
  Pendulum.length1 p = 0 ->
  Pendulum._calculate_acceleration1 g p = (Raise ZeroDivisionError, p).
Proof.
  intros Hl. unfold Pendulum._calculate_acceleration1. plumbing.
  unfold py_div. rewrite Hl.
  destruct (Req_dec_T _ 0) as [_ | Hne]; [reflexivity | exfalso; apply Hne; ring].
Qed.

Lemma _calculate_cartesian_positions_eq (p : Pendulum.t) :
  Pendulum._calculate_cartesian_positions p
  = (Return tt,
     Pendulum.with_y2 (Pendulum.length1 p * cos (Pendulum.angle1 p)
                       + Pendulum.length2 p * cos (Pendulum.angle2 p))
       (Pendulum.with_x2 (Pendulum.length1 p * sin (Pendulum.angle1 p)
                          + Pendulum.length2 p * sin (Pendulum.angle2 p))
          (Pendulum.with_y1 (Pendulum.length1 p * cos (Pendulum.angle1 p))
             (Pendulum.with_x1 (Pendulum.length1 p * sin (Pendulum.angle1 p))
                p)))).
Proof. reflexivity. Qed.

Lemma update_not_dragging (dt g : R) (p : Pendulum.t) :
  Pendulum.dragging p = false ->
  0 < Pendulum.length1 p -> 0 < Pendulum.length2 p ->
  0 < Pendulum.mass1 p -> 0 < Pendulum.mass2 p ->
  Pendulum.update dt g p = (Return tt, Spec.stepped dt g p).
Proof.
  intros Hd Hl1 Hl2 Hm1 Hm2.
  unfold Pendulum.update, Pendulum._velocity_verlet_step. plumbing.
  rewrite Hd.
  rewrite _calculate_acceleration1_Return
    by (apply denominator_neq_0; assumption).
  rewrite _calculate_acceleration2_Return
    by (apply denominator_neq_0; assumption).
  attrs.
  rewrite !py_mod_ok by apply two_PI_neq_0.
  rewrite _calculate_acceleration1_Return
    by (attrs; apply denominator_neq_0; assumption).
  rewrite _calculate_acceleration2_Return
    by (attrs; apply denominator_neq_0; assumption).
  attrs.
  rewrite _calculate_cartesian_positions_eq. attrs.
  reflexivity.
Qed.

(** ** Pendulum.update *)

(** C1. A pendulum that is not being dragged (with positive lengths and
    masses, the invariant of the data model) is advanced by [update] exactly
    as the scheme prescribes: old accelerations from the closed-form
    formulas, half-step velocities, full-step angles with modulo
    normalisation, new accelerations from the new angles and the
    half-stepped velocities, completed velocities, and Cartesian offsets
    recomputed from the new angles and the lengths; nothing else changes
    and no exception is raised. *)
Theorem update_follows_the_scheme (dt gravity : R) (p : Pendulum.t) :
  Pendulum.dragging p = false ->
  0 < Pendulum.length1 p -> 0 < Pendulum.length2 p ->
  0 < Pendulum.mass1 p -> 0 < Pendulum.mass2 p ->
  Pendulum.update dt gravity p = (Return tt, Spec.stepped dt gravity p).
Proof. apply update_not_dragging. Qed.

Lemma update_follows_the_scheme_witness :
  Pendulum.update 0.01 9.81 Scenario.body
  = (Return tt, Spec.stepped 0.01 9.81 Scenario.body).
Proof.
  apply update_follows_the_scheme; cbn; first [reflexivity | lra].
Defined.

(** C2, as amended. For a pendulum with positive lengths and masses, and
    every time step and gravity, a non-dragged [update] returns and leaves
    both angles in the closed interval from -pi to pi (-pi included). *)
Theorem update_angles_in_closed_range (dt gravity : R) (p : Pendulum.t) :
  Pendulum.dragging p = false ->
  0 < Pendulum.length1 p -> 0 < Pendulum.length2 p ->
  0 < Pendulum.mass1 p -> 0 < Pendulum.mass2 p ->
  exists p', Pendulum.update dt gravity p = (Return tt, p')
             /\ - PI <= Pendulum.angle1 p' <= PI
             /\ - PI <= Pendulum.angle2 p' <= PI.
Proof.
  intros Hd Hl1 Hl2 Hm1 Hm2.
  exists (Spec.stepped dt gravity p). split.
  - apply update_not_dragging; assumption.
  - unfold Spec.stepped, Spec.step. attrs.
    split; match goal with
           | |- _ <= Spec.normalize ?a <= _ =>
               pose proof (normalize_range a); lra
           end.
Qed.

Lemma update_angles_in_closed_range_witness :
  exists p', Pendulum.update 0.01 9.81 Scenario.body = (Return tt, p')
             /\ - PI <= Pendulum.angle1 p' <= PI
             /\ - PI <= Pendulum.angle2 p' <= PI.
Proof.
  apply update_angles_in_closed_range; cbn; first [reflexivity | lra].
Defined.

(** C2, as stated, fails: from the angle pi and a zero time step, [update]
    leaves the first angle at -pi, outside the half-open interval. *)
Lemma update_angle_reaches_minus_PI :
  fst (Pendulum.update 0 9.81 Scenario.upright) = Return tt
  /\ Pendulum.angle1 (snd (Pendulum.update 0 9.81 Scenario.upright)) = - PI
  /\ ~ (- PI < Pendulum.angle1 (snd (Pendulum.update 0 9.81 Scenario.upright))
        <= PI).
Proof.
  assert (E : Pendulum.update 0 9.81 Scenario.upright
              = (Return tt, Spec.stepped 0 9.81 Scenario.upright)).
  { apply update_not_dragging; cbn; first [reflexivity | lra]. }
  rewrite E. cbn [fst snd].
  assert (A : Pendulum.angle1 (Spec.stepped 0 9.81 Scenario.upright) = - PI).
  { unfold Spec.stepped, Spec.step. attrs.
    change (Pendulum.angle1 Scenario.upright) with PI.
    rewrite Rmult_0_r, Rplus_0_r. apply normalize_PI. }
  rewrite A. repeat split. lra.
Qed.

(** C4. While the pendulum is being dragged, [update] changes nothing,
    whatever the time step and the gravity: the whole object, path trace
    included, is as before. *)
Theorem update_while_dragging_is_noop (dt gravity : R) (p : Pendulum.t) :
  Pendulum.dragging p = true ->
  Pendulum.update dt gravity p = (Return tt, p).
Proof.
  intros Hd. unfold Pendulum.update. plumbing. rewrite Hd. reflexivity.
Qed.

Lemma update_while_dragging_is_noop_witness :
  Pendulum.update 0.01 9.81 Scenario.dragged = (Return tt, Scenario.dragged).
Proof. apply update_while_dragging_is_noop. reflexivity. Defined.

(** ** Pendulum setters *)

(** C10. An index other than 1 (0, 3, a negative number, ...) is taken to
    mean the second element by the four setters: the call returns normally
    and overwrites length2, mass2, angle2 or velocity2, leaving the first
    element alone. *)
Theorem setters_take_other_index_as_second (j : Z) (v : R) (p : Pendulum.t) :
  j <> 1%Z ->
  (fst (Pendulum.set_length j v p) = Return tt
   /\ Pendulum.length2 (snd (Pendulum.set_length j v p)) = v
   /\ Pendulum.length1 (snd (Pendulum.set_length j v p)) = Pendulum.length1 p)
  /\ (fst (Pendulum.set_mass j v p) = Return tt
      /\ Pendulum.mass2 (snd (Pendulum.set_mass j v p)) = v
      /\ Pendulum.mass1 (snd (Pendulum.set_mass j v p)) = Pendulum.mass1 p)
  /\ (fst (Pendulum.set_angle j v p) = Return tt
      /\ Pendulum.angle2 (snd (Pendulum.set_angle j v p)) = v
      /\ Pendulum.angle1 (snd (Pendulum.set_angle j v p)) = Pendulum.angle1 p)
  /\ (fst (Pendulum.set_velocity j v p) = Return tt
      /\ Pendulum.velocity2 (snd (Pendulum.set_velocity j v p)) = v
      /\ Pendulum.velocity1 (snd (Pendulum.set_velocity j v p))
         = Pendulum.velocity1 p).
Proof.
  intros Hj. apply Z.eqb_neq in Hj.
  unfold Pendulum.set_length, Pendulum.set_mass, Pendulum.set_angle,
    Pendulum.set_velocity.
  rewrite Hj. repeat split.
Qed.

Lemma setters_take_other_index_as_second_witness :
  let p := Scenario.body in
  (fst (Pendulum.set_length 0 50 p) = Return tt
   /\ Pendulum.length2 (snd (Pendulum.set_length 0 50 p)) = 50
   /\ Pendulum.length1 (snd (Pendulum.set_length 0 50 p)) = Pendulum.length1 p)
  /\ (fst (Pendulum.set_mass 0 50 p) = Return tt
      /\ Pendulum.mass2 (snd (Pendulum.set_mass 0 50 p)) = 50
      /\ Pendulum.mass1 (snd (Pendulum.set_mass 0 50 p)) = Pendulum.mass1 p)
  /\ (fst (Pendulum.set_angle 0 50 p) = Return tt
      /\ Pendulum.angle2 (snd (Pendulum.set_angle 0 50 p)) = 50
      /\ Pendulum.angle1 (snd (Pendulum.set_angle 0 50 p)) = Pendulum.angle1 p)
  /\ (fst (Pendulum.set_velocity 0 50 p) = Return tt
      /\ Pendulum.velocity2 (snd (Pendulum.set_velocity 0 50 p)) = 50
      /\ Pendulum.velocity1 (snd (Pendulum.set_velocity 0 50 p))
         = Pendulum.velocity1 p).
Proof.
  exact (setters_take_other_index_as_second 0 50 Scenario.body
           ltac:(discriminate)).
Defined.

(** C3, as amended. [set_length] and [set_mass] do not validate: a value
    [v <= 0] is stored as it is (not clamped) in the selected length or
    mass, and the call returns normally, with no error signalled. *)
Theorem setters_store_nonpositive_values (i : Z) (v : R) (p : Pendulum.t) :
  v <= 0 ->
  (fst (Pendulum.set_length i v p) = Return tt
   /\ Spec.selected_length i (snd (Pendulum.set_length i v p)) = v)
  /\ (fst (Pendulum.set_mass i v p) = Return tt
      /\ Spec.selected_mass i (snd (Pendulum.set_mass i v p)) = v).
Proof.
  intros _.
  unfold Pendulum.set_length, Pendulum.set_mass, Spec.selected_length,
    Spec.selected_mass.
  destruct (i =? 1)%Z; repeat split.
Qed.

Lemma setters_store_nonpositive_values_witness :
  (fst (Pendulum.set_length 1 (-5) Scenario.body) = Return tt
   /\ Spec.selected_length 1 (snd (Pendulum.set_length 1 (-5) Scenario.body)) = -5)
  /\ (fst (Pendulum.set_mass 1 (-5) Scenario.body) = Return tt
      /\ Spec.selected_mass 1 (snd (Pendulum.set_mass 1 (-5) Scenario.body)) = -5).
Proof.
  exact (setters_store_nonpositive_values 1 (-5) Scenario.body ltac:(lra)).
Defined.

(** C3, as stated, fails: [set_length(1, -5)] and [set_mass(2, 0)] return
    normally and replace the valid length 120 and mass 10. *)
Lemma setters_accept_invalid_values :
  Pendulum.set_length 1 (-5) Scenario.body
  = (Return tt, snd (Pendulum.set_length 1 (-5) Scenario.body))
  /\ Pendulum.length1 Scenario.body = 120
  /\ Pendulum.length1 (snd (Pendulum.set_length 1 (-5) Scenario.body)) = -5
  /\ Pendulum.set_mass 2 0 Scenario.body
     = (Return tt, snd (Pendulum.set_mass 2 0 Scenario.body))
  /\ Pendulum.mass2 Scenario.body = 10
  /\ Pendulum.mass2 (snd (Pendulum.set_mass 2 0 Scenario.body)) = 0.
Proof. repeat split. Qed.

(** The invalid length is then used: the next [update] divides by it. *)
Lemma update_after_zero_length_raises :
  fst (Pendulum.update 0.01 9.81 (snd (Pendulum.set_length 1 0 Scenario.body)))
  = Raise ZeroDivisionError.
Proof.
  unfold Pendulum.update, Pendulum._velocity_verlet_step. plumbing.
  change (Pendulum.dragging (snd (Pendulum.set_length 1 0 Scenario.body)))
    with false. cbv beta iota.
  rewrite _calculate_acceleration1_Raise by reflexivity. reflexivity.
Qed.

(** ** Pendulum.calculate_energy *)

(** C7. [calculate_energy(g)] returns (kinetic, potential, total) as given
    by the specification's formulas, with total = kinetic + potential, and
    leaves the pendulum as it was. *)
Theorem calculate_energy_formulas (gravity : R) (p : Pendulum.t) :
  let ke := Spec.kinetic (Pendulum.mass1 p) (Pendulum.mass2 p)
                         (Pendulum.length1 p) (Pendulum.length2 p)
                         (Pendulum.angle1 p) (Pendulum.angle2 p)
                         (Pendulum.velocity1 p) (Pendulum.velocity2 p) in
  let pe := Spec.potential gravity (Pendulum.mass1 p) (Pendulum.mass2 p)
                           (Pendulum.length1 p) (Pendulum.length2 p)
                           (Pendulum.angle1 p) (Pendulum.angle2 p) in
  Pendulum.calculate_energy gravity p = (Return (ke, pe, ke + pe), p).
Proof. reflexivity. Qed.

(** ** Pendulum.start_drag *)

Lemma py_sqrt_squares (dx dy : R) :
  py_sqrt (dx * dx + dy * dy) = Return (sqrt (dx ^ 2 + dy ^ 2)).
Proof.
  rewrite py_sqrt_ok by nra. do 2 f_equal. ring.
Qed.

(** The three outcomes of [start_drag], by the two hit tests in the order
    the method makes them. *)
Lemma start_drag_cases (position screen_center : R * R) (p : Pendulum.t) :
  Pendulum.start_drag position screen_center p
  = if py_le (Spec.distance position (Spec.bob2_screen screen_center p))
             (py_max 10 (Pendulum.mass2 p))
    then (Return true,
          Pendulum.with_drag_joint 2 (Pendulum.with_dragging true p))
    else if py_le (Spec.distance position (Spec.bob1_screen screen_center p))
                  (py_max 10 (Pendulum.mass1 p))
         then (Return true,
               Pendulum.with_drag_joint 1 (Pendulum.with_dragging true p))
         else (Return false, p).
Proof.
  unfold Pendulum.start_drag. plumbing.
  rewrite !py_sqrt_squares.
  unfold Spec.distance, Spec.bob1_screen, Spec.bob2_screen, Spec.anchor.
  cbn [fst snd].
  destruct (py_le _ _); [reflexivity |].
  destruct (py_le _ _); reflexivity.
Qed.

(** C6. [start_drag] tests the second bob first: a pointer within
    max(10, mass2) of bob 2 starts a drag of joint 2 and reports success,
    whether or not bob 1 is in range too; bob 1, with radius max(10, mass1),
    is tested only when bob 2 is missed; and when both are missed the call
    reports failure and leaves the pendulum exactly as it was. *)
Theorem start_drag_tests_second_bob_first
        (position screen_center : R * R) (p : Pendulum.t) :
  let d1 := Spec.distance position (Spec.bob1_screen screen_center p) in
  let d2 := Spec.distance position (Spec.bob2_screen screen_center p) in
  (d2 <= Rmax 10 (Pendulum.mass2 p) ->
   Pendulum.start_drag position screen_center p
   = (Return true,
      Pendulum.with_drag_joint 2 (Pendulum.with_dragging true p)))
  /\ (Rmax 10 (Pendulum.mass2 p) < d2 -> d1 <= Rmax 10 (Pendulum.mass1 p) ->
      Pendulum.start_drag position screen_center p
      = (Return true,
         Pendulum.with_drag_joint 1 (Pendulum.with_dragging true p)))
  /\ (Rmax 10 (Pendulum.mass2 p) < d2 -> Rmax 10 (Pendulum.mass1 p) < d1 ->
      Pendulum.start_drag position screen_center p = (Return false, p)).
Proof.
  intros d1 d2. rewrite start_drag_cases. fold d1 d2.
  rewrite !py_max_Rmax. repeat split.
  - intros H2. apply py_le_true in H2. rewrite H2. reflexivity.
  - intros H2 H1. apply py_le_false in H2. apply py_le_true in H1.
    rewrite H2, H1. reflexivity.
  - intros H2 H1. apply py_le_false in H2. apply py_le_false in H1.
    rewrite H2, H1. reflexivity.
Qed.

Lemma start_drag_tests_second_bob_first_witness :
  Spec.distance (0, 0) (Spec.bob2_screen (0, 0) Scenario.fresh)
  <= Rmax 10 (Pendulum.mass2 Scenario.fresh)
  /\ Spec.distance (0, 0) (Spec.bob1_screen (0, 0) Scenario.fresh)
     <= Rmax 10 (Pendulum.mass1 Scenario.fresh)
  /\ Pendulum.start_drag (0, 0) (0, 0) Scenario.fresh
     = (Return true,
        Pendulum.with_drag_joint 2
          (Pendulum.with_dragging true Scenario.fresh)).
Proof.
  assert (D : forall b, b = (0 + 0 + 0, 0 + 0 + 0) ->
                        Spec.distance (0, 0) b <= Rmax 10 10).
  { intros b ->. unfold Spec.distance. cbn [fst snd].
    replace ((0 - (0 + 0 + 0)) ^ 2 + (0 - (0 + 0 + 0)) ^ 2) with 0 by ring.
    rewrite sqrt_0. unfold Rmax. destruct (Rle_dec 10 10); lra. }
  split; [apply D; reflexivity |].
  split; [apply D; reflexivity |].
  apply (start_drag_tests_second_bob_first (0, 0) (0, 0) Scenario.fresh).
  apply D. reflexivity.
Defined.

(** ** PathTracer.set_duration *)

Lemma floor_spec (x : R) : IZR (Spec.floor x) <= x < IZR (Spec.floor x) + 1.
Proof. unfold Spec.floor. destruct (base_Int_part x). lra. Qed.

Lemma floor_nonneg (x : R) : 0 <= x -> (0 <= Spec.floor x)%Z.
Proof.
  intros Hx. destruct (floor_spec x) as [_ Hhi].
  assert (H : (-1 < Spec.floor x)%Z) by (apply lt_IZR; lra). lia.
Qed.

Lemma py_int_floor (x : R) : 0 <= x -> py_int x = Spec.floor x.
Proof.
  intros Hx. unfold py_int. destruct (Rle_dec 0 x); [reflexivity | lra].
Qed.

(** Once the index has reached the capacity nothing more is copied. *)
Lemma set_duration_loop_full (pts : list (R * R)) :
  forall (i cap : Z) (d : deque.t (R * R)),
    (cap <= i)%Z -> PathTracer.set_duration_loop i pts cap d = d.
Proof.
  induction pts as [| x rest IH]; intros i cap d Hi; cbn [PathTracer.set_duration_loop].
  - reflexivity.
  - replace (i <? cap)%Z with false by (symmetry; apply Z.ltb_ge; lia).
    apply IH. lia.
Qed.

(** Below the capacity the loop copies sample after sample, evicting none. *)
Lemma set_duration_loop_copies (pts : list (R * R)) :
  forall (acc : list (R * R)) (cap : Z),
    (Z.of_nat (length acc) <= cap)%Z ->
    PathTracer.set_duration_loop (Z.of_nat (length acc)) pts cap
                                 (deque.mk acc cap)
    = deque.mk (acc ++ firstn (Z.to_nat cap - length acc) pts) cap.
Proof.
  induction pts as [| x rest IH]; intros acc cap Hacc;
    cbn [PathTracer.set_duration_loop].
  - rewrite firstn_nil, app_nil_r. reflexivity.
  - destruct (Z.ltb_spec (Z.of_nat (length acc)) cap) as [Hlt | Hge].
    + assert (Happ : deque.append x (deque.mk acc cap)
                     = deque.mk (acc ++ [x]) cap).
      { unfold deque.append. cbn [deque.items deque.maxlen].
        rewrite length_app. cbn [length].
        replace (cap <? Z.of_nat (length acc + 1))%Z with false
          by (symmetry; apply Z.ltb_ge; lia).
        reflexivity. }
      rewrite Happ.
      replace (Z.of_nat (length acc) + 1)%Z
        with (Z.of_nat (length (acc ++ [x])))
        by (rewrite length_app; cbn [length]; lia).
      rewrite IH by (rewrite length_app; cbn [length]; lia).
      rewrite length_app. cbn [length].
      replace (Z.to_nat cap - length acc)%nat
        with (S (Z.to_nat cap - (length acc + 1)))%nat by lia.
      cbn [firstn]. rewrite <- app_assoc. reflexivity.
    + rewrite set_duration_loop_full by lia.
      replace (Z.to_nat cap - length acc)%nat with 0%nat by lia.
      cbn [firstn]. rewrite app_nil_r. reflexivity.
Qed.

Lemma firstn_min_length {A} (n : nat) (l : list A) :
  firstn (Nat.min n (length l)) l = firstn n l.
Proof.
  destruct (Nat.min_spec n (length l)) as [[_ ->] | [Hle ->]].
  - reflexivity.
  - rewrite firstn_all. symmetry. apply firstn_all2. exact Hle.
Qed.

(** C5. [set_duration(seconds, fps)], for a non-negative duration, sets the
    capacity to floor(seconds * fps) and keeps exactly the first
    min(capacity, old length) samples, oldest first: when the trail
    shrinks, the oldest samples survive. *)
Theorem set_duration_keeps_the_oldest (seconds fps : R) (t : PathTracer.t) :
  0 <= seconds * fps ->
  let capacity := Spec.floor (seconds * fps) in
  let old := deque.items (PathTracer.points t) in
  PathTracer.set_duration seconds fps t
  = (Return tt,
     PathTracer.mk
       (deque.mk (firstn (Nat.min (Z.to_nat capacity) (length old)) old)
                 capacity)
       capacity (PathTracer.color t) (PathTracer.visible t)).
Proof.
  intros Hpos capacity old.
  unfold PathTracer.set_duration. plumbing. attrs.
  rewrite py_int_floor by exact Hpos. fold capacity.
  pose proof (floor_nonneg _ Hpos) as Hcap. fold capacity in Hcap.
  unfold deque.new.
  replace (capacity <? 0)%Z with false by (symmetry; apply Z.ltb_ge; lia).
  fold old.
  pose proof (set_duration_loop_copies old [] capacity) as Hloop.
  cbn [length app] in Hloop. change (Z.of_nat 0) with 0%Z in Hloop.
  rewrite Hloop by exact Hcap.
  rewrite Nat.sub_0_r, firstn_min_length. reflexivity.
Qed.

(** Ten samples reduced to a capacity of four: the first four remain. *)
Lemma set_duration_keeps_the_oldest_witness :
  0 <= 4 * 1
  /\ PathTracer.set_duration 4 1 Scenario.trail
     = (Return tt,
        PathTracer.mk (deque.mk [(0, 0); (1, 1); (2, 4); (3, 9)] 4) 4
                      (0, 128, 255)%Z true).
Proof.
  assert (Hpos : 0 <= 4 * 1) by lra.
  split; [exact Hpos |].
  pose proof (set_duration_keeps_the_oldest 4 1 Scenario.trail Hpos) as H.
  assert (E : Spec.floor (4 * 1) = 4%Z).
  { symmetry. apply Int_part_spec. lra. }
  cbv zeta in H. rewrite E in H. exact H.
Defined.

(** ** Attributes a method leaves alone *)

Lemma preserves_ret {S X A} (f : S -> X) (a : A) : preserves f (ret a).
Proof. intros s. reflexivity. Qed.

Lemma preserves_lift {S X A} (f : S -> X) (o : outcome A) :
  preserves f (lift o).
Proof. intros s. reflexivity. Qed.

Lemma preserves_gets {S X A} (f : S -> X) (g : S -> A) : preserves f (gets g).
Proof. intros s. reflexivity. Qed.

Lemma preserves_modify {S X} (f : S -> X) (g : S -> S) :
  (forall s, f (g s) = f s) -> preserves f (modify g).
Proof. intros H s. apply H. Qed.

Lemma preserves_bind {S X A B} (f : S -> X) (m : M S A) (k : A -> M S B) :
  preserves f m -> (forall a, preserves f (k a)) -> preserves f (bind m k).
Proof.
  intros Hm Hk s. unfold bind. specialize (Hm s).
  destruct (m s) as [[a | e] s']; cbn [snd] in *.
  - rewrite Hk. exact Hm.
  - exact Hm.
Qed.

Lemma preserves_zoom {S T X A} (f : S -> X) (proj : S -> T)
      (upd : T -> S -> S) (m : M T A) :
  (forall t s, f (upd t s) = f s) -> preserves f (zoom proj upd m).
Proof.
  intros H s. unfold zoom. destruct (m (proj s)) as [r t']. apply H.
Qed.

Ltac frame :=
  repeat first
    [ apply preserves_ret
    | apply preserves_lift
    | apply preserves_gets
    | apply preserves_modify; intros; reflexivity
    | apply preserves_zoom; intros; reflexivity
    | apply preserves_bind; [| intros ?]
    | match goal with
      | |- preserves _ (if ?b then _ else _) => destruct b
      | |- preserves _ (match ?x with _ => _ end) => destruct x
      end ].

Lemma _calculate_cartesian_positions_preserves {X} (f : Pendulum.t -> X) :
  (forall v s, f (Pendulum.with_x1 v s) = f s) ->
  (forall v s, f (Pendulum.with_y1 v s) = f s) ->
  (forall v s, f (Pendulum.with_x2 v s) = f s) ->
  (forall v s, f (Pendulum.with_y2 v s) = f s) ->
  preserves f Pendulum._calculate_cartesian_positions.
Proof.
  intros H1 H2 H3 H4 s. rewrite _calculate_cartesian_positions_eq.
  cbn [snd]. rewrite H4, H3, H2, H1. reflexivity.
Qed.

Lemma clone_eq (q : PendulumParams.t) : PendulumParams.clone q = q.
Proof. destruct q. reflexivity. Qed.

(** Every call but [reset] leaves the stored parameters alone ... *)
Lemma call_preserves_initial_state (o : Pendulum.op) :
  o <> Pendulum.Reset -> preserves Pendulum.initial_state (Pendulum.call o).
Proof.
  intros Ho.
  destruct o; try congruence; cbn [Pendulum.call];
    unfold Pendulum.update, Pendulum._velocity_verlet_step,
      Pendulum._calculate_acceleration1, Pendulum._calculate_acceleration2,
      Pendulum.render, Pendulum.set_length, Pendulum.set_mass,
      Pendulum.set_angle, Pendulum.set_velocity,
      Pendulum.toggle_wire_visibility, Pendulum.start_drag,
      Pendulum.update_drag, Pendulum.end_drag, Pendulum.calculate_energy,
      Pendulum._calculate_cartesian_positions, discard;
    cbv zeta; frame.
Qed.

(** ... and [initialize] stores a copy of its argument. *)
Lemma initialize_initial_state (q : PendulumParams.t) (s : Pendulum.t) :
  Pendulum.initial_state (snd (Pendulum.initialize q s)) = Some q.
Proof.
  unfold Pendulum.initialize. cbv zeta.
  match goal with
  | |- context [bind (modify ?g) ?k] =>
      rewrite (bind_Return (modify g) k s (g s) tt eq_refl);
      assert (P : preserves Pendulum.initial_state (k tt))
  end.
  { unfold Pendulum._calculate_cartesian_positions. frame. }
  rewrite P. cbn [Pendulum.initial_state Pendulum.with_initial_state].
  rewrite clone_eq. reflexivity.
Qed.

Lemma call_keeps_initial_state (o : Pendulum.op) (q : PendulumParams.t)
      (s : Pendulum.t) :
  Pendulum.initial_state s = Some q ->
  Pendulum.initial_state (snd (Pendulum.call o s)) = Some q.
Proof.
  intros Hs. destruct (Pendulum.op_eq_Reset_dec o) as [-> | Ho].
  - cbn [Pendulum.call]. unfold Pendulum.reset. plumbing. rewrite Hs.
    apply initialize_initial_state.
  - rewrite call_preserves_initial_state by exact Ho. exact Hs.
Qed.

Lemma exec_keeps_initial_state (os : list Pendulum.op) :
  forall (q : PendulumParams.t) (s : Pendulum.t),
    Pendulum.initial_state s = Some q ->
    Pendulum.initial_state (Pendulum.exec os s) = Some q.
Proof.
  induction os as [| o rest IH]; intros q s Hs; cbn [Pendulum.exec].
  - exact Hs.
  - apply IH. apply call_keeps_initial_state. exact Hs.
Qed.

(** ** Pendulum.initialize and Pendulum.reset *)

Lemma __init__Return (pendulum_id : Z) :
  exists fresh, Pendulum.__init__ pendulum_id = Return fresh
                /\ Pendulum.id fresh = pendulum_id.
Proof. eexists. split; reflexivity. Qed.

(** With a non-negative trail duration [initialize] returns, and the
    physical attributes it leaves are those of the parameters. *)
Lemma initialize_physical_state (q : PendulumParams.t) (s : Pendulum.t) :
  0 <= PendulumParams.path_duration q ->
  exists s', Pendulum.initialize q s = (Return tt, s')
             /\ Spec.physical_state s' = Spec.physical_state_of q.
Proof.
  intros Hd.
  assert (Hpos : 0 <= PendulumParams.path_duration q * 60) by lra.
  unfold Pendulum.initialize, PathTracer.initialize. plumbing. attrs.
  rewrite py_int_floor by exact Hpos.
  pose proof (floor_nonneg _ Hpos) as Hcap.
  unfold deque.new.
  replace (Spec.floor (PendulumParams.path_duration q * 60) <? 0)%Z
    with false by (symmetry; apply Z.ltb_ge; lia).
  rewrite _calculate_cartesian_positions_eq.
  eexists. split; reflexivity.
Qed.

(** C9. Create a pendulum from parameters [q] (with a non-negative trail
    duration), apply any sequence of calls to it (steps, setters, drags,
    ...), then [reset()]: the reset returns and the angles, angular
    velocities, rod lengths, masses and Cartesian offsets are exactly those
    of the freshly created pendulum, which are those [q] determines. *)
Theorem reset_restores_the_created_state
        (pendulum_id : Z) (q : PendulumParams.t) (os : list Pendulum.op) :
  0 <= PendulumParams.path_duration q ->
  exists fresh created restored,
    Pendulum.__init__ pendulum_id = Return fresh
    /\ Pendulum.initialize q fresh = (Return tt, created)
    /\ Pendulum.reset (Pendulum.exec os created) = (Return tt, restored)
    /\ Spec.physical_state restored = Spec.physical_state created
    /\ Spec.physical_state created = Spec.physical_state_of q.
Proof.
  intros Hd.
  destruct (__init__Return pendulum_id) as (fresh & Hfresh & _).
  destruct (initialize_physical_state q fresh Hd) as (created & Hc & Hpc).
  assert (Hi : Pendulum.initial_state created = Some q).
  { replace created with (snd (Pendulum.initialize q fresh))
      by (rewrite Hc; reflexivity).
    apply initialize_initial_state. }
  pose proof (exec_keeps_initial_state os q created Hi) as Hi'.
  destruct (initialize_physical_state q (Pendulum.exec os created) Hd)
    as (restored & Hr & Hpr).
  exists fresh, created, restored. repeat split; try assumption.
  - unfold Pendulum.reset. plumbing. rewrite Hi'. exact Hr.
  - rewrite Hpr, Hpc. reflexivity.
Qed.

Lemma reset_restores_the_created_state_witness :
  exists fresh created restored,
    Pendulum.__init__ 0 = Return fresh
    /\ Pendulum.initialize Scenario.params fresh = (Return tt, created)
    /\ Pendulum.reset
         (Pendulum.exec [Pendulum.Update 0.01 9.81;
                         Pendulum.SetLength 1 50;
                         Pendulum.StartDrag (0, 0) (0, 0);
                         Pendulum.UpdateDrag (30, 40) (0, 0);
                         Pendulum.EndDrag]
                        created)
       = (Return tt, restored)
    /\ Spec.physical_state restored = Spec.physical_state created
    /\ Spec.physical_state created = Spec.physical_state_of Scenario.params.
Proof.
  apply (reset_restores_the_created_state 0 Scenario.params).
  cbn [PendulumParams.path_duration Scenario.params]. lra.
Defined.

(** ** The insertion-ordered dict *)

Section Dict.
Context {V : Type}.
Implicit Types (d : dict.t V) (k : Z) (v : V).

Lemma dict_get_In k v d : dict.get k d = Some v -> In (k, v) d.
Proof.
  induction d as [| [k' v'] rest IH]; cbn [dict.get]; [discriminate |].
  destruct (Z.eqb_spec k' k) as [-> | Hne].
  - intros [= ->]. left. reflexivity.
  - intros H. right. apply IH, H.
Qed.

Lemma dict_In_get k v d :
  List.NoDup (map fst d) -> In (k, v) d -> dict.get k d = Some v.
Proof.
  induction d as [| [k' v'] rest IH]; cbn [dict.get map fst]; [easy |].
  intros Hnd [Heq | Hin].
  - injection Heq as -> ->. rewrite Z.eqb_refl. reflexivity.
  - apply NoDup_cons_iff in Hnd as [Hnotin Hnd].
    destruct (Z.eqb_spec k' k) as [-> | Hne].
    + exfalso. apply Hnotin. apply (in_map fst) in Hin. exact Hin.
    + apply IH; assumption.
Qed.

Lemma dict_get_set_eq k v d : dict.get k (dict.set k v d) = Some v.
Proof.
  induction d as [| [k' v'] rest IH]; cbn [dict.set dict.get].
  - rewrite Z.eqb_refl. reflexivity.
  - destruct (Z.eqb_spec k' k) as [-> | Hne]; cbn [dict.get].
    + rewrite Z.eqb_refl. reflexivity.
    + apply Z.eqb_neq in Hne. rewrite Hne. exact IH.
Qed.

Lemma dict_get_set_ne k k' v d :
  k <> k' -> dict.get k' (dict.set k v d) = dict.get k' d.
Proof.
  intros Hkk. induction d as [| [k0 v0] rest IH]; cbn [dict.set dict.get].
  - apply Z.eqb_neq in Hkk. rewrite Hkk. reflexivity.
  - destruct (Z.eqb_spec k0 k) as [-> | Hne]; cbn [dict.get].
    + apply Z.eqb_neq in Hkk. rewrite Hkk. reflexivity.
    + rewrite IH. reflexivity.
Qed.

Lemma dict_keys_set k v d :
  List.NoDup (map fst d) -> List.NoDup (map fst (dict.set k v d)).
Proof.
  induction d as [| [k0 v0] rest IH]; cbn [dict.set map fst]; intros Hnd.
  - constructor; [intros [] | constructor].
  - destruct (Z.eqb_spec k0 k) as [-> | Hne]; cbn [map fst]; [exact Hnd |].
    apply NoDup_cons_iff in Hnd as [Hnotin Hnd].
    apply NoDup_cons_iff. split; [| apply IH, Hnd].
    intros Hin. apply in_map_iff in Hin as ([k1 v1] & Hk1 & Hin).
    cbn [fst] in Hk1. subst k1.
    assert (Hg : dict.get k0 (dict.set k v rest) = Some v1).
    { apply dict_In_get; [apply IH, Hnd | exact Hin]. }
    rewrite dict_get_set_ne in Hg by congruence.
    apply Hnotin. apply dict_get_In in Hg.
    apply (in_map fst) in Hg. exact Hg.
Qed.

Lemma dict_In_remove k k' v d : In (k', v) (dict.remove k d) -> In (k', v) d.
Proof.
  induction d as [| [k0 v0] rest IH]; cbn [dict.remove]; [easy |].
  destruct (k0 =? k)%Z.
  - intros H. right. exact H.
  - intros [H | H]; [left; exact H | right; apply IH, H].
Qed.

Lemma dict_keys_remove k d :
  List.NoDup (map fst d) -> List.NoDup (map fst (dict.remove k d)).
Proof.
  induction d as [| [k0 v0] rest IH]; cbn [dict.remove map fst]; intros Hnd.
  - exact Hnd.
  - apply NoDup_cons_iff in Hnd as [Hnotin Hnd].
    destruct (k0 =? k)%Z; cbn [map fst]; [exact Hnd |].
    apply NoDup_cons_iff. split; [| apply IH, Hnd].
    intros Hin. apply in_map_iff in Hin as ([k1 v1] & Hk1 & Hin).
    cbn [fst] in Hk1. subst k1. apply dict_In_remove in Hin.
    apply Hnotin. apply (in_map fst) in Hin. exact Hin.
Qed.

Lemma dict_get_remove_ne k k' d :
  k <> k' -> dict.get k' (dict.remove k d) = dict.get k' d.
Proof.
  intros Hkk. induction d as [| [k0 v0] rest IH]; cbn [dict.remove dict.get].
  - reflexivity.
  - destruct (Z.eqb_spec k0 k) as [-> | Hne]; cbn [dict.get].
    + apply Z.eqb_neq in Hkk. rewrite Hkk. reflexivity.
    + rewrite IH. reflexivity.
Qed.

Lemma dict_get_remove_eq k d :
  List.NoDup (map fst d) -> dict.get k (dict.remove k d) = None.
Proof.
  induction d as [| [k0 v0] rest IH]; cbn [dict.remove dict.get map fst];
    intros Hnd; [reflexivity |].
  apply NoDup_cons_iff in Hnd as [Hnotin Hnd].
  destruct (Z.eqb_spec k0 k) as [-> | Hne]; cbn [dict.get].
  - destruct (dict.get k rest) as [v |] eqn:Hg; [| reflexivity].
    exfalso. apply Hnotin. apply dict_get_In in Hg.
    apply (in_map fst) in Hg. exact Hg.
  - apply Z.eqb_neq in Hne. rewrite Hne. apply IH, Hnd.
Qed.

Lemma dict_values_get v d :
  List.NoDup (map fst d) -> In v (dict.values d) -> exists k, dict.get k d = Some v.
Proof.
  intros Hnd Hin. unfold dict.values in Hin.
  apply in_map_iff in Hin as ([k v'] & Hv & Hin). cbn [snd] in Hv. subst v'.
  exists k. apply dict_In_get; assumption.
Qed.

End Dict.

(** ** PendulumSystem: calls that only touch the pendulums *)

Import PendulumSystem.

Lemma ids_kept_refl (o : list Pendulum.t) : ids_kept o o.
Proof. intros r p H. exists p. split; [exact H | reflexivity]. Qed.

Lemma ids_kept_trans (o1 o2 o3 : list Pendulum.t) :
  ids_kept o1 o2 -> ids_kept o2 o3 -> ids_kept o1 o3.
Proof.
  intros H12 H23 r p H. destruct (H12 r p H) as (p2 & H2 & E2).
  destruct (H23 r p2 H2) as (p3 & H3 & E3).
  exists p3. split; [exact H3 | congruence].
Qed.

Lemma object_step_refl (s : t) : object_step s s.
Proof. repeat split. apply ids_kept_refl. Qed.

Lemma object_step_trans (s1 s2 s3 : t) :
  object_step s1 s2 -> object_step s2 s3 -> object_step s1 s3.
Proof.
  intros (Hp & Hs & Hi) (Hp' & Hs' & Hi'). repeat split; try congruence.
  eapply ids_kept_trans; eassumption.
Qed.

Lemma wf_object_step (s s' : t) : wf s -> object_step s s' -> wf s'.
Proof.
  intros (Hu & Hk & Hl) (Hp & Hs & Hi). repeat split.
  - unfold keys_unique. rewrite Hp. exact Hu.
  - intros k r Hg. rewrite Hp in Hg.
    destruct (Hk k r Hg) as (p & Hr & Hid).
    destruct (Hi r p Hr) as (p' & Hr' & Hid').
    exists p'. split; [exact Hr' | congruence].
  - intros r Hr. rewrite Hs in Hr. rewrite Hp. apply Hl, Hr.
Qed.

Lemma objects_only_ret {A} (a : A) : objects_only (ret a).
Proof. intros s. apply object_step_refl. Qed.

Lemma objects_only_lift {A} (o : outcome A) : objects_only (lift o).
Proof. intros s. apply object_step_refl. Qed.

Lemma objects_only_gets {A} (g : t -> A) : objects_only (gets g).
Proof. intros s. apply object_step_refl. Qed.

Lemma objects_only_bind {A B} (m : M t A) (k : A -> M t B) :
  objects_only m -> (forall a, objects_only (k a)) -> objects_only (bind m k).
Proof.
  intros Hm Hk s. unfold bind. specialize (Hm s).
  destruct (m s) as [[a | e] s']; cbn [snd] in *.
  - eapply object_step_trans; [exact Hm | apply Hk].
  - exact Hm.
Qed.

Lemma objects_only_on_object {A} (r : ref) (m : M Pendulum.t A) :
  preserves Pendulum.id m -> objects_only (on_object r m).
Proof.
  intros Hm s. unfold on_object.
  destruct (objects s !! r) as [p |] eqn:Hr; [| apply object_step_refl].
  specialize (Hm p). destruct (m p) as [res p']. cbn [snd] in *.
  repeat split. cbn [objects with_objects].
  intros r0 p0 H0. destruct (Nat.eq_dec r0 r) as [-> | Hne].
  - exists p'. split.
    + apply list_lookup_insert_eq. eapply lookup_lt_Some, Hr.
    + rewrite Hr in H0. injection H0 as <-. exact Hm.
  - exists p0. split; [| reflexivity].
    rewrite list_lookup_insert_ne by congruence. exact H0.
Qed.

Lemma objects_only_alloc (p : Pendulum.t) : objects_only (alloc p).
Proof.
  intros s. unfold alloc. repeat split. cbn [snd objects with_objects].
  intros r p0 H0. exists p0. split; [| reflexivity].
  rewrite lookup_app_l; [exact H0 | eapply lookup_lt_Some, H0].
Qed.

Lemma objects_only_next_pendulum_id (v : Z) :
  objects_only (modify (with_next_pendulum_id v)).
Proof. intros s. repeat split. apply ids_kept_refl. Qed.

Lemma objects_only_for_each {A} (xs : list A) (body : A -> M t unit) :
  (forall x, objects_only (body x)) -> objects_only (for_each xs body).
Proof.
  intros Hb. induction xs as [| x rest IH]; cbn [for_each].
  - apply objects_only_ret.
  - apply objects_only_bind; [apply Hb | intros _; exact IH].
Qed.

(** No method of [Pendulum] assigns [self.id]. *)
Lemma initialize_preserves_id (q : PendulumParams.t) :
  preserves Pendulum.id (Pendulum.initialize q).
Proof.
  unfold Pendulum.initialize, Pendulum._calculate_cartesian_positions.
  cbv zeta. frame.
Qed.

Lemma call_preserves_id (o : Pendulum.op) :
  preserves Pendulum.id (Pendulum.call o).
Proof.
  destruct o; cbn [Pendulum.call];
    unfold Pendulum.update, Pendulum._velocity_verlet_step,
      Pendulum._calculate_acceleration1, Pendulum._calculate_acceleration2,
      Pendulum.render, Pendulum.reset, Pendulum.set_length, Pendulum.set_mass,
      Pendulum.set_angle, Pendulum.set_velocity,
      Pendulum.toggle_wire_visibility, Pendulum.start_drag,
      Pendulum.update_drag, Pendulum.end_drag, Pendulum.calculate_energy,
      Pendulum._calculate_cartesian_positions, discard;
    cbv zeta; frame; apply initialize_preserves_id.
Qed.

Ltac sysattrs :=
  cbn [objects pendulums selected_pendulum next_pendulum_id
       with_objects with_pendulums with_selected_pendulum
       with_next_pendulum_id fst snd] in *.

Ltac objects_frame :=
  repeat first
    [ apply objects_only_ret
    | apply objects_only_lift
    | apply objects_only_gets
    | apply objects_only_next_pendulum_id
    | apply objects_only_alloc
    | apply objects_only_on_object
    | apply objects_only_for_each; intros ?
    | apply objects_only_bind; [| intros ?]
    | match goal with
      | |- objects_only (if ?b then _ else _) => destruct b
      | |- objects_only (match ?x with _ => _ end) => destruct x
      end ].

Lemma update_objects_only (dt gravity : R) :
  objects_only (PendulumSystem.update dt gravity).
Proof.
  unfold PendulumSystem.update. objects_frame.
  apply (call_preserves_id (Pendulum.Update dt gravity)).
Qed.

Lemma render_objects_only (width height : Z) :
  objects_only (PendulumSystem.render width height).
Proof.
  unfold PendulumSystem.render. objects_frame.
  apply (call_preserves_id (Pendulum.Render width height)).
Qed.

(** ** PendulumSystem: create, remove, select *)

Lemma wf___init__ : wf PendulumSystem.__init__.
Proof.
  repeat split.
  - constructor.
  - intros k r H. discriminate H.
  - intros r H. discriminate H.
Qed.

Lemma wf_emptied (s : t) :
  pendulums s = [] -> selected_pendulum s = None -> wf s.
Proof.
  intros Hp Hs. repeat split.
  - unfold keys_unique. rewrite Hp. constructor.
  - intros k r H. rewrite Hp in H. discriminate H.
  - intros r H. rewrite Hs in H. discriminate H.
Qed.

(** [create_pendulum], by the outcome of the [initialize] it calls. *)
Lemma create_pendulum_eq (params : PendulumParams.t) (s : t)
      (fresh : Pendulum.t) :
  Pendulum.__init__ (next_pendulum_id s) = Return fresh ->
  create_pendulum params s
  = let r := length (objects s) in
    let (res, p') := Pendulum.initialize params fresh in
    let objs' := <[r := p']> (objects s ++ [fresh]) in
    match res with
    | Return _ =>
        (Return r, mk objs' (dict.set (next_pendulum_id s) r (pendulums s))
                      (Some r) (next_pendulum_id s + 1))
    | Raise e =>
        (Raise e, mk objs' (pendulums s) (selected_pendulum s)
                     (next_pendulum_id s + 1))
    end.
Proof.
  intros Hf. unfold create_pendulum. plumbing. sysattrs. rewrite Hf.
  unfold alloc, on_object. sysattrs. rewrite list_lookup_middle by reflexivity.
  destruct (Pendulum.initialize params fresh) as [[[] | e] p']; reflexivity.
Qed.

Lemma create_pendulum_wf (params : PendulumParams.t) (s : t) :
  wf s -> wf (snd (create_pendulum params s)).
Proof.
  intros (Hu & Hk & Hl).
  destruct (__init__Return (next_pendulum_id s)) as (fresh & Hf & Hid).
  rewrite (create_pendulum_eq params s fresh Hf). cbv zeta.
  pose proof (initialize_preserves_id params fresh) as Hp.
  destruct (Pendulum.initialize params fresh) as [res p']. cbn [snd] in Hp.
  assert (Hnew : (<[length (objects s) := p']> (objects s ++ [fresh]))
                   !! length (objects s) = Some p').
  { apply list_lookup_insert_eq. rewrite length_app. cbn [length]. lia. }
  assert (Hold : forall r p, objects s !! r = Some p ->
                 (<[length (objects s) := p']> (objects s ++ [fresh])) !! r
                 = Some p).
  { intros r p Hr. pose proof (lookup_lt_Some _ _ _ Hr) as Hlt.
    rewrite list_lookup_insert_ne by lia.
    rewrite lookup_app_l by exact Hlt. exact Hr. }
  destruct res as [[] | e]; cbn [snd]; repeat split.
  - unfold keys_unique. sysattrs. apply dict_keys_set, Hu.
  - intros k r Hg. sysattrs.
    destruct (Z.eq_dec (next_pendulum_id s) k) as [<- | Hne].
    + rewrite dict_get_set_eq in Hg. injection Hg as <-.
      exists p'. split; [exact Hnew | congruence].
    + rewrite dict_get_set_ne in Hg by exact Hne.
      destruct (Hk k r Hg) as (p & Hr & Hpid).
      exists p. split; [apply Hold, Hr | exact Hpid].
  - intros r Hr. sysattrs. injection Hr as <-.
    exists (next_pendulum_id s). apply dict_get_set_eq.
  - exact Hu.
  - intros k r Hg. sysattrs.
    destruct (Hk k r Hg) as (p & Hr & Hpid).
    exists p. split; [apply Hold, Hr | exact Hpid].
  - intros r Hr. sysattrs. apply Hl, Hr.
Qed.

Lemma remove_pendulum_absent (pendulum_id : Z) (s : t) :
  dict.get pendulum_id (pendulums s) = None ->
  remove_pendulum pendulum_id s = (Return false, s).
Proof.
  intros Hg. unfold remove_pendulum, dict.contains. plumbing.
  rewrite Hg. reflexivity.
Qed.

Lemma remove_pendulum_present (pendulum_id : Z) (s : t) (r : nat) :
  wf s ->
  dict.get pendulum_id (pendulums s) = Some r ->
  remove_pendulum pendulum_id s
  = (Return true,
     mk (objects s) (dict.remove pendulum_id (pendulums s))
        (selection_without r (selected_pendulum s)) (next_pendulum_id s)).
Proof.
  intros (Hu & Hk & Hl) Hg.
  unfold remove_pendulum, dict.contains, dict.del, dict.contains. plumbing.
  sysattrs. rewrite Hg.
  destruct (Hk _ _ Hg) as (p & Hr & Hpid).
  destruct s as [objs d sel next]. sysattrs.
  destruct sel as [r0 |]; cbn [selection_without].
  - destruct (Hl r0 eq_refl) as (k & Hg0). sysattrs.
    destruct (Hk _ _ Hg0) as (p0 & Hr0 & Hpid0). sysattrs.
    unfold on_object. sysattrs. rewrite Hr0. rewrite list_insert_id by exact Hr0.
    rewrite Hpid0.
    destruct (Z.eqb_spec k pendulum_id) as [-> | Hne].
    + assert (r0 = r) as -> by congruence.
      rewrite Nat.eqb_refl. sysattrs. rewrite Hg. reflexivity.
    + assert (Hrr : r0 <> r).
      { intros ->. rewrite Hr0 in Hr. injection Hr as <-. congruence. }
      apply Nat.eqb_neq in Hrr. rewrite Hrr. sysattrs. rewrite Hg.
      reflexivity.
  - sysattrs. rewrite Hg. reflexivity.
Qed.

Lemma select_pendulum_absent (pendulum_id : Z) (s : t) :
  dict.get pendulum_id (pendulums s) = None ->
  select_pendulum pendulum_id s = (Return None, s).
Proof.
  intros Hg. unfold select_pendulum, dict.contains. plumbing.
  rewrite Hg. reflexivity.
Qed.

Lemma select_pendulum_present (pendulum_id : Z) (s : t) (r : nat) :
  dict.get pendulum_id (pendulums s) = Some r ->
  select_pendulum pendulum_id s
  = (Return (Some r), with_selected_pendulum (Some r) s).
Proof.
  intros Hg. unfold select_pendulum, dict.contains, dict.getitem. plumbing.
  rewrite Hg. sysattrs. rewrite Hg. reflexivity.
Qed.

Lemma snd_discard {S A} (m : M S A) (s : S) : snd (discard m s) = snd (m s).
Proof.
  unfold discard, bind, ret. destruct (m s) as [[a | e] s']; reflexivity.
Qed.

Lemma remove_pendulum_wf (pendulum_id : Z) (s : t) :
  wf s -> wf (snd (remove_pendulum pendulum_id s)).
Proof.
  intros Hwf.
  destruct (dict.get pendulum_id (pendulums s)) as [r |] eqn:Hg.
  - rewrite (remove_pendulum_present pendulum_id s r Hwf Hg). cbn [snd].
    destruct Hwf as (Hu & Hk & Hl). repeat split.
    + unfold keys_unique. sysattrs. apply dict_keys_remove, Hu.
    + intros k r' Hg'. sysattrs.
      destruct (Z.eq_dec pendulum_id k) as [<- | Hne].
      * rewrite dict_get_remove_eq in Hg' by exact Hu. discriminate Hg'.
      * rewrite dict_get_remove_ne in Hg' by exact Hne. apply Hk, Hg'.
    + intros r0 Hsel. sysattrs.
      destruct (selected_pendulum s) as [r1 |] eqn:Hs1;
        cbn [selection_without] in Hsel; [| discriminate Hsel].
      destruct (Nat.eqb_spec r1 r) as [-> | Hrr]; [discriminate Hsel |].
      injection Hsel as <-.
      destruct (Hl r1 Hs1) as (k & Hk1). exists k.
      rewrite dict_get_remove_ne; [exact Hk1 |].
      intros <-. rewrite Hg in Hk1. injection Hk1 as ->. apply Hrr. reflexivity.
  - rewrite (remove_pendulum_absent pendulum_id s Hg). exact Hwf.
Qed.

Lemma select_pendulum_wf (pendulum_id : Z) (s : t) :
  wf s -> wf (snd (select_pendulum pendulum_id s)).
Proof.
  intros Hwf.
  destruct (dict.get pendulum_id (pendulums s)) as [r |] eqn:Hg.
  - rewrite (select_pendulum_present pendulum_id s r Hg). cbn [snd].
    destruct Hwf as (Hu & Hk & Hl). repeat split.
    + exact Hu.
    + exact Hk.
    + intros r0 Hsel. sysattrs. injection Hsel as <-.
      exists pendulum_id. exact Hg.
  - rewrite (select_pendulum_absent pendulum_id s Hg). exact Hwf.
Qed.

(** ** PendulumSystem: selecting by position *)

Lemma selection_step_trans (vals : list nat) (s1 s2 s3 : t) :
  selection_step vals s1 s2 -> selection_step vals s2 s3 ->
  selection_step vals s1 s3.
Proof.
  intros (Hp & Hi & Hs) (Hp' & Hi' & Hs'). repeat split.
  - congruence.
  - eapply ids_kept_trans; eassumption.
  - destruct Hs' as [Hs' | Hs']; [| right; exact Hs'].
    rewrite Hs'. exact Hs.
Qed.

Lemma selects_among_objects_only {A} (vals : list nat) (m : M t A) :
  objects_only m -> selects_among vals m.
Proof.
  intros Hm s. destruct (Hm s) as (Hp & Hs & Hi).
  repeat split; [exact Hp | exact Hi | left; exact Hs].
Qed.

Lemma selects_among_bind {A B} (vals : list nat) (m : M t A)
      (k : A -> M t B) :
  selects_among vals m -> (forall a, selects_among vals (k a)) ->
  selects_among vals (bind m k).
Proof.
  intros Hm Hk s. unfold bind. specialize (Hm s).
  destruct (m s) as [[a | e] s']; cbn [snd] in *.
  - eapply selection_step_trans; [exact Hm | apply Hk].
  - exact Hm.
Qed.

Lemma selects_among_select (vals : list nat) (r : nat) :
  In r vals -> selects_among vals (modify (with_selected_pendulum (Some r))).
Proof.
  intros Hin s. repeat split.
  - apply ids_kept_refl.
  - right. exists r. split; [exact Hin | reflexivity].
Qed.

Lemma selects_among_cons {A} (r : nat) (vals : list nat) (m : M t A) :
  selects_among vals m -> selects_among (r :: vals) m.
Proof.
  intros Hm s. destruct (Hm s) as (Hp & Hi & Hs). repeat split; try assumption.
  destruct Hs as [Hs | (r0 & Hin & Hs)]; [left; exact Hs |].
  right. exists r0. split; [right; exact Hin | exact Hs].
Qed.

Lemma try_select_loop_selects (position screen_center : R * R)
      (vals : list nat) :
  selects_among vals (try_select_loop vals position screen_center).
Proof.
  induction vals as [| r rest IH]; cbn [try_select_loop].
  - apply selects_among_objects_only, objects_only_ret.
  - cbv zeta.
    repeat first
      [ apply selects_among_cons, IH
      | apply selects_among_select; left; reflexivity
      | apply selects_among_objects_only;
        first [ apply objects_only_ret
              | apply objects_only_lift
              | apply objects_only_on_object, preserves_gets ]
      | apply selects_among_bind; [| intros ?]
      | match goal with
        | |- selects_among _ (if ?b then _ else _) => destruct b
        end ].
Qed.

Lemma wf_selection_step (vals : list nat) (s s' : t) :
  wf s ->
  (forall r, In r vals -> exists k, dict.get k (pendulums s) = Some r) ->
  selection_step vals s s' -> wf s'.
Proof.
  intros (Hu & Hk & Hl) Hvals (Hp & Hi & Hs). repeat split.
  - unfold keys_unique. rewrite Hp. exact Hu.
  - intros k r Hg. rewrite Hp in Hg.
    destruct (Hk k r Hg) as (p & Hr & Hid).
    destruct (Hi r p Hr) as (p' & Hr' & Hid').
    exists p'. split; [exact Hr' | congruence].
  - intros r Hr. rewrite Hp.
    destruct Hs as [Hs | (r0 & Hin & Hs)].
    + rewrite Hs in Hr. apply Hl, Hr.
    + rewrite Hs in Hr. injection Hr as <-. apply Hvals, Hin.
Qed.

Lemma try_select_pendulum_at_position_wf (position screen_center : R * R)
      (s : t) :
  wf s -> wf (snd (try_select_pendulum_at_position position screen_center s)).
Proof.
  intros Hwf. unfold try_select_pendulum_at_position.
  cbv [bind gets].
  eapply wf_selection_step; [exact Hwf | | apply try_select_loop_selects].
  intros r Hin. apply dict_values_get; [apply Hwf | exact Hin].
Qed.

(** ** PendulumSystem: the invariant *)

Lemma call_wf (o : PendulumSystem.op) (s : t) :
  wf s -> wf (snd (PendulumSystem.call o s)).
Proof.
  intros Hwf. destruct o; cbn [PendulumSystem.call]; rewrite ?snd_discard.
  - apply wf_emptied; reflexivity.
  - eapply wf_object_step; [exact Hwf | apply update_objects_only].
  - eapply wf_object_step; [exact Hwf | apply render_objects_only].
  - apply create_pendulum_wf, Hwf.
  - apply remove_pendulum_wf, Hwf.
  - apply select_pendulum_wf, Hwf.
  - exact Hwf.
  - exact Hwf.
  - exact Hwf.
  - apply wf_emptied; reflexivity.
  - apply try_select_pendulum_at_position_wf, Hwf.
  - eapply wf_object_step; [exact Hwf |].
    apply objects_only_on_object, call_preserves_id.
Qed.

Lemma exec_wf (os : list PendulumSystem.op) :
  forall s, wf s -> wf (PendulumSystem.exec os s).
Proof.
  induction os as [| o rest IH]; intros s Hwf; cbn [PendulumSystem.exec].
  - exact Hwf.
  - apply IH, call_wf, Hwf.
Qed.

(** With a non-negative trail duration [create_pendulum] returns the new
    reference, registered under the next id and selected. *)
Lemma create_pendulum_Return (params : PendulumParams.t) (s : t) :
  0 <= PendulumParams.path_duration params ->
  exists objs',
    create_pendulum params s
    = (Return (length (objects s)),
       mk objs'
          (dict.set (next_pendulum_id s) (length (objects s)) (pendulums s))
          (Some (length (objects s))) (next_pendulum_id s + 1))
    /\ length objs' = S (length (objects s)).
Proof.
  intros Hd.
  destruct (__init__Return (next_pendulum_id s)) as (fresh & Hf & _).
  rewrite (create_pendulum_eq params s fresh Hf). cbv zeta.
  destruct (initialize_physical_state params fresh Hd) as (p' & Hi & _).
  rewrite Hi. eexists. split; [reflexivity |].
  rewrite length_insert, length_app. cbn [length]. lia.
Qed.

(** C8. In every state of the system reachable from its construction by
    any sequence of calls: for an id that is not present,
    [remove_pendulum] returns False, [select_pendulum] and
    [get_pendulum_by_id] return None, and none of them raises or changes
    anything; for an id that is present, [remove_pendulum] returns True,
    deletes that entry (and no other), and clears the selection exactly
    when it referred to the removed pendulum; and the selected pendulum,
    when there is one, is a value of the dict. *)
Theorem lookups_by_id_and_live_selection
        (os : list PendulumSystem.op) (pendulum_id : Z) :
  let s := PendulumSystem.exec os PendulumSystem.__init__ in
  (dict.get pendulum_id (pendulums s) = None ->
   remove_pendulum pendulum_id s = (Return false, s)
   /\ select_pendulum pendulum_id s = (Return None, s)
   /\ get_pendulum_by_id pendulum_id s = (Return None, s))
  /\ (forall r, dict.get pendulum_id (pendulums s) = Some r ->
      exists s',
        remove_pendulum pendulum_id s = (Return true, s')
        /\ dict.get pendulum_id (pendulums s') = None
        /\ (forall k, k <> pendulum_id ->
                      dict.get k (pendulums s') = dict.get k (pendulums s))
        /\ objects s' = objects s
        /\ (selected_pendulum s = Some r -> selected_pendulum s' = None)
        /\ (selected_pendulum s <> Some r ->
            selected_pendulum s' = selected_pendulum s))
  /\ selection_live s.
Proof.
  intros s.
  assert (Hwf : wf s) by (apply exec_wf, wf___init__).
  split; [| split].
  - intros Hg. split; [| split].
    + apply remove_pendulum_absent, Hg.
    + apply select_pendulum_absent, Hg.
    + unfold get_pendulum_by_id. plumbing. rewrite Hg. reflexivity.
  - intros r Hg. eexists. split; [apply remove_pendulum_present; eassumption |].
    sysattrs. destruct Hwf as (Hu & Hk & Hl). repeat split.
    + apply dict_get_remove_eq, Hu.
    + intros k Hne. apply dict_get_remove_ne. congruence.
    + intros ->. cbn [selection_without]. rewrite Nat.eqb_refl. reflexivity.
    + intros Hsel. destruct (selected_pendulum s) as [r0 |];
        cbn [selection_without]; [| reflexivity].
      destruct (Nat.eqb_spec r0 r) as [-> | _]; [congruence | reflexivity].
  - apply Hwf.
Qed.

(** Two pendulums are created; the second (id 1) is the selected one;
    removing it clears the selection and keeps the first. *)
Lemma lookups_by_id_and_live_selection_witness :
  let s := PendulumSystem.exec
             [CreatePendulum Scenario.params; CreatePendulum Scenario.params]
             PendulumSystem.__init__ in
  dict.get 1 (pendulums s) = Some 1%nat
  /\ selected_pendulum s = Some 1%nat
  /\ exists s',
      remove_pendulum 1 s = (Return true, s')
      /\ dict.get 1 (pendulums s') = None
      /\ dict.get 0 (pendulums s') = Some 0%nat
      /\ selected_pendulum s' = None.
Proof.
  intros s.
  assert (Hd : 0 <= PendulumParams.path_duration Scenario.params)
    by (cbn [PendulumParams.path_duration Scenario.params]; lra).
  assert (Hs : pendulums s = [(0%Z, 0%nat); (1%Z, 1%nat)]
               /\ selected_pendulum s = Some 1%nat).
  { subst s. cbn [PendulumSystem.exec PendulumSystem.call].
    rewrite !snd_discard.
    destruct (create_pendulum_Return Scenario.params PendulumSystem.__init__ Hd)
      as (objs1 & E1 & L1).
    rewrite E1. cbn [snd].
    match goal with
    | |- context [create_pendulum _ ?s1] =>
        destruct (create_pendulum_Return Scenario.params s1 Hd)
          as (objs2 & E2 & _)
    end.
    rewrite E2. sysattrs. cbn [length PendulumSystem.__init__] in *.
    rewrite L1. split; reflexivity. }
  destruct Hs as [Hp Hsel].
  assert (Hg : dict.get 1 (pendulums s) = Some 1%nat)
    by (rewrite Hp; reflexivity).
  split; [exact Hg |]. split; [exact Hsel |].
  destruct (lookups_by_id_and_live_selection
              [CreatePendulum Scenario.params; CreatePendulum Scenario.params]
              1) as (_ & Hpresent & _).
  destruct (Hpresent 1%nat Hg) as (s' & Hr & Hgone & Hothers & _ & Hclear & _).
  exists s'. repeat split.
  - exact Hr.
  - exact Hgone.
  - rewrite Hothers by lia. fold s. rewrite Hp. reflexivity.
  - apply Hclear. exact Hsel.
Defined.

(** ** The scenario states are states of the program *)

Lemma scenario_fresh_constructed :
  Pendulum.__init__ 0 = Return Scenario.fresh.
Proof. reflexivity. Qed.

Lemma scenario_body_initialized :
  Pendulum.initialize Scenario.params Scenario.fresh
  = (Return tt, Scenario.body).
Proof.
  unfold Pendulum.initialize, PathTracer.initialize. plumbing.
  cbn [PendulumParams.path_duration PendulumParams.path_color Scenario.params].
  rewrite py_int_floor by lra.
  replace (Spec.floor (2 * 60)) with 120%Z
    by (apply Int_part_spec; lra).
  reflexivity.
Qed.

(** ** Outside the domain of the theorems above *)

(** A duration whose product with the rate is at most -1 makes
    [set_duration] raise: the negative bound is stored in [max_points], the
    samples stay as they were. *)
Lemma set_duration_negative_raises (seconds fps : R) (t : PathTracer.t) :
  seconds * fps <= -1 ->
  fst (PathTracer.set_duration seconds fps t) = Raise ValueError
  /\ PathTracer.points (snd (PathTracer.set_duration seconds fps t))
     = PathTracer.points t.
Proof.
  intros Hneg.
  assert (Hint : (py_int (seconds * fps) < 0)%Z).
  { unfold py_int. destruct (Rle_dec 0 (seconds * fps)); [lra |].
    destruct (base_Int_part (- (seconds * fps))) as [_ Hhi].
    assert (H : (0 < Int_part (- (seconds * fps)))%Z) by (apply lt_IZR; lra).
    lia. }
  unfold PathTracer.set_duration. plumbing. attrs. unfold deque.new.
  apply Z.ltb_lt in Hint. rewrite Hint. split; reflexivity.
Qed.

(** Between -1 and 0, [int] truncates to 0 and the trail is emptied. *)
Lemma set_duration_small_negative (seconds fps : R) (t : PathTracer.t) :
  -1 < seconds * fps < 0 ->
  PathTracer.max_points (snd (PathTracer.set_duration seconds fps t)) = 0%Z.
Proof.
  intros [Hlo Hhi].
  assert (Hint : py_int (seconds * fps) = 0%Z).
  { unfold py_int. destruct (Rle_dec 0 (seconds * fps)); [lra |].
    replace (Int_part (- (seconds * fps))) with 0%Z; [reflexivity |].
    apply Int_part_spec. lra. }
  unfold PathTracer.set_duration. plumbing. attrs. rewrite Hint.
  reflexivity.
Qed.

(** [reset] restores the physical attributes only: a drag in progress
    stays in progress. *)
Lemma reset_keeps_drag_state (p : Pendulum.t) :
  Pendulum.dragging (snd (Pendulum.reset p)) = Pendulum.dragging p
  /\ Pendulum.drag_joint (snd (Pendulum.reset p)) = Pendulum.drag_joint p.
Proof.
  assert (Hd : preserves Pendulum.dragging Pendulum.reset).
  { unfold Pendulum.reset, Pendulum.initialize,
      Pendulum._calculate_cartesian_positions. cbv zeta. frame. }
  assert (Hj : preserves Pendulum.drag_joint Pendulum.reset).
  { unfold Pendulum.reset, Pendulum.initialize,
      Pendulum._calculate_cartesian_positions. cbv zeta. frame. }
  split; [apply Hd | apply Hj].
Qed.

(** * Further properties of the engine *)

Import Invariants.

(** ** Properties kept by computations *)

Lemma keeps_ret {S A} (P : S -> Prop) (a : A) : keeps P (ret a).
Proof. intros s H. exact H. Qed.

Lemma keeps_lift {S A} (P : S -> Prop) (o : outcome A) : keeps P (lift o).
Proof. intros s H. exact H. Qed.

Lemma keeps_gets {S A} (P : S -> Prop) (g : S -> A) : keeps P (gets g).
Proof. intros s H. exact H. Qed.

Lemma keeps_modify {S} (P : S -> Prop) (g : S -> S) :
  (forall s, P s -> P (g s)) -> keeps P (modify g).
Proof. intros H s Hs. apply H, Hs. Qed.

Lemma keeps_bind {S A B} (P : S -> Prop) (m : M S A) (k : A -> M S B) :
  keeps P m -> (forall a, keeps P (k a)) -> keeps P (bind m k).
Proof.
  intros Hm Hk s Hs. unfold bind. specialize (Hm s Hs).
  destruct (m s) as [[a | e] s']; cbn [snd] in *.
  - apply Hk, Hm.
  - exact Hm.
Qed.

Lemma keeps_zoom {S T A} (P : S -> Prop) (Q : T -> Prop) (proj : S -> T)
      (upd : T -> S -> S) (m : M T A) :
  (forall s, P s -> Q (proj s)) ->
  (forall t s, P s -> Q t -> P (upd t s)) ->
  keeps Q m -> keeps P (zoom proj upd m).
Proof.
  intros Hproj Hupd Hm s Hs. unfold zoom.
  specialize (Hm (proj s) (Hproj s Hs)).
  destruct (m (proj s)) as [r t']. cbn [snd] in *. apply Hupd; assumption.
Qed.

Lemma keeps_preserves {S X A} (P : S -> Prop) (f : S -> X) (m : M S A) :
  (forall s s', f s' = f s -> P s -> P s') ->
  preserves f m -> keeps P m.
Proof. intros HP Hm s Hs. apply (HP s); [apply Hm | exact Hs]. Qed.

Lemma establishes_bind {S A B} (P : S -> Prop) (m : M S A) (k : A -> M S B) :
  (forall a, establishes P (k a)) -> establishes P (bind m k).
Proof.
  intros Hk s b. unfold bind.
  destruct (m s) as [[a | e] s']; cbn [fst snd].
  - apply Hk.
  - discriminate.
Qed.

(** ** The trail never exceeds its capacity *)

Lemma deque_append_bounded {A} (x : A) (d : deque.t A) :
  deque_bounded d -> deque_bounded (deque.append x d).
Proof.
  unfold deque_bounded, deque.append. intros Hd.
  destruct (Z.ltb_spec (deque.maxlen d)
                       (Z.of_nat (length (deque.items d ++ [x]))))
    as [Hfull | Hroom]; cbn [deque.items deque.maxlen].
  - destruct (deque.items d) as [| y l]; cbn [app tl length] in *.
    + lia.
    + rewrite length_app in *. cbn [length] in *. lia.
  - exact Hroom.
Qed.


Lemma set_duration_loop_bounded (pts : list (R * R)) :
  forall (i cap : Z) (d : deque.t (R * R)),
    deque_bounded d ->
    deque_bounded (PathTracer.set_duration_loop i pts cap d).
Proof.
  induction pts as [| x rest IH]; intros i cap d Hd;
    cbn [PathTracer.set_duration_loop].
  - exact Hd.
  - apply IH. destruct (i <? cap)%Z; [apply deque_append_bounded |]; exact Hd.
Qed.

Lemma deque_new_bounded {A} (n : Z) (d : deque.t A) :
  deque.new n = Return d -> deque_bounded d /\ deque.items d = [].
Proof.
  unfold deque.new, deque_bounded.
  destruct (Z.ltb_spec n 0); [discriminate |].
  intros [= <-]. cbn [deque.items deque.maxlen length]. split; [lia | reflexivity].
Qed.

Lemma add_point_keeps_bound (x y : R) :
  keeps (fun t => deque_bounded (PathTracer.points t))
        (PathTracer.add_point x y).
Proof.
  intros t Ht. unfold PathTracer.add_point. plumbing.
  destruct (PathTracer.visible t); cbn [snd PathTracer.points
                                       PathTracer.set_points].
  - apply deque_append_bounded, Ht.
  - exact Ht.
Qed.

Lemma clear_keeps_bound :
  keeps (fun t => deque_bounded (PathTracer.points t)) PathTracer.clear.
Proof.
  intros t Ht. unfold deque_bounded in *. cbn. lia.
Qed.

Lemma set_color_keeps_bound (r g b : Z) :
  keeps (fun t => deque_bounded (PathTracer.points t))
        (PathTracer.set_color r g b).
Proof. intros t Ht. exact Ht. Qed.

Lemma PathTracer_initialize_keeps_bound (n : Z) (c : Z * Z * Z) :
  keeps (fun t => deque_bounded (PathTracer.points t))
        (PathTracer.initialize n c).
Proof.
  intros t Ht. unfold PathTracer.initialize. plumbing.
  destruct (deque.new n) as [d | e] eqn:Hn; cbn [snd PathTracer.points
    PathTracer.set_points PathTracer.set_max_points PathTracer.set_color_field].
  - apply (deque_new_bounded n d Hn).
  - exact Ht.
Qed.

Lemma set_duration_keeps_bound (seconds fps : R) :
  keeps (fun t => deque_bounded (PathTracer.points t))
        (PathTracer.set_duration seconds fps).
Proof.
  intros t Ht. unfold PathTracer.set_duration. plumbing. attrs.
  destruct (deque.new (py_int (seconds * fps))) as [d | e] eqn:Hn;
    cbn [snd PathTracer.points PathTracer.set_points PathTracer.set_max_points].
  - apply set_duration_loop_bounded. apply (deque_new_bounded _ d Hn).
  - exact Ht.
Qed.

Ltac trail_frame :=
  repeat first
    [ apply keeps_ret
    | apply keeps_lift
    | apply keeps_gets
    | apply keeps_modify; intros ? ?; assumption
    | apply (keeps_zoom _ (fun t => deque_bounded (PathTracer.points t)));
      [ intros ? ?; assumption
      | intros ? ? _ ?; assumption
      | first [ apply add_point_keeps_bound
              | apply clear_keeps_bound
              | apply set_color_keeps_bound
              | apply PathTracer_initialize_keeps_bound
              | apply set_duration_keeps_bound ] ]
    | apply keeps_bind; [| intros ?]
    | match goal with
      | |- keeps _ (if ?b then _ else _) => destruct b
      | |- keeps _ (match ?x with _ => _ end) => destruct x
      end ].

Lemma call_keeps_trail_bounded (o : Pendulum.op) :
  keeps trail_bounded (Pendulum.call o).
Proof.
  destruct o; cbn [Pendulum.call];
    unfold Pendulum.update, Pendulum._velocity_verlet_step,
      Pendulum._calculate_acceleration1, Pendulum._calculate_acceleration2,
      Pendulum.render, Pendulum.reset, Pendulum.initialize,
      Pendulum.set_length, Pendulum.set_mass,
      Pendulum.set_angle, Pendulum.set_velocity,
      Pendulum.toggle_wire_visibility, Pendulum.start_drag,
      Pendulum.update_drag, Pendulum.end_drag, Pendulum.calculate_energy,
      Pendulum._calculate_cartesian_positions, discard;
    cbv zeta; trail_frame.
Qed.

(** X1. Whatever is called on a pendulum whose trail is within its
    capacity, in any order and whether the calls return or raise, the
    trail stays within its capacity. *)
Theorem trail_never_exceeds_capacity (os : list Pendulum.op) (p : Pendulum.t) :
  trail_bounded p -> trail_bounded (Pendulum.exec os p).
Proof.
  revert p. induction os as [| o rest IH]; intros p Hp; cbn [Pendulum.exec].
  - exact Hp.
  - apply IH, call_keeps_trail_bounded, Hp.
Qed.

Lemma trail_never_exceeds_capacity_witness :
  trail_bounded
    (Pendulum.exec [Pendulum.Render 800 600; Pendulum.SetPathDuration 0.1 60;
                    Pendulum.Render 800 600; Pendulum.EndDrag]
                   Scenario.body).
Proof.
  apply trail_never_exceeds_capacity.
  unfold trail_bounded, deque_bounded. cbn. lia.
Defined.

(** ** The trail is a sliding window *)

Lemma lastn_app_lastn {A} (c : nat) (l m : list A) :
  Trail.lastn c (Trail.lastn c l ++ m) = Trail.lastn c (l ++ m).
Proof.
  unfold Trail.lastn.
  destruct (Nat.le_gt_cases (length l) c) as [Hle | Hgt].
  - replace (length l - c)%nat with 0%nat by lia. reflexivity.
  - rewrite <- (drop_app_le l m (length l - c)) by lia.
    rewrite drop_drop. f_equal.
    rewrite length_drop, !length_app. lia.
Qed.

Lemma deque_append_lastn {A} (x : A) (d : deque.t A) :
  deque_bounded d ->
  deque.append x d
  = deque.mk (Trail.lastn (Z.to_nat (deque.maxlen d)) (deque.items d ++ [x]))
             (deque.maxlen d).
Proof.
  unfold deque_bounded, deque.append, Trail.lastn. intros Hd.
  rewrite length_app. cbn [length].
  destruct (Z.ltb_spec (deque.maxlen d)
                       (Z.of_nat (length (deque.items d) + 1)))
    as [Hfull | Hroom]; f_equal.
  - replace (length (deque.items d) + 1 - Z.to_nat (deque.maxlen d))%nat
      with 1%nat by lia.
    destruct (deque.items d ++ [x]); reflexivity.
  - replace (length (deque.items d) + 1 - Z.to_nat (deque.maxlen d))%nat
      with 0%nat by lia.
    reflexivity.
Qed.

(** X2. On a visible tracer, a run of [add_point] calls leaves in the
    trail the last [maxlen] of the samples it held followed by the samples
    pushed, in order: the oldest are evicted first and nothing else
    changes. *)
Theorem trail_is_a_sliding_window (pts : list (R * R)) (t : PathTracer.t) :
  PathTracer.visible t = true ->
  deque_bounded (PathTracer.points t) ->
  Trail.add_points pts t
  = (Return tt,
     PathTracer.set_points
       (deque.mk (Trail.lastn (Z.to_nat (deque.maxlen (PathTracer.points t)))
                              (deque.items (PathTracer.points t) ++ pts))
                 (deque.maxlen (PathTracer.points t)))
       t).
Proof.
  revert t. unfold Trail.add_points.
  induction pts as [| [x y] rest IH]; intros t Hv Hb; cbn [for_each].
  - rewrite app_nil_r. unfold ret, Trail.lastn, deque_bounded in *.
    replace (length (deque.items (PathTracer.points t))
             - Z.to_nat (deque.maxlen (PathTracer.points t)))%nat
      with 0%nat by lia.
    destruct t as [[items cap] mp c v]. reflexivity.
  - assert (Hstep : PathTracer.add_point x y t
                    = (Return tt,
                       PathTracer.set_points
                         (deque.append (x, y) (PathTracer.points t)) t)).
    { unfold PathTracer.add_point. plumbing. rewrite Hv. reflexivity. }
    cbn [fst snd]. rewrite (bind_Return _ _ _ _ _ Hstep).
    rewrite IH; cbn [PathTracer.visible PathTracer.points PathTracer.set_points].
    + rewrite deque_append_lastn by exact Hb.
      cbn [deque.items deque.maxlen]. rewrite lastn_app_lastn.
      rewrite <- app_assoc. reflexivity.
    + exact Hv.
    + apply deque_append_bounded, Hb.
Qed.

Lemma trail_is_a_sliding_window_witness :
  Trail.add_points [(10, 100); (11, 121)]
    (PathTracer.mk (deque.mk [(0, 0); (1, 1); (2, 4)] 4) 4 (0, 128, 255)%Z true)
  = (Return tt,
     PathTracer.mk (deque.mk [(1, 1); (2, 4); (10, 100); (11, 121)] 4) 4
                   (0, 128, 255)%Z true).
Proof.
  apply (trail_is_a_sliding_window [(10, 100); (11, 121)]
           (PathTracer.mk (deque.mk [(0, 0); (1, 1); (2, 4)] 4) 4
                          (0, 128, 255)%Z true)).
  - reflexivity.
  - unfold deque_bounded. cbn. lia.
Defined.

(** ** The Cartesian offsets follow the angles and the lengths *)

Lemma _calculate_cartesian_positions_establishes :
  establishes cartesian_consistent Pendulum._calculate_cartesian_positions.
Proof.
  intros s a _. rewrite _calculate_cartesian_positions_eq.
  repeat split.
Qed.

Lemma geometry_consistent (s s' : Pendulum.t) :
  geometry s' = geometry s -> cartesian_consistent s ->
  cartesian_consistent s'.
Proof.
  unfold geometry, cartesian_consistent.
  intros [= -> -> -> -> -> -> -> ->] H. exact H.
Qed.

Lemma establishes_keeps_on_return {S A} (P : S -> Prop) (m : M S A) :
  establishes P m ->
  forall s a, P s -> fst (m s) = Return a -> P (snd (m s)).
Proof. intros H s a _ Hr. apply (H s a Hr). Qed.

Lemma bind_gets {S A B} (f : S -> A) (k : A -> M S B) (s : S) :
  bind (gets f) k s = k (f s) s.
Proof. reflexivity. Qed.

Ltac ends_with_cartesian :=
  repeat first
    [ apply _calculate_cartesian_positions_establishes
    | apply establishes_bind; intros ?
    | match goal with
      | |- establishes _ (if ?b then _ else _) => destruct b
      end ].

(** X3. A call on a pendulum that returns keeps the Cartesian offsets
    equal to those the current angles and lengths determine (x1 = l1 sin
    a1, y1 = l1 cos a1, x2 = x1 + l2 sin a2, y2 = y1 + l2 cos a2). *)
Theorem calls_keep_offsets_consistent (o : Pendulum.op) (p : Pendulum.t) :
  cartesian_consistent p ->
  fst (Pendulum.call o p) = Return tt ->
  cartesian_consistent (snd (Pendulum.call o p)).
Proof.
  intros Hp Hr.
  assert (Frame : forall m : M Pendulum.t unit,
             preserves geometry m -> cartesian_consistent (snd (m p))).
  { intros m Hm. apply (geometry_consistent p); [apply Hm | exact Hp]. }
  destruct o; cbn [Pendulum.call] in *.
  - (* update *)
    unfold Pendulum.update in *. rewrite bind_gets in Hr |- *.
    destruct (Pendulum.dragging p); [exact Hp |].
    revert Hr. apply establishes_keeps_on_return; [| exact Hp].
    ends_with_cartesian.
  - (* render *)
    apply Frame. unfold Pendulum.render. cbv zeta. frame.
  - (* reset *)
    unfold Pendulum.reset in *. rewrite bind_gets in Hr |- *.
    destruct (Pendulum.initial_state p) as [q |]; [| exact Hp].
    revert Hr. apply establishes_keeps_on_return; [| exact Hp].
    unfold Pendulum.initialize. cbv zeta. ends_with_cartesian.
  - (* set_length *)
    revert Hr. apply establishes_keeps_on_return; [| exact Hp].
    unfold Pendulum.set_length. ends_with_cartesian.
  - apply Frame. unfold Pendulum.set_mass. frame.
  - (* set_angle *)
    revert Hr. apply establishes_keeps_on_return; [| exact Hp].
    unfold Pendulum.set_angle. ends_with_cartesian.
  - apply Frame. unfold Pendulum.set_velocity. frame.
  - apply Frame. unfold Pendulum.toggle_wire_visibility. frame.
  - apply Frame. unfold Pendulum.start_drag, discard. cbv zeta. frame.
  - (* update_drag *)
    unfold Pendulum.update_drag in *. rewrite bind_gets in Hr |- *.
    destruct (Pendulum.dragging p); cbn [negb] in *; [| exact Hp].
    revert Hr. apply establishes_keeps_on_return; [| exact Hp].
    cbv zeta. ends_with_cartesian.
  - apply Frame. unfold Pendulum.end_drag. frame.
  - apply Frame. unfold Pendulum.calculate_energy, discard. cbv zeta. frame.
  - apply Frame. frame.
  - apply Frame. frame.
Qed.

Lemma calls_keep_offsets_consistent_witness :
  cartesian_consistent
    (snd (Pendulum.call (Pendulum.SetAngle 1 PI) Scenario.body)).
Proof.
  apply calls_keep_offsets_consistent.
  - unfold cartesian_consistent. cbn. repeat split.
  - reflexivity.
Defined.

(** ** Dragging a bob *)









Lemma py_gt_cases (a b : R) :
  (py_gt a b = true /\ b < a) \/ (py_gt a b = false /\ a <= b).
Proof.
  unfold py_gt. destruct (Rgt_dec a b); [left | right]; split;
    try reflexivity; lra.
Qed.

Lemma py_sqrt_sum_squares (dx dy : R) :
  py_sqrt (dx * dx + dy * dy) = Return (sqrt (dx * dx + dy * dy)).
Proof. apply py_sqrt_ok. nra. Qed.

(** [update_drag] on the first joint, in full. *)
Lemma update_drag_joint1 (position screen_center : R * R) (p : Pendulum.t) :
  Pendulum.dragging p = true -> Pendulum.drag_joint p = 1%Z ->
  let theta := atan2 (Drag.rel_y position screen_center p)
                     (Drag.rel_x position screen_center p) in
  let l1 := if py_gt (Drag.radius1 position screen_center p) 10
            then Drag.radius1 position screen_center p
            else Pendulum.length1 p in
  Pendulum.update_drag position screen_center p
  = (Return tt,
     Pendulum.mk (Pendulum.id p) (Pendulum.path_tracer p)
       (Pendulum.initial_state p) (Pendulum.offset_x p) (Pendulum.offset_y p)
       l1 (Pendulum.length2 p) (Pendulum.mass1 p) (Pendulum.mass2 p)
       theta (Pendulum.angle2 p) 0 0
       (Pendulum.acceleration1 p) (Pendulum.acceleration2 p)
       (l1 * sin theta) (l1 * cos theta)
       (l1 * sin theta + Pendulum.length2 p * sin (Pendulum.angle2 p))
       (l1 * cos theta + Pendulum.length2 p * cos (Pendulum.angle2 p))
       (Pendulum.show_wire p) (Pendulum.dragging p) (Pendulum.drag_joint p)).
Proof.
  intros Hd Hj theta l1. subst theta l1.
  match goal with |- _ = ?rhs => set (result := rhs) end.
  unfold Pendulum.update_drag. plumbing.
  rewrite Hd. cbn [negb]. rewrite Hj, Z.eqb_refl. attrs.
  rewrite py_sqrt_sum_squares.
  subst result.
  unfold Drag.radius1, Drag.radius2, Drag.rel_to_first_x, Drag.rel_to_first_y,
    Drag.rel_x, Drag.rel_y, Drag.first_bob_x, Drag.first_bob_y.
  destruct (py_gt _ 10); rewrite _calculate_cartesian_positions_eq; attrs;
    reflexivity.
Qed.

(** [update_drag] on the second joint, in full. *)
Lemma update_drag_joint2 (position screen_center : R * R) (p : Pendulum.t) :
  Pendulum.dragging p = true -> Pendulum.drag_joint p = 2%Z ->
  let theta := atan2 (Drag.rel_to_first_y position screen_center p)
                     (Drag.rel_to_first_x position screen_center p) in
  let l2 := if py_gt (Drag.radius2 position screen_center p) 10
            then Drag.radius2 position screen_center p
            else Pendulum.length2 p in
  Pendulum.update_drag position screen_center p
  = (Return tt,
     Pendulum.mk (Pendulum.id p) (Pendulum.path_tracer p)
       (Pendulum.initial_state p) (Pendulum.offset_x p) (Pendulum.offset_y p)
       (Pendulum.length1 p) l2 (Pendulum.mass1 p) (Pendulum.mass2 p)
       (Pendulum.angle1 p) theta 0 0
       (Pendulum.acceleration1 p) (Pendulum.acceleration2 p)
       (Drag.first_bob_x p) (Drag.first_bob_y p)
       (Drag.first_bob_x p + l2 * sin theta)
       (Drag.first_bob_y p + l2 * cos theta)
       (Pendulum.show_wire p) (Pendulum.dragging p) (Pendulum.drag_joint p)).
Proof.
  intros Hd Hj theta l2. subst theta l2.
  match goal with |- _ = ?rhs => set (result := rhs) end.
  unfold Pendulum.update_drag. plumbing.
  rewrite Hd. cbn [negb]. rewrite Hj.
  change (2 =? 1)%Z with false. change (2 =? 2)%Z with true. cbv beta iota.
  rewrite _calculate_cartesian_positions_eq. attrs.
  rewrite py_sqrt_sum_squares.
  subst result.
  unfold Drag.radius1, Drag.radius2, Drag.rel_to_first_x, Drag.rel_to_first_y,
    Drag.rel_x, Drag.rel_y, Drag.first_bob_x, Drag.first_bob_y.
  destruct (py_gt _ 10); rewrite _calculate_cartesian_positions_eq; attrs;
    reflexivity.
Qed.



(** X6. [update_drag] never shortens a rod to 10 or less: a length above
    10 is still above 10 afterwards, whatever the pointer, the drag state
    and the joint; and when nothing is being dragged the call changes
    nothing at all. *)
Theorem drag_keeps_rods_longer_than_10 (position screen_center : R * R)
        (p : Pendulum.t) :
  (10 < Pendulum.length1 p ->
   10 < Pendulum.length1 (snd (Pendulum.update_drag position screen_center p)))
  /\ (10 < Pendulum.length2 p ->
      10 < Pendulum.length2
             (snd (Pendulum.update_drag position screen_center p)))
  /\ (Pendulum.dragging p = false ->
      Pendulum.update_drag position screen_center p = (Return tt, p)).
Proof.
  assert (Hoff : Pendulum.dragging p = false ->
                 Pendulum.update_drag position screen_center p = (Return tt, p)).
  { intros Hd. unfold Pendulum.update_drag. plumbing. rewrite Hd. reflexivity. }
  assert (Hother : Pendulum.dragging p = true ->
                   Pendulum.drag_joint p <> 1%Z -> Pendulum.drag_joint p <> 2%Z ->
                   Pendulum.length1
                     (snd (Pendulum.update_drag position screen_center p))
                   = Pendulum.length1 p
                   /\ Pendulum.length2
                        (snd (Pendulum.update_drag position screen_center p))
                      = Pendulum.length2 p).
  { intros Hd H1 H2. unfold Pendulum.update_drag. plumbing. rewrite Hd.
    cbn [negb]. apply Z.eqb_neq in H1, H2. rewrite H1, H2.
    rewrite _calculate_cartesian_positions_eq. split; reflexivity. }
  split; [| split; [| exact Hoff]].
  - intros Hl. destruct (Pendulum.dragging p) eqn:Hd;
      [| rewrite Hoff by reflexivity; exact Hl].
    destruct (Z.eq_dec (Pendulum.drag_joint p) 1%Z) as [Hj | Hj1].
    + rewrite (update_drag_joint1 position screen_center p Hd Hj). attrs.
      destruct (py_gt_cases (Drag.radius1 position screen_center p) 10)
        as [[-> Hr] | [-> _]]; assumption.
    + destruct (Z.eq_dec (Pendulum.drag_joint p) 2%Z) as [Hj | Hj2].
      * rewrite (update_drag_joint2 position screen_center p Hd Hj). exact Hl.
      * destruct (Hother eq_refl Hj1 Hj2) as [-> _]. exact Hl.
  - intros Hl. destruct (Pendulum.dragging p) eqn:Hd;
      [| rewrite Hoff by reflexivity; exact Hl].
    destruct (Z.eq_dec (Pendulum.drag_joint p) 1%Z) as [Hj | Hj1].
    + rewrite (update_drag_joint1 position screen_center p Hd Hj). exact Hl.
    + destruct (Z.eq_dec (Pendulum.drag_joint p) 2%Z) as [Hj | Hj2].
      * rewrite (update_drag_joint2 position screen_center p Hd Hj). attrs.
        destruct (py_gt_cases (Drag.radius2 position screen_center p) 10)
          as [[-> Hr] | [-> _]]; assumption.
      * destruct (Hother eq_refl Hj1 Hj2) as [_ ->]. exact Hl.
Qed.




(** A pointer on the anchor (distance 0) leaves the length of 120. *)
Lemma drag_keeps_rods_longer_than_10_witness :
  10 < Pendulum.length1
         (snd (Pendulum.update_drag (0, 0) (0, 0) DragScenario.held1)).
Proof.
  apply (drag_keeps_rods_longer_than_10 (0, 0) (0, 0) DragScenario.held1).
  cbn. lra.
Defined.

(** ** Energy accounting *)









(** ** The integration step: special inputs *)

Lemma normalize_id (a : R) : - PI <= a < PI -> Spec.normalize a = a.
Proof.
  intros [Hlo Hhi]. pose proof PI_RGT_0 as Hpi.
  unfold Spec.normalize, Spec.Rmod.
  replace (Int_part ((a + PI) / (2 * PI))) with 0%Z; [lra |].
  apply Int_part_spec.
  assert (H0 : 0 <= (a + PI) / (2 * PI)).
  { apply Rmult_le_pos; [lra |]. apply Rlt_le, Rinv_0_lt_compat. lra. }
  assert (H1 : (a + PI) / (2 * PI) < 1).
  { apply (Rmult_lt_reg_r (2 * PI)); [lra |].
    replace ((a + PI) / (2 * PI) * (2 * PI)) with (a + PI) by (field; lra).
    lra. }
  lra.
Qed.




Lemma accel1_at_rest (g m1 m2 l1 l2 : R) :
  Spec.accel1 g m1 m2 l1 l2 0 0 0 0 = 0.
Proof.
  unfold Spec.accel1.
  replace (0 - 2 * 0) with 0 by ring. replace (0 - 0) with 0 by ring.
  rewrite sin_0. unfold Rdiv. ring.
Qed.

Lemma accel2_at_rest (g m1 m2 l1 l2 : R) :
  Spec.accel2 g m1 m2 l1 l2 0 0 0 0 = 0.
Proof.
  unfold Spec.accel2. replace (0 - 0) with 0 by ring.
  rewrite sin_0. unfold Rdiv. ring.
Qed.

(** X10. A pendulum hanging straight down at rest stays there: with both
    angles and both velocities zero (positive lengths and masses, not
    dragged), [update] returns, for every time step and gravity, with
    angles and velocities still zero and the bobs straight below the
    anchor. *)
Theorem hanging_at_rest_is_a_fixed_point (dt gravity : R) (p : Pendulum.t) :
  Pendulum.dragging p = false ->
  0 < Pendulum.length1 p -> 0 < Pendulum.length2 p ->
  0 < Pendulum.mass1 p -> 0 < Pendulum.mass2 p ->
  Pendulum.angle1 p = 0 -> Pendulum.angle2 p = 0 ->
  Pendulum.velocity1 p = 0 -> Pendulum.velocity2 p = 0 ->
  exists p',
    Pendulum.update dt gravity p = (Return tt, p')
    /\ Pendulum.angle1 p' = 0 /\ Pendulum.angle2 p' = 0
    /\ Pendulum.velocity1 p' = 0 /\ Pendulum.velocity2 p' = 0
    /\ Pendulum.x1 p' = 0 /\ Pendulum.y1 p' = Pendulum.length1 p
    /\ Pendulum.x2 p' = 0
    /\ Pendulum.y2 p' = Pendulum.length1 p + Pendulum.length2 p.
Proof.
  intros Hd Hl1 Hl2 Hm1 Hm2 Ha1 Ha2 Hv1 Hv2.
  exists (Spec.stepped dt gravity p).
  split; [apply update_not_dragging; assumption |].
  pose proof PI_RGT_0 as Hpi.
  assert (Hn : Spec.normalize 0 = 0) by (apply normalize_id; lra).
  assert (Hs : Spec.step dt gravity (Pendulum.mass1 p) (Pendulum.mass2 p)
                 (Pendulum.length1 p) (Pendulum.length2 p) (Spec.angular_of p)
               = Spec.mk_angular 0 0 0 0).
  { unfold Spec.step, Spec.angular_of. cbn [Spec.a1 Spec.a2 Spec.v1 Spec.v2].
    rewrite Ha1, Ha2, Hv1, Hv2, accel1_at_rest, accel2_at_rest.
    replace (0 + 0.5 * 0 * dt) with 0 by lra.
    replace (0 + 0 * dt) with 0 by lra.
    rewrite Hn, accel1_at_rest, accel2_at_rest.
    f_equal; lra. }
  unfold Spec.stepped. rewrite Hs. cbv zeta.
  cbn [Spec.a1 Spec.a2 Spec.v1 Spec.v2 Pendulum.angle1 Pendulum.angle2
       Pendulum.velocity1 Pendulum.velocity2 Pendulum.x1 Pendulum.y1
       Pendulum.x2 Pendulum.y2].
  rewrite sin_0, cos_0. repeat split; lra.
Qed.



(** ** The integration step: division by zero *)

Lemma py_div_zero (x y : R) : y = 0 -> py_div x y = Raise ZeroDivisionError.
Proof.
  intros ->. unfold py_div. destruct (Req_dec_T 0 0); [reflexivity | lra].
Qed.

(** X12. [update] on a pendulum that is not dragged raises
    ZeroDivisionError, leaving the pendulum untouched, when a rod has
    length 0 or when 2 m1 + m2 = m2 cos(2 a1 - 2 a2) (for instance m1 = 0
    with both rods aligned). *)
Theorem update_raises_on_zero_denominator (dt gravity : R) (p : Pendulum.t) :
  Pendulum.dragging p = false ->
  Pendulum.length1 p = 0 \/ Pendulum.length2 p = 0
  \/ 2 * Pendulum.mass1 p + Pendulum.mass2 p
     - Pendulum.mass2 p * cos (2 * Pendulum.angle1 p - 2 * Pendulum.angle2 p)
     = 0 ->
  Pendulum.update dt gravity p = (Raise ZeroDivisionError, p).
Proof.
  intros Hd Hz.
  unfold Pendulum.update, Pendulum._velocity_verlet_step. plumbing.
  rewrite Hd.
  assert (H2 : Pendulum.length1 p = 0
               \/ Pendulum.length1 p
                  * (2 * Pendulum.mass1 p + Pendulum.mass2 p
                     - Pendulum.mass2 p
                       * cos (2 * Pendulum.angle1 p - 2 * Pendulum.angle2 p))
                  <> 0
                  /\ Pendulum.length2 p
                     * (2 * Pendulum.mass1 p + Pendulum.mass2 p
                        - Pendulum.mass2 p
                          * cos (2 * Pendulum.angle1 p
                                 - 2 * Pendulum.angle2 p)) = 0
               \/ 2 * Pendulum.mass1 p + Pendulum.mass2 p
                  - Pendulum.mass2 p
                    * cos (2 * Pendulum.angle1 p - 2 * Pendulum.angle2 p) = 0).
  { destruct Hz as [H | [H | H]]; [left; exact H | | right; right; exact H].
    destruct (Req_dec_T (Pendulum.length1 p) 0) as [H1 | H1];
      [left; exact H1 |].
    destruct (Req_dec_T
                (2 * Pendulum.mass1 p + Pendulum.mass2 p
                 - Pendulum.mass2 p
                   * cos (2 * Pendulum.angle1 p - 2 * Pendulum.angle2 p)) 0)
      as [Hb | Hb]; [right; right; exact Hb |].
    right; left. split; [| rewrite H; ring]. nra. }
  destruct H2 as [H | [[Hn H] | H]].
  - rewrite _calculate_acceleration1_Raise by exact H. reflexivity.
  - rewrite _calculate_acceleration1_Return by exact Hn.
    unfold Pendulum._calculate_acceleration2. plumbing.
    rewrite py_div_zero by exact H. reflexivity.
  - unfold Pendulum._calculate_acceleration1. plumbing.
    rewrite py_div_zero by (rewrite H; ring). reflexivity.
Qed.

Lemma update_raises_on_zero_denominator_witness :
  Pendulum.update 0.01 9.81 (snd (Pendulum.set_length 2 0 Scenario.body))
  = (Raise ZeroDivisionError, snd (Pendulum.set_length 2 0 Scenario.body)).
Proof.
  apply update_raises_on_zero_denominator.
  - reflexivity.
  - right. left. reflexivity.
Defined.


Lemma hanging_at_rest_is_a_fixed_point_witness :
  exists p',
    Pendulum.update 0.01 9.81 MoreScenarios.hanging = (Return tt, p')
    /\ Pendulum.angle1 p' = 0 /\ Pendulum.angle2 p' = 0
    /\ Pendulum.velocity1 p' = 0 /\ Pendulum.velocity2 p' = 0
    /\ Pendulum.x1 p' = 0
    /\ Pendulum.y1 p' = Pendulum.length1 MoreScenarios.hanging
    /\ Pendulum.x2 p' = 0
    /\ Pendulum.y2 p' = Pendulum.length1 MoreScenarios.hanging
                        + Pendulum.length2 MoreScenarios.hanging.
Proof.
  apply (hanging_at_rest_is_a_fixed_point 0.01 9.81 MoreScenarios.hanging);
    cbn; first [reflexivity | lra].
Defined.

(** ** Creating pendulums *)

Import SystemInvariants.

Lemma py_int_negative (x : R) : x <= -1 -> (py_int x < 0)%Z.
Proof.
  intros Hx. unfold py_int. destruct (Rle_dec 0 x); [lra |].
  destruct (base_Int_part (- x)) as [_ Hhi].
  assert (H : (0 < Int_part (- x))%Z) by (apply lt_IZR; lra). lia.
Qed.

Lemma initialize_raises (q : PendulumParams.t) (s : Pendulum.t) :
  PendulumParams.path_duration q * 60 <= -1 ->
  fst (Pendulum.initialize q s) = Raise ValueError.
Proof.
  intros Hd. apply py_int_negative, Z.ltb_lt in Hd.
  unfold Pendulum.initialize, PathTracer.initialize. plumbing. attrs.
  unfold deque.new. rewrite Hd. reflexivity.
Qed.

(** X13. [create_pendulum] with a trail duration of -1/60 s or less
    raises ValueError (from the deque of the new pendulum's trail); the
    id it had drawn is spent, but the dict and the selection are as
    before: no half-built pendulum is registered. *)
Theorem create_pendulum_failure_registers_nothing
        (params : PendulumParams.t) (s : PendulumSystem.t) :
  PendulumParams.path_duration params * 60 <= -1 ->
  exists s',
    create_pendulum params s = (Raise ValueError, s')
    /\ pendulums s' = pendulums s
    /\ selected_pendulum s' = selected_pendulum s
    /\ next_pendulum_id s' = (next_pendulum_id s + 1)%Z.
Proof.
  intros Hd.
  destruct (__init__Return (next_pendulum_id s)) as (fresh & Hf & _).
  rewrite (create_pendulum_eq params s fresh Hf). cbv zeta.
  pose proof (initialize_raises params fresh Hd) as Hi.
  destruct (Pendulum.initialize params fresh) as [res p']. cbn [fst] in Hi.
  subst res. eexists. repeat split.
Qed.

Lemma create_pendulum_failure_registers_nothing_witness :
  exists s',
    create_pendulum MoreScenarios.negative_duration PendulumSystem.__init__
    = (Raise ValueError, s')
    /\ pendulums s' = pendulums PendulumSystem.__init__
    /\ selected_pendulum s' = selected_pendulum PendulumSystem.__init__
    /\ next_pendulum_id s' = (next_pendulum_id PendulumSystem.__init__ + 1)%Z.
Proof.
  apply create_pendulum_failure_registers_nothing. cbn. lra.
Defined.

(** X14. [create_pendulum] with a non-negative trail duration returns a
    new pendulum whose id is the next id, registered under that id and
    selected; its physical attributes are those of the parameters, it
    keeps a copy of the parameters for [reset], and the next id moves on
    by one. *)
Theorem create_pendulum_registers_and_selects
        (params : PendulumParams.t) (s : PendulumSystem.t) :
  0 <= PendulumParams.path_duration params ->
  exists r s' p,
    create_pendulum params s = (Return r, s')
    /\ objects s' !! r = Some p
    /\ Pendulum.id p = next_pendulum_id s
    /\ Spec.physical_state p = Spec.physical_state_of params
    /\ Pendulum.initial_state p = Some params
    /\ get_pendulum_by_id (next_pendulum_id s) s' = (Return (Some r), s')
    /\ get_selected_pendulum s' = (Return (Some r), s')
    /\ next_pendulum_id s' = (next_pendulum_id s + 1)%Z.
Proof.
  intros Hd.
  destruct (__init__Return (next_pendulum_id s)) as (fresh & Hf & Hid).
  rewrite (create_pendulum_eq params s fresh Hf). cbv zeta.
  destruct (initialize_physical_state params fresh Hd) as (p' & Hi & Hph).
  pose proof (initialize_preserves_id params fresh) as Hkeep.
  pose proof (initialize_initial_state params fresh) as Hinit.
  rewrite Hi in Hkeep, Hinit |- *. cbn [snd] in Hkeep, Hinit.
  eexists. eexists. exists p'. split; [reflexivity |]. sysattrs.
  split.
  { apply list_lookup_insert_eq. rewrite length_app. cbn [length]. lia. }
  split; [congruence |]. split; [exact Hph |]. split; [exact Hinit |].
  split.
  { unfold get_pendulum_by_id. plumbing. sysattrs.
    rewrite dict_get_set_eq. reflexivity. }
  split; reflexivity.
Qed.

Lemma create_pendulum_registers_and_selects_witness :
  exists r s' p,
    create_pendulum Scenario.params PendulumSystem.__init__ = (Return r, s')
    /\ objects s' !! r = Some p
    /\ Pendulum.id p = next_pendulum_id PendulumSystem.__init__
    /\ Spec.physical_state p = Spec.physical_state_of Scenario.params
    /\ Pendulum.initial_state p = Some Scenario.params
    /\ get_pendulum_by_id (next_pendulum_id PendulumSystem.__init__) s'
       = (Return (Some r), s')
    /\ get_selected_pendulum s' = (Return (Some r), s')
    /\ next_pendulum_id s'
       = (next_pendulum_id PendulumSystem.__init__ + 1)%Z.
Proof.
  apply create_pendulum_registers_and_selects. cbn. lra.
Defined.

(** ** Ids are never reused *)

Lemma preserves_on_object {X A} (f : PendulumSystem.t -> X) (r : nat)
      (m : M Pendulum.t A) :
  (forall o s, f (with_objects o s) = f s) -> preserves f (on_object r m).
Proof.
  intros Hf s. unfold on_object.
  destruct (objects s !! r) as [p |]; [| reflexivity].
  destruct (m p) as [res p']. apply Hf.
Qed.

Lemma preserves_for_each {S X A} (f : S -> X) (xs : list A)
      (body : A -> M S unit) :
  (forall x, preserves f (body x)) -> preserves f (for_each xs body).
Proof.
  intros Hb. induction xs as [| x rest IH]; cbn [for_each].
  - apply preserves_ret.
  - apply preserves_bind; [apply Hb | intros _; exact IH].
Qed.

Ltac sysframe :=
  repeat first
    [ apply preserves_ret
    | apply preserves_lift
    | apply preserves_gets
    | apply preserves_modify; intros; reflexivity
    | apply preserves_on_object; intros; reflexivity
    | apply preserves_for_each; intros ?
    | apply preserves_bind; [| intros ?]
    | match goal with
      | |- preserves _ (if ?b then _ else _) => destruct b
      | |- preserves _ (match ?x with _ => _ end) => destruct x
      end ].

Lemma try_select_loop_preserves {X} (f : PendulumSystem.t -> X)
      (position screen_center : R * R) (vals : list nat) :
  (forall o s, f (with_objects o s) = f s) ->
  (forall v s, f (with_selected_pendulum v s) = f s) ->
  preserves f (try_select_loop vals position screen_center).
Proof.
  intros Ho Hs. induction vals as [| r rest IH]; cbn [try_select_loop].
  - apply preserves_ret.
  - cbv zeta.
    repeat first
      [ exact IH
      | apply preserves_ret
      | apply preserves_lift
      | apply preserves_modify; intros; apply Hs
      | apply preserves_on_object; exact Ho
      | apply preserves_bind; [| intros ?]
      | match goal with
        | |- preserves _ (if ?b then _ else _) => destruct b
        end ].
Qed.

(** The calls that touch neither the dict nor the id counter. *)
Lemma call_dict_frame (o : PendulumSystem.op) (s : PendulumSystem.t) :
  match o with
  | Initialize | Clear | CreatePendulum _ | RemovePendulum _ => True
  | _ => pendulums (snd (PendulumSystem.call o s)) = pendulums s
         /\ next_pendulum_id (snd (PendulumSystem.call o s))
            = next_pendulum_id s
  end.
Proof.
  assert (F : forall (m : M PendulumSystem.t unit),
             preserves pendulums m -> preserves next_pendulum_id m ->
             pendulums (snd (m s)) = pendulums s
             /\ next_pendulum_id (snd (m s)) = next_pendulum_id s).
  { intros m H1 H2. split; [apply H1 | apply H2]. }
  destruct o; cbn [PendulumSystem.call]; try exact I; apply F;
    unfold PendulumSystem.update, PendulumSystem.render, select_pendulum,
      get_pendulum_by_id, get_selected_pendulum, get_pendulum_count,
      try_select_pendulum_at_position, discard;
    sysframe;
    apply try_select_loop_preserves; intros; reflexivity.
Qed.

Lemma dict_set_fresh {V} (k : Z) (v : V) (d : dict.t V) :
  dict.get k d = None -> dict.set k v d = d ++ [(k, v)].
Proof.
  induction d as [| [k' v'] rest IH]; cbn [dict.get dict.set app];
    [reflexivity |].
  destruct (k' =? k)%Z; [discriminate |].
  intros H. rewrite IH by exact H. reflexivity.
Qed.

Lemma dict_values_remove_NoDup {V} (k : Z) (d : dict.t V) :
  List.NoDup (dict.values d) -> List.NoDup (dict.values (dict.remove k d)).
Proof.
  unfold dict.values.
  induction d as [| [k' v'] rest IH]; cbn [dict.remove map snd]; intros Hnd.
  - exact Hnd.
  - apply NoDup_cons_iff in Hnd as [Hnotin Hnd].
    destruct (k' =? k)%Z; cbn [map snd]; [exact Hnd |].
    apply NoDup_cons_iff. split; [| apply IH, Hnd].
    intros Hin. apply Hnotin.
    apply in_map_iff in Hin as ([k1 v1] & Hv & Hin). cbn [snd] in Hv. subst v1.
    apply dict_In_remove in Hin. apply (in_map snd) in Hin. exact Hin.
Qed.

Lemma NoDup_snoc {A} (l : list A) (x : A) :
  List.NoDup l -> ~ In x l -> List.NoDup (l ++ [x]).
Proof.
  induction l as [| y l IH]; cbn [app]; intros Hnd Hx.
  - constructor; [intros [] | constructor].
  - apply NoDup_cons_iff in Hnd as [Hy Hnd]. apply NoDup_cons_iff. split.
    + intros Hin. apply in_app_or in Hin as [Hin | [<- | []]].
      * apply Hy, Hin.
      * apply Hx. left. reflexivity.
    + apply IH; [exact Hnd |]. intros Hin. apply Hx. right. exact Hin.
Qed.

Lemma ids_below_next_fresh (s : PendulumSystem.t) :
  ids_below_next s -> dict.get (next_pendulum_id s) (pendulums s) = None.
Proof.
  intros Hb. destruct (dict.get _ _) as [r |] eqn:Hg; [| reflexivity].
  specialize (Hb _ _ Hg). lia.
Qed.

Lemma sound___init__ : sound PendulumSystem.__init__.
Proof.
  split; [apply wf___init__ |]. split.
  - intros k r H. discriminate H.
  - constructor.
Qed.

Lemma call_sound (o : PendulumSystem.op) (s : PendulumSystem.t) :
  sound s -> sound (snd (PendulumSystem.call o s)).
Proof.
  intros (Hwf & Hb & Hd).
  split; [apply call_wf, Hwf |].
  pose proof (call_dict_frame o s) as Hframe.
  assert (Hempty : forall s' : PendulumSystem.t,
             pendulums s' = [] -> ids_below_next s' /\ refs_distinct s').
  { intros s' E. unfold ids_below_next, refs_distinct. rewrite E. split.
    - intros k r H. discriminate H.
    - constructor. }
  assert (Hsame : forall s' : PendulumSystem.t,
             pendulums s' = pendulums s /\
             next_pendulum_id s' = next_pendulum_id s ->
             ids_below_next s' /\ refs_distinct s').
  { intros s' [E1 E2]. unfold ids_below_next, refs_distinct.
    rewrite E1, E2. split; assumption. }
  destruct o; cbn [PendulumSystem.call] in *; rewrite ?snd_discard in *;
    try (apply Hsame; exact Hframe); try (apply Hempty; reflexivity).
  - (* create_pendulum *)
    destruct (__init__Return (next_pendulum_id s)) as (fresh & Hf & _).
    rewrite (create_pendulum_eq params s fresh Hf). cbv zeta.
    destruct (Pendulum.initialize params fresh) as [[[] | e] p']; cbn [snd].
    + unfold ids_below_next, refs_distinct. sysattrs.
      rewrite dict_set_fresh by (apply ids_below_next_fresh, Hb). split.
      * intros k r Hg.
        destruct (Z.eq_dec k (next_pendulum_id s)) as [-> | Hne]; [lia |].
        assert (Hg' : dict.get k (pendulums s) = Some r).
        { rewrite <- (dict_get_set_ne (next_pendulum_id s) k
                        (length (objects s))) by congruence.
          rewrite dict_set_fresh by (apply ids_below_next_fresh, Hb).
          exact Hg. }
        specialize (Hb _ _ Hg'). lia.
      * unfold dict.values. rewrite map_app. cbn [map snd].
        apply NoDup_snoc; [exact Hd |].
        intros Hin. destruct Hwf as (Hu & Hk & _).
        apply dict_values_get in Hin as (k & Hg); [| exact Hu].
        destruct (Hk _ _ Hg) as (p & Hp & _).
        apply lookup_lt_Some in Hp. lia.
    + unfold ids_below_next, refs_distinct. sysattrs. split; [| exact Hd].
      intros k r Hg. specialize (Hb _ _ Hg). lia.
  - (* remove_pendulum *)
    destruct (dict.get pendulum_id (pendulums s)) as [r |] eqn:Hg.
    + rewrite (remove_pendulum_present pendulum_id s r Hwf Hg). cbn [snd].
      unfold ids_below_next, refs_distinct. sysattrs. split.
      * intros k r' Hg'. apply (Hb k r').
        destruct (Z.eq_dec pendulum_id k) as [<- | Hne].
        -- rewrite dict_get_remove_eq in Hg' by apply Hwf. discriminate Hg'.
        -- rewrite dict_get_remove_ne in Hg' by exact Hne. exact Hg'.
      * apply dict_values_remove_NoDup, Hd.
    + rewrite (remove_pendulum_absent pendulum_id s Hg). split; assumption.
Qed.

Lemma exec_sound (os : list PendulumSystem.op) :
  forall s, sound s -> sound (PendulumSystem.exec os s).
Proof.
  induction os as [| o rest IH]; intros s Hs; cbn [PendulumSystem.exec].
  - exact Hs.
  - apply IH, call_sound, Hs.
Qed.

(** X15. In every state of the system reachable from its construction,
    the next id is unused, so a [create_pendulum] that returns (trail
    duration not negative) adds one entry at the end of the dict, under an
    id no pendulum has, and leaves every other entry as it was: the count
    grows by exactly one. *)
Theorem create_pendulum_never_reuses_an_id
        (os : list PendulumSystem.op) (params : PendulumParams.t) :
  0 <= PendulumParams.path_duration params ->
  let s := PendulumSystem.exec os PendulumSystem.__init__ in
  exists r s',
    create_pendulum params s = (Return r, s')
    /\ dict.get (next_pendulum_id s) (pendulums s) = None
    /\ (forall k, dict.get k (pendulums s) <> Some r)
    /\ pendulums s' = pendulums s ++ [(next_pendulum_id s, r)]
    /\ fst (get_pendulum_count s')
       = Return (Z.of_nat (length (pendulums s)) + 1)%Z.
Proof.
  intros Hdur s.
  assert (Hs : sound s) by (apply exec_sound, sound___init__).
  destruct Hs as ((Hu & Hk & Hl) & Hb & Hd).
  destruct (create_pendulum_Return params s Hdur) as (objs' & E & _).
  rewrite E. eexists. eexists. split; [reflexivity |]. sysattrs.
  pose proof (ids_below_next_fresh s Hb) as Hfresh.
  split; [exact Hfresh |]. split.
  { intros k Hg. destruct (Hk _ _ Hg) as (p & Hp & _).
    apply lookup_lt_Some in Hp. lia. }
  split; [apply dict_set_fresh, Hfresh |].
  unfold get_pendulum_count. plumbing. sysattrs.
  rewrite dict_set_fresh by exact Hfresh. rewrite length_app. cbn [length].
  f_equal. lia.
Qed.

Lemma create_pendulum_never_reuses_an_id_witness :
  let s := PendulumSystem.exec
             [CreatePendulum Scenario.params; RemovePendulum 0;
              CreatePendulum Scenario.params]
             PendulumSystem.__init__ in
  exists r s',
    create_pendulum Scenario.params s = (Return r, s')
    /\ dict.get (next_pendulum_id s) (pendulums s) = None
    /\ (forall k, dict.get k (pendulums s) <> Some r)
    /\ pendulums s' = pendulums s ++ [(next_pendulum_id s, r)]
    /\ fst (get_pendulum_count s')
       = Return (Z.of_nat (length (pendulums s)) + 1)%Z.
Proof.
  apply (create_pendulum_never_reuses_an_id
           [CreatePendulum Scenario.params; RemovePendulum 0;
            CreatePendulum Scenario.params] Scenario.params).
  cbn. lra.
Defined.

(** ** Selecting by position *)

Lemma with_objects_same (s : PendulumSystem.t) : with_objects (objects s) s = s.
Proof. destruct s. reflexivity. Qed.

Lemma on_object_gets {A} (f : Pendulum.t -> A) (r : nat) (p : Pendulum.t)
      (s : PendulumSystem.t) :
  objects s !! r = Some p -> on_object r (gets f) s = (Return (f p), s).
Proof.
  intros Hp. unfold on_object, gets. rewrite Hp.
  rewrite list_insert_id by exact Hp. rewrite with_objects_same. reflexivity.
Qed.

Lemma try_select_loop_first_hit (position screen_center : R * R)
      (vals : list nat) (s : PendulumSystem.t) :
  (forall r, In r vals -> exists p, objects s !! r = Some p) ->
  try_select_loop vals position screen_center s
  = match first_hit position screen_center (objects s) vals with
    | Some r => (Return (Some r), with_selected_pendulum (Some r) s)
    | None => (Return None, s)
    end.
Proof.
  induction vals as [| r rest IH]; intros Hall;
    cbn [try_select_loop first_hit find].
  - reflexivity.
  - destruct (Hall r (or_introl eq_refl)) as (p & Hp). rewrite Hp.
    cbv zeta. unfold bind.
    repeat (rewrite (on_object_gets _ r p s Hp); cbv beta iota).
    unfold lift. rewrite py_sqrt_squares. cbv beta iota.
    repeat (rewrite (on_object_gets _ r p s Hp); cbv beta iota).
    unfold hit, Spec.distance, Spec.bob1_screen, Spec.bob2_screen, Spec.anchor.
    cbn [fst snd].
    destruct (py_le _ (py_max 10 (Pendulum.mass2 p))); cbn [orb].
    + reflexivity.
    + rewrite py_sqrt_squares. cbv beta iota.
      repeat (rewrite (on_object_gets _ r p s Hp); cbv beta iota).
      destruct (py_le _ (py_max 10 (Pendulum.mass1 p))).
      * reflexivity.
      * apply IH. intros r' Hin. apply Hall. right. exact Hin.
Qed.

Lemma sound_values_allocated (s : PendulumSystem.t) :
  wf s ->
  forall r, In r (dict.values (pendulums s)) ->
            exists p, objects s !! r = Some p.
Proof.
  intros (Hu & Hk & _) r Hin.
  apply dict_values_get in Hin as (k & Hg); [| exact Hu].
  destruct (Hk _ _ Hg) as (p & Hp & _). exists p. exact Hp.
Qed.

Lemma first_hit_characterises_try_select
      (os : list PendulumSystem.op) (position screen_center : R * R) :
  try_select_pendulum_at_position position screen_center
    (PendulumSystem.exec os PendulumSystem.__init__)
  = match first_hit position screen_center
            (objects (PendulumSystem.exec os PendulumSystem.__init__))
            (dict.values
               (pendulums (PendulumSystem.exec os PendulumSystem.__init__)))
    with
    | Some r =>
        (Return (Some r),
         with_selected_pendulum (Some r)
           (PendulumSystem.exec os PendulumSystem.__init__))
    | None => (Return None, PendulumSystem.exec os PendulumSystem.__init__)
    end.
Proof.
  unfold try_select_pendulum_at_position. rewrite bind_gets.
  apply try_select_loop_first_hit.
  apply sound_values_allocated. apply exec_wf, wf___init__.
Qed.

(** X16. In every reachable state, [try_select_pendulum_at_position]
    never raises; it returns and selects the first pendulum, in the order
    of the dict, that the pointer hits (within max(10, mass2) of its
    second bob or max(10, mass1) of its first), and when no pendulum is
    hit it returns None and changes nothing: the selection is not
    cleared. *)
Theorem try_select_picks_the_first_hit
        (os : list PendulumSystem.op) (position screen_center : R * R) :
  let s := PendulumSystem.exec os PendulumSystem.__init__ in
  try_select_pendulum_at_position position screen_center s
  = match first_hit position screen_center (objects s)
                    (dict.values (pendulums s)) with
    | Some r => (Return (Some r), with_selected_pendulum (Some r) s)
    | None => (Return None, s)
    end.
Proof. intros s. apply first_hit_characterises_try_select. Qed.

(** X17. A pendulum that [try_select_pendulum_at_position] returns can be
    grabbed: in every reachable state, [start_drag] with the same pointer
    and screen centre on the pendulum returned reports success. *)
Theorem selected_by_position_can_be_dragged
        (os : list PendulumSystem.op) (position screen_center : R * R)
        (r : nat) (s' : PendulumSystem.t) :
  let s := PendulumSystem.exec os PendulumSystem.__init__ in
  try_select_pendulum_at_position position screen_center s
  = (Return (Some r), s') ->
  selected_pendulum s' = Some r
  /\ exists p, objects s' !! r = Some p
               /\ fst (Pendulum.start_drag position screen_center p)
                  = Return true.
Proof.
  intros s. subst s. rewrite first_hit_characterises_try_select.
  destruct (first_hit _ _ _ _) as [r0 |] eqn:Hfind; [| discriminate].
  intros [= -> <-]. split; [reflexivity |].
  unfold first_hit in Hfind. apply find_some in Hfind as [_ Hhit].
  sysattrs.
  destruct (objects _ !! r) as [p |]; [| discriminate].
  exists p. split; [reflexivity |].
  rewrite start_drag_cases. unfold hit in Hhit.
  destruct (py_le _ (py_max 10 (Pendulum.mass2 p))); [reflexivity |].
  cbn [orb] in Hhit. rewrite Hhit. reflexivity.
Qed.

Lemma one_pendulum_system :
  PendulumSystem.exec [CreatePendulum Scenario.params] PendulumSystem.__init__
  = SystemScenario.one.
Proof.
  cbn [PendulumSystem.exec PendulumSystem.call]. rewrite snd_discard.
  rewrite (create_pendulum_eq Scenario.params PendulumSystem.__init__
             Scenario.fresh scenario_fresh_constructed).
  cbv zeta. rewrite scenario_body_initialized. reflexivity.
Qed.

Lemma hit_on_second_bob :
  hit SystemScenario.on_second_bob (0, 0) Scenario.body = true.
Proof.
  unfold hit.
  assert (E : Spec.distance SystemScenario.on_second_bob
                            (Spec.bob2_screen (0, 0) Scenario.body) = 0).
  { unfold Spec.distance, Spec.bob2_screen, Spec.anchor,
      SystemScenario.on_second_bob. cbn [fst snd Pendulum.offset_x
      Pendulum.offset_y Pendulum.x2 Pendulum.y2 Scenario.body].
    match goal with
    | |- sqrt ?a = 0 => replace a with 0 by ring
    end.
    apply sqrt_0. }
  rewrite E. unfold py_le, py_max. cbn [Pendulum.mass2 Scenario.body].
  destruct (Rlt_dec 10 10); destruct (Rle_dec 0 10); try reflexivity; lra.
Qed.

Lemma selected_by_position_can_be_dragged_witness :
  selected_pendulum (with_selected_pendulum (Some 0%nat) SystemScenario.one)
  = Some 0%nat
  /\ exists p,
      objects (with_selected_pendulum (Some 0%nat) SystemScenario.one)
        !! 0%nat = Some p
      /\ fst (Pendulum.start_drag SystemScenario.on_second_bob (0, 0) p)
         = Return true.
Proof.
  apply (selected_by_position_can_be_dragged
           [CreatePendulum Scenario.params]
           SystemScenario.on_second_bob (0, 0)).
  rewrite first_hit_characterises_try_select, one_pendulum_system.
  unfold first_hit. cbn [dict.values map snd pendulums objects
                          SystemScenario.one find].
  change ([Scenario.body] !! 0%nat) with (Some Scenario.body).
  cbv beta iota. rewrite hit_on_second_bob. reflexivity.
Defined.

(** ** Stepping the whole system *)

Lemma update_advanced (dt gravity : R) (p : Pendulum.t) :
  steppable p ->
  Pendulum.update dt gravity p = (Return tt, advanced dt gravity p).
Proof.
  unfold steppable, advanced. intros Hp.
  destruct (Pendulum.dragging p) eqn:Hd.
  - unfold Pendulum.update. plumbing. rewrite Hd. reflexivity.
  - destruct Hp as [Hp | (H1 & H2 & H3 & H4)]; [discriminate |].
    apply update_not_dragging; assumption.
Qed.

Lemma for_each_update (dt gravity : R) (vals : list nat) :
  forall s : PendulumSystem.t,
    List.NoDup vals ->
    (forall r, In r vals ->
               exists p, objects s !! r = Some p /\ steppable p) ->
    exists objs',
      for_each vals (fun r => on_object r (Pendulum.update dt gravity)) s
      = (Return tt, with_objects objs' s)
      /\ (forall r p, In r vals -> objects s !! r = Some p ->
                      objs' !! r = Some (advanced dt gravity p))
      /\ (forall r, ~ In r vals -> objs' !! r = objects s !! r).
Proof.
  induction vals as [| r rest IH]; intros s Hnd Hall; cbn [for_each].
  - exists (objects s). rewrite with_objects_same.
    split; [reflexivity |]. split; [intros r p [] | reflexivity].
  - apply NoDup_cons_iff in Hnd as [Hnotin Hnd].
    destruct (Hall r (or_introl eq_refl)) as (p & Hp & Hstep).
    assert (Hbody : on_object r (Pendulum.update dt gravity) s
                    = (Return tt,
                       with_objects (<[r := advanced dt gravity p]> (objects s))
                                    s)).
    { unfold on_object. rewrite Hp, (update_advanced dt gravity p Hstep).
      reflexivity. }
    rewrite (bind_Return _ _ _ _ _ Hbody).
    destruct (IH (with_objects (<[r := advanced dt gravity p]> (objects s)) s)
                Hnd) as (objs' & E & Hin' & Hout').
    { intros r' Hin. destruct (Hall r' (or_intror Hin)) as (p' & Hp' & Hs').
      exists p'. split; [| exact Hs']. sysattrs.
      rewrite list_lookup_insert_ne; [exact Hp' |].
      intros <-. apply Hnotin, Hin. }
    exists objs'. split; [rewrite E; reflexivity |]. sysattrs. split.
    + intros r0 p0 [<- | Hin] H0.
      * rewrite Hout' by exact Hnotin.
        rewrite Hp in H0. injection H0 as <-.
        apply list_lookup_insert_eq. eapply lookup_lt_Some, Hp.
      * apply Hin'; [exact Hin |].
        rewrite list_lookup_insert_ne; [exact H0 |].
        intros <-. apply Hnotin, Hin.
    + intros r0 Hr0. rewrite Hout' by (intros Hin; apply Hr0; right; exact Hin).
      apply list_lookup_insert_ne. intros <-. apply Hr0. left. reflexivity.
Qed.

Lemma update_sound_advanced (dt gravity : R) (s : PendulumSystem.t) :
  sound s ->
  (forall k r p, dict.get k (pendulums s) = Some r ->
                 objects s !! r = Some p -> steppable p) ->
  exists s',
    PendulumSystem.update dt gravity s = (Return tt, s')
    /\ pendulums s' = pendulums s
    /\ selected_pendulum s' = selected_pendulum s
    /\ next_pendulum_id s' = next_pendulum_id s
    /\ (forall k r p, dict.get k (pendulums s) = Some r ->
                      objects s !! r = Some p ->
                      objects s' !! r = Some (advanced dt gravity p)).
Proof.
  intros Hs Hall.
  destruct Hs as (Hwf & _ & Hd).
  unfold PendulumSystem.update. rewrite bind_gets.
  destruct (for_each_update dt gravity (dict.values (pendulums s)) s Hd)
    as (objs' & E & Hin & _).
  { intros r Hr. destruct (sound_values_allocated s Hwf r Hr) as (p & Hp).
    exists p. split; [exact Hp |].
    destruct Hwf as (Hu & _ & _).
    apply dict_values_get in Hr as (k & Hg); [| exact Hu].
    apply (Hall k r p Hg Hp). }
  exists (with_objects objs' s). split; [exact E |].
  repeat split. sysattrs. intros k r p Hg Hp.
  apply Hin; [| exact Hp].
  apply dict_get_In in Hg. apply (in_map snd) in Hg. exact Hg.
Qed.

(** X18. In every reachable state in which each registered pendulum is
    either being dragged or has positive lengths and masses,
    [PendulumSystem.update] returns, keeps the dict, the selection and the
    id counter, and advances each registered pendulum exactly once: a
    dragged one is left as it is, any other is replaced by the result of
    one integration step. *)
Theorem system_update_steps_each_pendulum_once
        (os : list PendulumSystem.op) (dt gravity : R) :
  let s := PendulumSystem.exec os PendulumSystem.__init__ in
  (forall k r p, dict.get k (pendulums s) = Some r ->
                 objects s !! r = Some p -> steppable p) ->
  exists s',
    PendulumSystem.update dt gravity s = (Return tt, s')
    /\ pendulums s' = pendulums s
    /\ selected_pendulum s' = selected_pendulum s
    /\ next_pendulum_id s' = next_pendulum_id s
    /\ (forall k r p, dict.get k (pendulums s) = Some r ->
                      objects s !! r = Some p ->
                      objects s' !! r = Some (advanced dt gravity p)).
Proof.
  intros s Hall. apply update_sound_advanced; [| exact Hall].
  apply exec_sound, sound___init__.
Qed.

Lemma system_update_steps_each_pendulum_once_witness :
  let s := PendulumSystem.exec [CreatePendulum Scenario.params]
                               PendulumSystem.__init__ in
  exists s',
    PendulumSystem.update 0.01 9.81 s = (Return tt, s')
    /\ pendulums s' = pendulums s
    /\ selected_pendulum s' = selected_pendulum s
    /\ next_pendulum_id s' = next_pendulum_id s
    /\ (forall k r p, dict.get k (pendulums s) = Some r ->
                      objects s !! r = Some p ->
                      objects s' !! r = Some (advanced 0.01 9.81 p)).
Proof.
  apply (system_update_steps_each_pendulum_once
           [CreatePendulum Scenario.params] 0.01 9.81).
  rewrite one_pendulum_system. intros k r p Hg Hp.
  cbn [pendulums objects SystemScenario.one dict.get] in Hg, Hp.
  destruct (0 =? k)%Z; [| discriminate]. injection Hg as <-.
  change ([Scenario.body] !! 0%nat) with (Some Scenario.body) in Hp.
  injection Hp as <-. right. cbn. repeat split; lra.
Defined.

(** ** Creating then removing *)

Lemma dict_remove_snoc_fresh {V} (k : Z) (v : V) (d : dict.t V) :
  dict.get k d = None -> dict.remove k (d ++ [(k, v)]) = d.
Proof.
  induction d as [| [k' v'] rest IH]; cbn [dict.get dict.remove app].
  - rewrite Z.eqb_refl. reflexivity.
  - destruct (k' =? k)%Z; [discriminate |].
    intros H. rewrite IH by exact H. reflexivity.
Qed.

(** X19. In every reachable state, creating a pendulum (trail duration
    not negative) and at once removing it by its id gives back the dict as
    it was, entry for entry and in the same order; but nothing is selected
    afterwards, whatever was selected before, and the id is spent. *)
Theorem create_then_remove (os : list PendulumSystem.op)
        (params : PendulumParams.t) :
  0 <= PendulumParams.path_duration params ->
  let s := PendulumSystem.exec os PendulumSystem.__init__ in
  exists r s1 s2,
    create_pendulum params s = (Return r, s1)
    /\ remove_pendulum (next_pendulum_id s) s1 = (Return true, s2)
    /\ pendulums s2 = pendulums s
    /\ selected_pendulum s2 = None
    /\ next_pendulum_id s2 = (next_pendulum_id s + 1)%Z.
Proof.
  intros Hdur s.
  assert (Hs : sound s) by (apply exec_sound, sound___init__).
  destruct Hs as (Hwf & Hb & _).
  pose proof (create_pendulum_wf params s Hwf) as Hwf1.
  destruct (create_pendulum_Return params s Hdur) as (objs' & E & _).
  rewrite E in Hwf1 |- *. cbn [snd] in Hwf1.
  eexists. eexists. eexists. split; [reflexivity |].
  rewrite (remove_pendulum_present _ _ (length (objects s)) Hwf1)
    by (sysattrs; apply dict_get_set_eq).
  split; [reflexivity |]. sysattrs.
  pose proof (ids_below_next_fresh s Hb) as Hfresh.
  rewrite dict_set_fresh by exact Hfresh.
  rewrite dict_remove_snoc_fresh by exact Hfresh.
  cbn [selection_without]. rewrite Nat.eqb_refl. repeat split.
Qed.

Lemma create_then_remove_witness :
  let s := PendulumSystem.exec [CreatePendulum Scenario.params]
                               PendulumSystem.__init__ in
  exists r s1 s2,
    create_pendulum Scenario.params s = (Return r, s1)
    /\ remove_pendulum (next_pendulum_id s) s1 = (Return true, s2)
    /\ pendulums s2 = pendulums s
    /\ selected_pendulum s2 = None
    /\ next_pendulum_id s2 = (next_pendulum_id s + 1)%Z.
Proof.
  apply (create_then_remove [CreatePendulum Scenario.params] Scenario.params).
  cbn. lra.
Defined.

(** ** A click without a move *)

(** X20. Grabbing a bob and letting go without moving: when [start_drag]
    on a pendulum that is not being dragged reports success, the
    [end_drag] that follows returns the pendulum with every attribute as
    before the click, except that the trail has been emptied. *)
Theorem click_and_release_only_clears_the_trail
        (position screen_center : R * R) (p : Pendulum.t) :
  Pendulum.dragging p = false -> Pendulum.drag_joint p = 0%Z ->
  fst (Pendulum.start_drag position screen_center p) = Return true ->
  Pendulum.end_drag (snd (Pendulum.start_drag position screen_center p))
  = (Return tt,
     Pendulum.with_path_tracer
       (PathTracer.set_points
          (deque.clear (PathTracer.points (Pendulum.path_tracer p)))
          (Pendulum.path_tracer p))
       p).
Proof.
  intros Hd Hj. rewrite start_drag_cases.
  destruct (py_le _ (py_max 10 (Pendulum.mass2 p)));
    [| destruct (py_le _ (py_max 10 (Pendulum.mass1 p)));
       [| discriminate]];
    intros _; cbn [snd]; destruct p; cbn in Hd, Hj; subst; reflexivity.
Qed.

Lemma click_and_release_only_clears_the_trail_witness :
  Pendulum.end_drag (snd (Pendulum.start_drag (0, 0) (0, 0) Scenario.fresh))
  = (Return tt,
     Pendulum.with_path_tracer
       (PathTracer.set_points
          (deque.clear
             (PathTracer.points (Pendulum.path_tracer Scenario.fresh)))
          (Pendulum.path_tracer Scenario.fresh))
       Scenario.fresh).
Proof.
  apply click_and_release_only_clears_the_trail.
  - reflexivity.
  - reflexivity.
  - rewrite start_drag_cases.
    assert (E : py_le (Spec.distance (0, 0)
                         (Spec.bob2_screen (0, 0) Scenario.fresh))
                      (py_max 10 (Pendulum.mass2 Scenario.fresh)) = true).
    { apply py_le_true. rewrite py_max_Rmax. unfold Spec.distance.
      cbn [fst snd Spec.bob2_screen Spec.anchor Pendulum.offset_x
           Pendulum.offset_y Pendulum.x2 Pendulum.y2 Pendulum.mass2
           Scenario.fresh].
      replace ((0 - (0 + 0 + 0)) ^ 2 + (0 - (0 + 0 + 0)) ^ 2) with 0 by ring.
      rewrite sqrt_0. unfold Rmax. destruct (Rle_dec 10 10); lra. }
    rewrite E. reflexivity.
Defined.

(** ** The dict lists the pendulums oldest first *)

Import Order.

Lemma increasing_snoc (l : list Z) (x : Z) :
  increasing l -> Forall (fun k => (k < x)%Z) l -> increasing (l ++ [x]).
Proof.
  induction l as [| y l IH]; cbn [app increasing]; intros Hinc Hall.
  - split; [constructor | exact I].
  - destruct Hinc as [Hy Hinc]. apply Forall_cons_iff in Hall as [Hyx Hall].
    split; [| apply IH; assumption].
    apply Forall_app. split; [exact Hy |]. constructor; [exact Hyx | constructor].
Qed.

Lemma keys_remove_sub {V} (k : Z) (d : dict.t V) (P : Z -> Prop) :
  Forall P (map fst d) -> Forall P (map fst (dict.remove k d)).
Proof.
  induction d as [| [k' v'] rest IH]; cbn [dict.remove map fst]; intros H.
  - exact H.
  - apply Forall_cons_iff in H as [H1 H2].
    destruct (k' =? k)%Z; cbn [map fst]; [exact H2 |].
    constructor; [exact H1 | apply IH, H2].
Qed.

Lemma increasing_remove {V} (k : Z) (d : dict.t V) :
  increasing (map fst d) -> increasing (map fst (dict.remove k d)).
Proof.
  induction d as [| [k' v'] rest IH]; cbn [dict.remove map fst increasing];
    intros H.
  - exact H.
  - destruct H as [H1 H2].
    destruct (k' =? k)%Z; cbn [map fst increasing]; [exact H2 |].
    split; [apply keys_remove_sub, H1 | apply IH, H2].
Qed.

Lemma dict_get_None_keys {V} (k : Z) (d : dict.t V) :
  Forall (fun k' => (k' < k)%Z) (map fst d) -> dict.get k d = None.
Proof.
  induction d as [| [k' v'] rest IH]; cbn [dict.get map fst]; intros H.
  - reflexivity.
  - apply Forall_cons_iff in H as [H1 H2].
    destruct (Z.eqb_spec k' k); [lia | apply IH, H2].
Qed.

Lemma call_ordered (o : PendulumSystem.op) (s : PendulumSystem.t) :
  wf s -> ordered s -> ordered (snd (PendulumSystem.call o s)).
Proof.
  intros Hwf (Hinc & Hall & Hnext).
  pose proof (call_dict_frame o s) as Hframe.
  assert (Hsame : forall s' : PendulumSystem.t,
             pendulums s' = pendulums s /\
             next_pendulum_id s' = next_pendulum_id s -> ordered s').
  { intros s' [E1 E2]. unfold ordered, keys. rewrite E1, E2.
    repeat split; assumption. }
  assert (Hbelow : Forall (fun k' => (k' < next_pendulum_id s)%Z) (keys s)).
  { eapply Forall_impl; [exact Hall |]. cbn. intros k Hk. lia. }
  destruct o; cbn [PendulumSystem.call] in *; rewrite ?snd_discard in *;
    try (apply Hsame; exact Hframe).
  - (* initialize *) repeat split; cbn; [constructor | lia].
  - (* create_pendulum *)
    destruct (__init__Return (next_pendulum_id s)) as (fresh & Hf & _).
    rewrite (create_pendulum_eq params s fresh Hf). cbv zeta.
    destruct (Pendulum.initialize params fresh) as [[[] | e] p']; cbn [snd];
      unfold ordered, keys; sysattrs.
    + rewrite dict_set_fresh by (apply dict_get_None_keys, Hbelow).
      rewrite map_app. cbn [map fst]. split; [| split; [| lia]].
      * apply increasing_snoc; assumption.
      * apply Forall_app. split.
        -- eapply Forall_impl; [exact Hall |]. cbn. intros k Hk. lia.
        -- constructor; [lia | constructor].
    + split; [exact Hinc |]. split; [| lia].
      eapply Forall_impl; [exact Hall |]. cbn. intros k Hk. lia.
  - (* remove_pendulum *)
    destruct (dict.get pendulum_id (pendulums s)) as [r |] eqn:Hg.
    + rewrite (remove_pendulum_present pendulum_id s r Hwf Hg). cbn [snd].
      unfold ordered, keys. sysattrs. split; [| split; [| exact Hnext]].
      * apply increasing_remove, Hinc.
      * apply keys_remove_sub, Hall.
    + rewrite (remove_pendulum_absent pendulum_id s Hg).
      repeat split; assumption.
  - (* clear *) repeat split; cbn; [constructor | exact Hnext].
Qed.

Lemma exec_ordered (os : list PendulumSystem.op) :
  forall s, wf s -> ordered s -> ordered (PendulumSystem.exec os s).
Proof.
  induction os as [| o rest IH]; intros s Hwf Hs; cbn [PendulumSystem.exec].
  - exact Hs.
  - apply IH; [apply call_wf, Hwf | apply call_ordered; assumption].
Qed.

Lemma ordered___init__ : ordered PendulumSystem.__init__.
Proof. repeat split; cbn; [constructor | lia]. Qed.

(** X21. In every state of the system reachable from its construction
    the ids of the dict are strictly increasing in the dict's order, each
    at least 0 and below the next id: the dict lists the pendulums in the
    order of their creation, oldest first. *)
Theorem dict_lists_pendulums_oldest_first (os : list PendulumSystem.op) :
  let s := PendulumSystem.exec os PendulumSystem.__init__ in
  increasing (keys s)
  /\ Forall (fun k => (0 <= k < next_pendulum_id s)%Z) (keys s).
Proof.
  intros s.
  destruct (exec_ordered os PendulumSystem.__init__ wf___init__
                         ordered___init__) as (H1 & H2 & _).
  split; assumption.
Qed.

(** ** The simulation scene: click, release, remove *)

Import SimulationScene.

Ltac sceneattrs :=
  cbn [pendulum_system physics_engine is_running simulation_speed
       SimulationScene.dragging surface_width surface_height
       with_pendulum_system with_physics_engine with_is_running
       SimulationScene.with_dragging fst snd] in *.

Lemma with_pendulum_system_same (sc : SimulationScene.t) :
  with_pendulum_system (pendulum_system sc) sc = sc.
Proof. destruct sc. reflexivity. Qed.

Lemma on_system_eq {A} (m : M PendulumSystem.t A) (sc : SimulationScene.t)
      (res : outcome A) (s' : PendulumSystem.t) :
  m (pendulum_system sc) = (res, s') ->
  on_system m sc = (res, with_pendulum_system s' sc).
Proof. intros H. unfold on_system, zoom. rewrite H. reflexivity. Qed.

Lemma on_system_read {A} (m : M PendulumSystem.t A) (sc : SimulationScene.t)
      (res : outcome A) :
  m (pendulum_system sc) = (res, pendulum_system sc) ->
  on_system m sc = (res, sc).
Proof.
  intros H. rewrite (on_system_eq m sc res _ H).
  rewrite with_pendulum_system_same. reflexivity.
Qed.

Lemma dict_remove_length {V} (k : Z) (v : V) (d : dict.t V) :
  dict.get k d = Some v -> S (length (dict.remove k d)) = length d.
Proof.
  induction d as [| [k' v'] rest IH]; cbn [dict.get dict.remove length];
    [discriminate |].
  destruct (k' =? k)%Z; [reflexivity |].
  intros H. cbn [length]. rewrite IH by exact H. reflexivity.
Qed.

(** X22. [remove_selected_pendulum] never empties the system: with no
    selection or with at most one pendulum it changes nothing; otherwise
    it removes the selected pendulum from the dict (one entry fewer, the
    others in their order) and selects the first pendulum that remains,
    the oldest one. *)
Theorem remove_selected_pendulum_keeps_one
        (os : list PendulumSystem.op) (sc : SimulationScene.t) :
  pendulum_system sc = PendulumSystem.exec os PendulumSystem.__init__ ->
  let s := pendulum_system sc in
  (selected_pendulum s = None \/ (length (pendulums s) <= 1)%nat ->
   remove_selected_pendulum sc = (Return tt, sc))
  /\ (forall r, selected_pendulum s = Some r ->
                (1 < length (pendulums s))%nat ->
      exists k k1 r1 rest,
        dict.get k (pendulums s) = Some r
        /\ dict.remove k (pendulums s) = (k1, r1) :: rest
        /\ S (length ((k1, r1) :: rest)) = length (pendulums s)
        /\ remove_selected_pendulum sc
           = (Return tt,
              with_pendulum_system
                (PendulumSystem.mk (objects s)
                                   (dict.remove k (pendulums s))
                                   (Some r1) (next_pendulum_id s))
                sc)).
Proof.
  intros Hreach s.
  assert (Hwf : wf s).
  { subst s. rewrite Hreach. apply exec_wf, wf___init__. }
  assert (Hsel : on_system get_selected_pendulum sc
                 = (Return (selected_pendulum s), sc)).
  { apply on_system_read. reflexivity. }
  assert (Hcount : on_system get_pendulum_count sc
                   = (Return (Z.of_nat (length (pendulums s))), sc)).
  { apply on_system_read. reflexivity. }
  split.
  - intros Hcase. unfold remove_selected_pendulum.
    rewrite (bind_Return _ _ _ _ _ Hsel).
    destruct (selected_pendulum s) as [r |]; [| reflexivity].
    destruct Hcase as [Hnone | Hle]; [discriminate |].
    rewrite (bind_Return _ _ _ _ _ Hcount).
    replace (1 <? Z.of_nat (length (pendulums s)))%Z with false
      by (symmetry; apply Z.ltb_ge; lia).
    reflexivity.
  - intros r Hr Hlen.
    destruct Hwf as (Hu & Hk & Hl).
    destruct (Hl r Hr) as (k & Hg).
    destruct (Hk k r Hg) as (p & Hp & Hid).
    pose proof (dict_remove_length k r (pendulums s) Hg) as Hlen'.
    destruct (dict.remove k (pendulums s)) as [| [k1 r1] rest] eqn:Hrem.
    { cbn [length] in Hlen'. lia. }
    exists k, k1, r1, rest. split; [exact Hg |]. split; [exact Hrem |].
    split; [exact Hlen' |]. rewrite Hrem.
    unfold remove_selected_pendulum.
    rewrite (bind_Return _ _ _ _ _ Hsel). rewrite Hr.
    rewrite (bind_Return _ _ _ _ _ Hcount).
    replace (1 <? Z.of_nat (length (pendulums s)))%Z with true
      by (symmetry; apply Z.ltb_lt; lia).
    assert (Hread : on_system (on_object r (gets Pendulum.id)) sc
                    = (Return k, sc)).
    { apply on_system_read. fold s. rewrite (on_object_gets _ r p s Hp).
      rewrite Hid. reflexivity. }
    rewrite (bind_Return _ _ _ _ _ Hread).
    assert (Hremove :
              discard (on_system (remove_pendulum k)) sc
              = (Return tt,
                 with_pendulum_system
                   (PendulumSystem.mk (objects s) ((k1, r1) :: rest)
                                      None (next_pendulum_id s)) sc)).
    { unfold discard.
      erewrite bind_Return;
        [| apply on_system_eq; fold s;
           apply (remove_pendulum_present k s r (conj Hu (conj Hk Hl)) Hg)].
      rewrite Hrem, Hr. cbn [selection_without]. rewrite Nat.eqb_refl.
      reflexivity. }
    rewrite (bind_Return _ _ _ _ _ Hremove).
    unfold on_system at 1, zoom, gets, bind at 1. sceneattrs. sysattrs.
    unfold discard.
    erewrite bind_Return;
      [| apply on_system_eq; sceneattrs;
         apply (select_pendulum_present k1 _ r1);
         sysattrs; cbn [dict.get]; rewrite Z.eqb_refl; reflexivity].
    unfold ret. destruct sc. reflexivity.
Qed.

Lemma remove_selected_pendulum_keeps_one_witness :
  let sc := SceneScenario.over
              (PendulumSystem.exec SceneScenario.two_created
                                   PendulumSystem.__init__) in
  let s := pendulum_system sc in
  (selected_pendulum s = None \/ (length (pendulums s) <= 1)%nat ->
   remove_selected_pendulum sc = (Return tt, sc))
  /\ (forall r, selected_pendulum s = Some r ->
                (1 < length (pendulums s))%nat ->
      exists k k1 r1 rest,
        dict.get k (pendulums s) = Some r
        /\ dict.remove k (pendulums s) = (k1, r1) :: rest
        /\ S (length ((k1, r1) :: rest)) = length (pendulums s)
        /\ remove_selected_pendulum sc
           = (Return tt,
              with_pendulum_system
                (PendulumSystem.mk (objects s)
                                   (dict.remove k (pendulums s))
                                   (Some r1) (next_pendulum_id s))
                sc)).
Proof.
  exact (remove_selected_pendulum_keeps_one
           SceneScenario.two_created
           (SceneScenario.over
              (PendulumSystem.exec SceneScenario.two_created
                                   PendulumSystem.__init__))
           eq_refl).
Defined.

(** X23. A click in the simulation area, in every reachable state of the
    pendulum system: it never raises; when the pointer hits no bob the
    scene is left exactly as it was (selection and drag flag included);
    otherwise the first pendulum hit, in the order of the dict, becomes
    the selected one, its drag starts on joint 2 or 1, and the drag flag
    of the scene is set. *)
Theorem click_selects_and_grabs
        (os : list PendulumSystem.op) (pos : R * R) (sc : SimulationScene.t) :
  pendulum_system sc = PendulumSystem.exec os PendulumSystem.__init__ ->
  let s := pendulum_system sc in
  let c := screen_center sc in
  match first_hit pos c (objects s) (dict.values (pendulums s)) with
  | None => _handle_simulation_click pos sc = (Return tt, sc)
  | Some r =>
      exists p j,
        objects s !! r = Some p
        /\ (j = 1 \/ j = 2)%Z
        /\ _handle_simulation_click pos sc
           = (Return tt,
              SimulationScene.with_dragging true
                (with_pendulum_system
                   (with_objects
                      (<[r := Pendulum.with_drag_joint j
                                (Pendulum.with_dragging true p)]> (objects s))
                      (with_selected_pendulum (Some r) s))
                   sc))
  end.
Proof.
  intros Hreach s c.
  pose proof (first_hit_characterises_try_select os pos c) as Htry.
  rewrite <- Hreach in Htry. fold s in Htry.
  unfold _handle_simulation_click. rewrite bind_gets. fold c.
  destruct (first_hit pos c (objects s) (dict.values (pendulums s)))
    as [r |] eqn:Hfind.
  - unfold first_hit in Hfind. apply find_some in Hfind as [_ Hhit].
    destruct (objects s !! r) as [p |] eqn:Hp; [| discriminate].
    assert (Hstart : exists j,
               (j = 1 \/ j = 2)%Z
               /\ Pendulum.start_drag pos c p
                  = (Return true,
                     Pendulum.with_drag_joint j
                       (Pendulum.with_dragging true p))).
    { rewrite start_drag_cases. unfold hit in Hhit.
      destruct (py_le _ (py_max 10 (Pendulum.mass2 p))).
      - exists 2%Z. split; [right; reflexivity | reflexivity].
      - cbn [orb] in Hhit. rewrite Hhit.
        exists 1%Z. split; [left; reflexivity | reflexivity]. }
    destruct Hstart as (j & Hj & Hstart).
    exists p, j. split; [reflexivity |]. split; [exact Hj |].
    rewrite (bind_Return _ _ _ _ _ (on_system_eq _ sc _ _ Htry)).
    rewrite bind_gets.
    erewrite bind_Return;
      [| apply on_system_eq; sceneattrs; unfold on_object; sysattrs;
         rewrite Hp; change (screen_center _) with c; rewrite Hstart;
         reflexivity].
    destruct sc. reflexivity.
  - rewrite (bind_Return _ _ _ _ _ (on_system_read _ sc _ Htry)).
    reflexivity.
Qed.

Lemma click_selects_and_grabs_witness :
  let sc := SceneScenario.over
              (PendulumSystem.exec SceneScenario.two_created
                                   PendulumSystem.__init__) in
  let s := pendulum_system sc in
  let c := screen_center sc in
  match first_hit (400, 300) c (objects s) (dict.values (pendulums s)) with
  | None => _handle_simulation_click (400, 300) sc = (Return tt, sc)
  | Some r =>
      exists p j,
        objects s !! r = Some p
        /\ (j = 1 \/ j = 2)%Z
        /\ _handle_simulation_click (400, 300) sc
           = (Return tt,
              SimulationScene.with_dragging true
                (with_pendulum_system
                   (with_objects
                      (<[r := Pendulum.with_drag_joint j
                                (Pendulum.with_dragging true p)]> (objects s))
                      (with_selected_pendulum (Some r) s))
                   sc))
  end.
Proof.
  exact (click_selects_and_grabs
           SceneScenario.two_created (400, 300)
           (SceneScenario.over
              (PendulumSystem.exec SceneScenario.two_created
                                   PendulumSystem.__init__))
           eq_refl).
Defined.

(** X24. Releasing the mouse button, in every reachable state of the
    pendulum system: it never raises, clears the drag flag of the scene,
    and leaves the selected pendulum, when there is one, not dragged,
    with drag joint 0 and an empty trail; no other attribute of the
    pendulum and no other pendulum changes. *)
Theorem release_ends_the_drag
        (os : list PendulumSystem.op) (sc : SimulationScene.t) :
  pendulum_system sc = PendulumSystem.exec os PendulumSystem.__init__ ->
  let s := pendulum_system sc in
  match selected_pendulum s with
  | None =>
      _handle_simulation_release sc
      = (Return tt, SimulationScene.with_dragging false sc)
  | Some r =>
      exists p,
        objects s !! r = Some p
        /\ _handle_simulation_release sc
           = (Return tt,
              SimulationScene.with_dragging false
                (with_pendulum_system
                   (with_objects
                      (<[r := Pendulum.with_path_tracer
                                (PathTracer.set_points
                                   (deque.clear
                                      (PathTracer.points
                                         (Pendulum.path_tracer p)))
                                   (Pendulum.path_tracer p))
                                (Pendulum.with_drag_joint 0
                                   (Pendulum.with_dragging false p))]>
                         (objects s))
                      s)
                   sc))
  end.
Proof.
  intros Hreach s.
  assert (Hwf : wf s).
  { subst s. rewrite Hreach. apply exec_wf, wf___init__. }
  assert (Hsel : on_system get_selected_pendulum sc
                 = (Return (selected_pendulum s), sc)).
  { apply on_system_read. reflexivity. }
  unfold _handle_simulation_release.
  rewrite (bind_Return _ _ _ _ _ Hsel).
  destruct (selected_pendulum s) as [r |] eqn:Hr.
  - destruct Hwf as (Hu & Hk & Hl).
    destruct (Hl r Hr) as (k & Hg).
    destruct (Hk k r Hg) as (p & Hp & _).
    exists p. split; [exact Hp |].
    assert (Hend : on_object r Pendulum.end_drag s
                   = (Return tt,
                      with_objects
                        (<[r := snd (Pendulum.end_drag p)]> (objects s)) s)).
    { unfold on_object. rewrite Hp. reflexivity. }
    rewrite (bind_Return _ _ _ _ _ (on_system_eq _ sc _ _ Hend)).
    destruct sc, p. reflexivity.
  - destruct sc. reflexivity.
Qed.

Lemma release_ends_the_drag_witness :
  let sc := SceneScenario.over
              (PendulumSystem.exec SceneScenario.two_created
                                   PendulumSystem.__init__) in
  let s := pendulum_system sc in
  match selected_pendulum s with
  | None =>
      _handle_simulation_release sc
      = (Return tt, SimulationScene.with_dragging false sc)
  | Some r =>
      exists p,
        objects s !! r = Some p
        /\ _handle_simulation_release sc
           = (Return tt,
              SimulationScene.with_dragging false
                (with_pendulum_system
                   (with_objects
                      (<[r := Pendulum.with_path_tracer
                                (PathTracer.set_points
                                   (deque.clear
                                      (PathTracer.points
                                         (Pendulum.path_tracer p)))
                                   (Pendulum.path_tracer p))
                                (Pendulum.with_drag_joint 0
                                   (Pendulum.with_dragging false p))]>
                         (objects s))
                      s)
                   sc))
  end.
Proof.
  exact (release_ends_the_drag
           SceneScenario.two_created
           (SceneScenario.over
              (PendulumSystem.exec SceneScenario.two_created
                                   PendulumSystem.__init__))
           eq_refl).
Defined.

(** X25. One frame of the scene, in every reachable state of the pendulum
    system in which each registered pendulum is dragged or has positive
    lengths and masses: while paused, [update] changes nothing; while
    running, it takes exactly one integration step per pendulum, of size
    dt times the simulation speed and under the gravity of the physics
    engine (a dragged pendulum stays as it is), and changes nothing else
    in the scene. *)
Theorem scene_update_scales_the_step
        (os : list PendulumSystem.op) (dt : R) (sc : SimulationScene.t) :
  pendulum_system sc = PendulumSystem.exec os PendulumSystem.__init__ ->
  let s := pendulum_system sc in
  (forall k r p, dict.get k (pendulums s) = Some r ->
                 objects s !! r = Some p -> steppable p) ->
  if is_running sc then
    exists s',
      SimulationScene.update dt sc = (Return tt, with_pendulum_system s' sc)
      /\ pendulums s' = pendulums s
      /\ selected_pendulum s' = selected_pendulum s
      /\ next_pendulum_id s' = next_pendulum_id s
      /\ (forall k r p,
             dict.get k (pendulums s) = Some r ->
             objects s !! r = Some p ->
             objects s' !! r
             = Some (advanced (dt * simulation_speed sc)
                              (PhysicsEngine.gravity (physics_engine sc)) p))
  else SimulationScene.update dt sc = (Return tt, sc).
Proof.
  intros Hreach s Hall.
  unfold SimulationScene.update. rewrite bind_gets.
  destruct (is_running sc) eqn:Hrun; [| reflexivity].
  destruct (update_sound_advanced
              (dt * simulation_speed sc)
              (PhysicsEngine.gravity (physics_engine sc)) s)
    as (s' & E & Hrest); [| exact Hall |].
  { subst s. rewrite Hreach. apply exec_sound, sound___init__. }
  exists s'. split; [| exact Hrest].
  rewrite bind_gets. subst s.
  unfold on_engine, on_system, PhysicsEngine.update, PhysicsEngine.get_gravity.
  unfold zoom, bind, ret, gets. destruct sc. sceneattrs.
  rewrite E. reflexivity.
Qed.

Lemma scene_update_scales_the_step_witness :
  let sc := SceneScenario.over
              (PendulumSystem.exec [PendulumSystem.CreatePendulum
                                      Scenario.params]
                                   PendulumSystem.__init__) in
  let s := pendulum_system sc in
  exists s',
    SimulationScene.update 0.01 sc = (Return tt, with_pendulum_system s' sc)
    /\ pendulums s' = pendulums s
    /\ selected_pendulum s' = selected_pendulum s
    /\ next_pendulum_id s' = next_pendulum_id s
    /\ (forall k r p,
           dict.get k (pendulums s) = Some r ->
           objects s !! r = Some p ->
           objects s' !! r
           = Some (advanced (0.01 * simulation_speed sc)
                            (PhysicsEngine.gravity (physics_engine sc)) p)).
Proof.
  apply (scene_update_scales_the_step
           [PendulumSystem.CreatePendulum Scenario.params] 0.01
           (SceneScenario.over
              (PendulumSystem.exec [PendulumSystem.CreatePendulum
                                      Scenario.params]
                                   PendulumSystem.__init__))
           eq_refl).
  cbn [pendulum_system SceneScenario.over].
  rewrite one_pendulum_system.
  intros k r p Hg Hp.
  unfold SystemScenario.one in Hg, Hp. sysattrs.
  cbn [dict.get] in Hg.
  destruct (0 =? k)%Z; [| discriminate].
  injection Hg as <-.
  change ([Scenario.body] !! 0%nat) with (Some Scenario.body) in Hp.
  injection Hp as <-.
  right. cbn [Pendulum.length1 Pendulum.length2 Pendulum.mass1 Pendulum.mass2
              Scenario.body].
  repeat split; lra.
Defined.
